(** * DecodeSim: the simulation core of [game.js]

    A shallow embedding of the two-robot arcade game of [src/game.js] and
    the proofs of its specified properties.

    Modelling conventions.
    - JavaScript numbers that carry physics (positions, velocities, angles,
      random draws) are idealised as real numbers: rounding, infinities and
      NaN are outside the model.  Counters (scores, [timeLeft], cooldown,
      particle life, [Date.now()]) are integers.
    - [Vector2] and [Artifact] instances are mutable objects that several
      variables can refer to.  They live in two object stores of the
      [World]; program variables hold references.  The in-place methods of
      [Vector2] write through the reference and return it, as the source
      does.
    - Every function runs in the monad [M]: it threads the [World] and can
      throw.  A throw keeps the mutations done so far, as in JavaScript.
    - [Math.random()] reads the next value of a source of reals in [0,1)
      that is part of the world; [Date.now()] and the key map [input] are
      arguments of the frame function [update].
    - The canvas adapters ([draw], [updatePatternUI], [updateInventoryUI],
      [resize]) only read the simulation state; they are not modelled.  The
      DOM nodes that the scoring and clock code writes are the record
      [Dom]. *)

From Stdlib Require Import ZArith Reals Lra Lia.
From stdpp Require Import base option list gmap strings.

Set Default Proof Using "Type".

(** ** Constants (lines 5-21) *)

Definition FIELD_WIDTH : R := 2000.
Definition FIELD_HEIGHT : R := 1400.
Definition ROBOT_SIZE : R := 40.
Definition ARTIFACT_RADIUS : R := 8.
Definition GOAL_SIZE : R := 120.
Definition MAX_INVENTORY : nat := 3.

Definition COLORS_red : string := "#ff2a2a".
Definition COLORS_blue : string := "#2a8aff".

(** ** Data *)

(** The two team tags ['red'] and ['blue'] and the two artifact tags
    ['purple'] and ['green']. *)
Inductive Team := red | blue.
Inductive ArtifactType := purple | green.

#[global] Instance Team_eq_dec : EqDecision Team.
Proof. solve_decision. Defined.
#[global] Instance ArtifactType_eq_dec : EqDecision ArtifactType.
Proof. solve_decision. Defined.

(** References into the two object stores. *)
Definition vref := nat.
Definition aref := nat.

(** Records have definitional eta: a record equals the record rebuilt from
    its fields. *)
Set Primitive Projections.

(** The fields of a [Vector2] instance. *)
Module Vec.
Record t := mk { x : R; y : R }.
Definition with_x (v : t) (n : R) : t := mk n (y v).
Definition with_y (v : t) (n : R) : t := mk (x v) n.
End Vec.

(** The fields of a [Particle] instance. *)
Module ParticleObj.
Record t := mk {
  pos : vref;
  vel : vref;
  color : string;
  life : Z;
  maxLife : Z
}.
End ParticleObj.

(** The [controls] object handed to a [Robot]. *)
Record Controls := mkControls {
  key_up : string;
  key_down : string;
  key_left : string;
  key_right : string;
  key_action : string
}.

(** The fields of a [Robot] instance.  [inventory] holds references to the
    artifact objects, which stay in [gameState.artifacts] as well. *)
Module RobotObj.
Record t := mk {
  id : Team;
  pos : vref;
  vel : vref;
  angle : R;
  color : string;
  controls : Controls;
  inventory : list aref;
  cooldown : Z;
  speed : R
}.
Definition with_pos (r : t) (p : vref) : t :=
  mk (id r) p (vel r) (angle r) (color r) (controls r) (inventory r) (cooldown r) (speed r).
Definition with_angle (r : t) (a : R) : t :=
  mk (id r) (pos r) (vel r) a (color r) (controls r) (inventory r) (cooldown r) (speed r).
Definition with_inventory (r : t) (i : list aref) : t :=
  mk (id r) (pos r) (vel r) (angle r) (color r) (controls r) i (cooldown r) (speed r).
Definition with_cooldown (r : t) (c : Z) : t :=
  mk (id r) (pos r) (vel r) (angle r) (color r) (controls r) (inventory r) c (speed r).
End RobotObj.

(** The fields of an [Artifact] instance.  [holder] is the back reference
    to the holding robot, named by its team. *)
Module ArtifactObj.
Record t := mk {
  pos : vref;
  vel : vref;
  type : ArtifactType;
  held : bool;
  holder : option Team;
  scored : bool
}.
Definition with_pos (a : t) (p : vref) : t :=
  mk p (vel a) (type a) (held a) (holder a) (scored a).
Definition with_vel (a : t) (v : vref) : t :=
  mk (pos a) v (type a) (held a) (holder a) (scored a).
Definition with_held (a : t) (h : bool) : t :=
  mk (pos a) (vel a) (type a) h (holder a) (scored a).
Definition with_holder (a : t) (h : option Team) : t :=
  mk (pos a) (vel a) (type a) (held a) h (scored a).
Definition with_scored (a : t) (s : bool) : t :=
  mk (pos a) (vel a) (type a) (held a) (holder a) s.
End ArtifactObj.

(** The [gameState] object (lines 24-36).  An entry of [targetPattern] is
    [None] when the source would store [undefined]. *)
Record GameState := mkGameState {
  running : bool;
  timeLeft : Z;
  lastTime : Z;
  robots : list RobotObj.t;
  artifacts : list aref;
  particles : list ParticleObj.t;
  targetPattern : list (option ArtifactType);
  redScore : Z;
  blueScore : Z;
  redHistory : list ArtifactType;
  blueHistory : list ArtifactType
}.

(** The DOM nodes written by the simulation: the two score texts, the
    timer (minutes and seconds of its text), the message banner with its
    [hidden] class, and the number of [setTimeout] callbacks scheduled to
    hide the banner. *)
Record Dom := mkDom {
  redScoreText : Z;
  blueScoreText : Z;
  timerText : Z * Z;
  gameMessage : string;
  gameMessageHidden : bool;
  hideTimeouts : nat
}.

(** A value that [Math.random()] can return. *)
Record Unit01 := mkUnit01 { u01 :> R; u01_range : (0 <= u01 < 1)%R }.

Record World := mkWorld {
  gameState : GameState;
  vectors : vref -> Vec.t;
  vnext : vref;
  artifactObjs : aref -> ArtifactObj.t;
  anext : aref;
  dom : Dom;
  randomSource : nat -> Unit01;
  randomCount : nat
}.

Unset Primitive Projections.

(** ** The monad of the program *)

Inductive JsError :=
| ReferenceError (name : string)
| TypeError (what : string).

Inductive Result (A : Type) :=
| Ok (a : A)
| Throw (e : JsError).
Arguments Ok {A} a.
Arguments Throw {A} e.

Definition M (A : Type) : Type := World -> Result A * World.

Definition ret {A} (a : A) : M A := fun w => (Ok a, w).
Definition bind {A B} (m : M A) (k : A -> M B) : M B :=
  fun w => match m w with
           | (Ok a, w') => k a w'
           | (Throw e, w') => (Throw e, w')
           end.
Definition throw {A} (e : JsError) : M A := fun w => (Throw e, w).
Definition gets {A} (f : World -> A) : M A := fun w => (Ok (f w), w).
Definition modify (f : World -> World) : M unit := fun w => (Ok tt, f w).

Declare Scope js_scope.
Delimit Scope js_scope with js.
Notation "x <- m ;; k" := (bind m (fun x => k))
  (at level 62, m at next level, right associativity, only parsing) : js_scope.
Notation "m ;;; k" := (bind m (fun _ => k))
  (at level 62, right associativity, only parsing) : js_scope.
Open Scope js_scope.

(** The world at the end of a computation, whether it returned or threw. *)
Definition exec {A} (m : M A) (w : World) : World := snd (m w).
Definition result {A} (m : M A) (w : World) : Result A := fst (m w).

(** ** Field updates

    [set_f v] is the assignment [gameState.f = v] (or the write of the DOM
    node [f]); [get_f] reads the field. *)

Definition w_gameState (v : GameState) (w : World) : World :=
  mkWorld v (vectors w) (vnext w) (artifactObjs w) (anext w) (dom w) (randomSource w) (randomCount w).
Definition w_vectors (v : vref -> Vec.t) (w : World) : World :=
  mkWorld (gameState w) v (vnext w) (artifactObjs w) (anext w) (dom w) (randomSource w) (randomCount w).
Definition w_vnext (v : vref) (w : World) : World :=
  mkWorld (gameState w) (vectors w) v (artifactObjs w) (anext w) (dom w) (randomSource w) (randomCount w).
Definition w_artifactObjs (v : aref -> ArtifactObj.t) (w : World) : World :=
  mkWorld (gameState w) (vectors w) (vnext w) v (anext w) (dom w) (randomSource w) (randomCount w).
Definition w_anext (v : aref) (w : World) : World :=
  mkWorld (gameState w) (vectors w) (vnext w) (artifactObjs w) v (dom w) (randomSource w) (randomCount w).
Definition w_dom (v : Dom) (w : World) : World :=
  mkWorld (gameState w) (vectors w) (vnext w) (artifactObjs w) (anext w) v (randomSource w) (randomCount w).
Definition w_randomSource (v : nat -> Unit01) (w : World) : World :=
  mkWorld (gameState w) (vectors w) (vnext w) (artifactObjs w) (anext w) (dom w) v (randomCount w).
Definition w_randomCount (v : nat) (w : World) : World :=
  mkWorld (gameState w) (vectors w) (vnext w) (artifactObjs w) (anext w) (dom w) (randomSource w) v.

Definition g_running (v : bool) (g : GameState) : GameState :=
  mkGameState v (timeLeft g) (lastTime g) (robots g) (artifacts g) (particles g) (targetPattern g) (redScore g) (blueScore g) (redHistory g) (blueHistory g).
Definition g_timeLeft (v : Z) (g : GameState) : GameState :=
  mkGameState (running g) v (lastTime g) (robots g) (artifacts g) (particles g) (targetPattern g) (redScore g) (blueScore g) (redHistory g) (blueHistory g).
Definition g_lastTime (v : Z) (g : GameState) : GameState :=
  mkGameState (running g) (timeLeft g) v (robots g) (artifacts g) (particles g) (targetPattern g) (redScore g) (blueScore g) (redHistory g) (blueHistory g).
Definition g_robots (v : list RobotObj.t) (g : GameState) : GameState :=
  mkGameState (running g) (timeLeft g) (lastTime g) v (artifacts g) (particles g) (targetPattern g) (redScore g) (blueScore g) (redHistory g) (blueHistory g).
Definition g_artifacts (v : list aref) (g : GameState) : GameState :=
  mkGameState (running g) (timeLeft g) (lastTime g) (robots g) v (particles g) (targetPattern g) (redScore g) (blueScore g) (redHistory g) (blueHistory g).
Definition g_particles (v : list ParticleObj.t) (g : GameState) : GameState :=
  mkGameState (running g) (timeLeft g) (lastTime g) (robots g) (artifacts g) v (targetPattern g) (redScore g) (blueScore g) (redHistory g) (blueHistory g).
Definition g_targetPattern (v : list (option ArtifactType)) (g : GameState) : GameState :=
  mkGameState (running g) (timeLeft g) (lastTime g) (robots g) (artifacts g) (particles g) v (redScore g) (blueScore g) (redHistory g) (blueHistory g).
Definition g_redScore (v : Z) (g : GameState) : GameState :=
  mkGameState (running g) (timeLeft g) (lastTime g) (robots g) (artifacts g) (particles g) (targetPattern g) v (blueScore g) (redHistory g) (blueHistory g).
Definition g_blueScore (v : Z) (g : GameState) : GameState :=
  mkGameState (running g) (timeLeft g) (lastTime g) (robots g) (artifacts g) (particles g) (targetPattern g) (redScore g) v (redHistory g) (blueHistory g).
Definition g_redHistory (v : list ArtifactType) (g : GameState) : GameState :=
  mkGameState (running g) (timeLeft g) (lastTime g) (robots g) (artifacts g) (particles g) (targetPattern g) (redScore g) (blueScore g) v (blueHistory g).
Definition g_blueHistory (v : list ArtifactType) (g : GameState) : GameState :=
  mkGameState (running g) (timeLeft g) (lastTime g) (robots g) (artifacts g) (particles g) (targetPattern g) (redScore g) (blueScore g) (redHistory g) v.

Definition d_redScoreText (v : Z) (d : Dom) : Dom :=
  mkDom v (blueScoreText d) (timerText d) (gameMessage d) (gameMessageHidden d) (hideTimeouts d).
Definition d_blueScoreText (v : Z) (d : Dom) : Dom :=
  mkDom (redScoreText d) v (timerText d) (gameMessage d) (gameMessageHidden d) (hideTimeouts d).
Definition d_timerText (v : Z * Z) (d : Dom) : Dom :=
  mkDom (redScoreText d) (blueScoreText d) v (gameMessage d) (gameMessageHidden d) (hideTimeouts d).
Definition d_gameMessage (v : string) (d : Dom) : Dom :=
  mkDom (redScoreText d) (blueScoreText d) (timerText d) v (gameMessageHidden d) (hideTimeouts d).
Definition d_gameMessageHidden (v : bool) (d : Dom) : Dom :=
  mkDom (redScoreText d) (blueScoreText d) (timerText d) (gameMessage d) v (hideTimeouts d).
Definition d_hideTimeouts (v : nat) (d : Dom) : Dom :=
  mkDom (redScoreText d) (blueScoreText d) (timerText d) (gameMessage d) (gameMessageHidden d) v.

Definition get_running : M (bool) := gets (fun w => running (gameState w)).
Definition set_running (v : bool) : M unit :=
  modify (fun w => w_gameState (g_running v (gameState w)) w).
Definition get_timeLeft : M (Z) := gets (fun w => timeLeft (gameState w)).
Definition set_timeLeft (v : Z) : M unit :=
  modify (fun w => w_gameState (g_timeLeft v (gameState w)) w).
Definition get_lastTime : M (Z) := gets (fun w => lastTime (gameState w)).
Definition set_lastTime (v : Z) : M unit :=
  modify (fun w => w_gameState (g_lastTime v (gameState w)) w).
Definition get_robots : M (list RobotObj.t) := gets (fun w => robots (gameState w)).
Definition set_robots (v : list RobotObj.t) : M unit :=
  modify (fun w => w_gameState (g_robots v (gameState w)) w).
Definition get_artifacts : M (list aref) := gets (fun w => artifacts (gameState w)).
Definition set_artifacts (v : list aref) : M unit :=
  modify (fun w => w_gameState (g_artifacts v (gameState w)) w).
Definition get_particles : M (list ParticleObj.t) := gets (fun w => particles (gameState w)).
Definition set_particles (v : list ParticleObj.t) : M unit :=
  modify (fun w => w_gameState (g_particles v (gameState w)) w).
Definition get_targetPattern : M (list (option ArtifactType)) := gets (fun w => targetPattern (gameState w)).
Definition set_targetPattern (v : list (option ArtifactType)) : M unit :=
  modify (fun w => w_gameState (g_targetPattern v (gameState w)) w).
Definition get_redScore : M (Z) := gets (fun w => redScore (gameState w)).
Definition set_redScore (v : Z) : M unit :=
  modify (fun w => w_gameState (g_redScore v (gameState w)) w).
Definition get_blueScore : M (Z) := gets (fun w => blueScore (gameState w)).
Definition set_blueScore (v : Z) : M unit :=
  modify (fun w => w_gameState (g_blueScore v (gameState w)) w).
Definition get_redHistory : M (list ArtifactType) := gets (fun w => redHistory (gameState w)).
Definition set_redHistory (v : list ArtifactType) : M unit :=
  modify (fun w => w_gameState (g_redHistory v (gameState w)) w).
Definition get_blueHistory : M (list ArtifactType) := gets (fun w => blueHistory (gameState w)).
Definition set_blueHistory (v : list ArtifactType) : M unit :=
  modify (fun w => w_gameState (g_blueHistory v (gameState w)) w).

Definition set_redScoreText (v : Z) : M unit :=
  modify (fun w => w_dom (d_redScoreText v (dom w)) w).
Definition set_blueScoreText (v : Z) : M unit :=
  modify (fun w => w_dom (d_blueScoreText v (dom w)) w).
Definition set_timerText (v : Z * Z) : M unit :=
  modify (fun w => w_dom (d_timerText v (dom w)) w).
Definition set_gameMessage (v : string) : M unit :=
  modify (fun w => w_dom (d_gameMessage v (dom w)) w).
Definition set_gameMessageHidden (v : bool) : M unit :=
  modify (fun w => w_dom (d_gameMessageHidden v (dom w)) w).
Definition set_hideTimeouts (v : nat) : M unit :=
  modify (fun w => w_dom (d_hideTimeouts v (dom w)) w).

(** ** Numbers and the [Math] object *)

#[global] Instance Rlt_decision (a b : R) : Decision (a < b)%R := Rlt_dec a b.
#[global] Instance Rle_decision (a b : R) : Decision (a <= b)%R := Rle_dec a b.

(** [Math.random()]: the next value of the source. *)
Definition Math_random : M R :=
  fun w => (Ok (u01 (randomSource w (randomCount w))),
            w_randomCount (S (randomCount w)) w).

Definition Math_floor (r : R) : Z := Zfloor r.

(** [Math.atan2(y, x)] on reals; without signed zeros the value at the
    origin is 0. *)
Definition Math_atan2 (y x : R) : R :=
  if decide (0 < x)%R then atan (y / x)
  else if decide (x < 0)%R then
    (if decide (0 <= y)%R then atan (y / x) + PI else atan (y / x) - PI)%R
  else if decide (0 < y)%R then (PI / 2)%R
  else if decide (y < 0)%R then (- PI / 2)%R
  else 0%R.

(** [l[i]] for an integer index: [None] is [undefined]. *)
Definition index {A} (l : list A) (i : Z) : option A :=
  if (i <? 0)%Z then None else l !! Z.to_nat i.

(** [input[key]] as a condition. *)
Definition pressed (input : gmap string bool) (key : string) : bool :=
  default false (input !! key).

(** A store with the cell [r] overwritten. *)
Definition store_set {A} (h : nat -> A) (r : nat) (v : A) : nat -> A :=
  fun r' => if Nat.eqb r' r then v else h r'.

(** A [for] loop that runs its body [n] times. *)
Fixpoint repeatM (n : nat) (body : M unit) : M unit :=
  match n with
  | O => ret tt
  | S n' => body ;;; repeatM n' body
  end.

(** [forEach] over a snapshot of an array. *)
Fixpoint forEach {A} (l : list A) (body : A -> M unit) : M unit :=
  match l with
  | [] => ret tt
  | a :: l' => body a ;;; forEach l' body
  end.

(** A method call on every element of an array of records, which returns
    the records as the calls leave them. *)
Fixpoint mapM {A B} (f : A -> M B) (l : list A) : M (list B) :=
  match l with
  | [] => ret []
  | a :: l' => b <- f a ;; bs <- mapM f l' ;; ret (b :: bs)
  end.

(** ** class Vector2 (lines 40-53) *)

Module Vector2.

Definition read (this : vref) : M Vec.t := gets (fun w => vectors w this).

Definition write (this : vref) (v : Vec.t) : M unit :=
  modify (fun w => w_vectors (store_set (vectors w) this v) w).

(** The assignments [this.x = n] and [this.y = n]. *)
Definition set_x (this : vref) (n : R) : M unit :=
  a <- read this ;; write this (Vec.with_x a n).

Definition set_y (this : vref) (n : R) : M unit :=
  a <- read this ;; write this (Vec.with_y a n).

(** [new Vector2(x, y)] *)
Definition new (x y : R) : M vref :=
  fun w => (Ok (vnext w),
            w_vnext (S (vnext w))
              (w_vectors (store_set (vectors w) (vnext w) (Vec.mk x y)) w)).

(** [add], [sub] and [mult] assign the two fields of [this] one after the
    other; neither assignment reads the field the other one writes. *)
Definition add (this v : vref) : M vref :=
  a <- read this ;; b <- read v ;;
  write this (Vec.mk (Vec.x a + Vec.x b) (Vec.y a + Vec.y b)) ;;;
  ret this.

Definition sub (this v : vref) : M vref :=
  a <- read this ;; b <- read v ;;
  write this (Vec.mk (Vec.x a - Vec.x b) (Vec.y a - Vec.y b)) ;;;
  ret this.

Definition mult (this : vref) (n : R) : M vref :=
  a <- read this ;;
  write this (Vec.mk (Vec.x a * n) (Vec.y a * n)) ;;;
  ret this.

Definition mag (this : vref) : M R :=
  a <- read this ;;
  ret (sqrt (Vec.x a * Vec.x a + Vec.y a * Vec.y a)).

Definition normalize (this : vref) : M vref :=
  m <- mag this ;;
  (if decide (0 < m)%R then mult this (1 / m) else ret this) ;;;
  ret this.

Definition copy (this : vref) : M vref :=
  a <- read this ;;
  new (Vec.x a) (Vec.y a).

Definition dist (this v : vref) : M R :=
  a <- read this ;; b <- read v ;;
  ret (sqrt ((Vec.x a - Vec.x b) ^ 2 + (Vec.y a - Vec.y b) ^ 2)).

End Vector2.

(** ** class Particle (lines 55-67) *)

Module Particle.

Definition new (x y : R) (color : string) (speed : R) (life : Z) : M ParticleObj.t :=
  pos <- Vector2.new x y ;;
  rx <- Math_random ;;
  ry <- Math_random ;;
  v <- Vector2.new (rx - 0.5) (ry - 0.5) ;;
  v <- Vector2.normalize v ;;
  vel <- Vector2.mult v speed ;;
  ret (ParticleObj.mk pos vel color life life).

Definition update (this : ParticleObj.t) : M ParticleObj.t :=
  Vector2.add (ParticleObj.pos this) (ParticleObj.vel this) ;;;
  let this := ParticleObj.mk (ParticleObj.pos this) (ParticleObj.vel this)
                (ParticleObj.color this) (ParticleObj.life this - 1)
                (ParticleObj.maxLife this) in
  Vector2.mult (ParticleObj.vel this) 0.95 ;;;
  ret this.

End Particle.

(** [spawnParticles] (lines 285-289) *)
Definition spawnParticles (x y : R) (color : string) (count : nat) : M unit :=
  repeatM count
    (p <- Particle.new x y color 4 30 ;;
     ps <- get_particles ;;
     set_particles (ps ++ [p])).

(** ** class Artifact (lines 185-210) *)

Module Artifact.

Definition read (this : aref) : M ArtifactObj.t := gets (fun w => artifactObjs w this).

Definition write (this : aref) (o : ArtifactObj.t) : M unit :=
  modify (fun w => w_artifactObjs (store_set (artifactObjs w) this o) w).

(** The assignments [this.pos = p], [this.vel = v], [this.held = b],
    [this.holder = h] and [this.scored = b]. *)
Definition set_pos (this : aref) (p : vref) : M unit :=
  o <- read this ;; write this (ArtifactObj.with_pos o p).
Definition set_vel (this : aref) (v : vref) : M unit :=
  o <- read this ;; write this (ArtifactObj.with_vel o v).
Definition set_held (this : aref) (b : bool) : M unit :=
  o <- read this ;; write this (ArtifactObj.with_held o b).
Definition set_holder (this : aref) (h : option Team) : M unit :=
  o <- read this ;; write this (ArtifactObj.with_holder o h).
Definition set_scored (this : aref) (b : bool) : M unit :=
  o <- read this ;; write this (ArtifactObj.with_scored o b).

Definition new (x y : R) (type : ArtifactType) : M aref :=
  pos <- Vector2.new x y ;;
  vel <- Vector2.new 0 0 ;;
  fun w => (Ok (anext w),
            w_anext (S (anext w))
              (w_artifactObjs
                 (store_set (artifactObjs w) (anext w)
                    (ArtifactObj.mk pos vel type false None false)) w)).

Definition update (this : aref) : M unit :=
  o <- read this ;;
  if ArtifactObj.scored o then ret tt
  else if ArtifactObj.held o then ret tt
  else
    Vector2.add (ArtifactObj.pos o) (ArtifactObj.vel o) ;;;
    Vector2.mult (ArtifactObj.vel o) 0.98 ;;;
    p <- Vector2.read (ArtifactObj.pos o) ;;
    (if bool_decide (Vec.x p < ARTIFACT_RADIUS)%R
        || bool_decide (FIELD_WIDTH - ARTIFACT_RADIUS < Vec.x p)%R
     then v <- Vector2.read (ArtifactObj.vel o) ;;
          Vector2.set_x (ArtifactObj.vel o) (Vec.x v * -1)
     else ret tt) ;;;
    p <- Vector2.read (ArtifactObj.pos o) ;;
    (if bool_decide (Vec.y p < ARTIFACT_RADIUS)%R
        || bool_decide (FIELD_HEIGHT - ARTIFACT_RADIUS < Vec.y p)%R
     then v <- Vector2.read (ArtifactObj.vel o) ;;
          Vector2.set_y (ArtifactObj.vel o) (Vec.y v * -1)
     else ret tt).

End Artifact.

(** ** class Robot (lines 78-150) *)

Module Robot.

Definition new (id : Team) (x y : R) (color : string) (controls : Controls)
  : M RobotObj.t :=
  pos <- Vector2.new x y ;;
  vel <- Vector2.new 0 0 ;;
  ret (RobotObj.mk id pos vel (match id with red => 0%R | _ => PI end)
         color controls [] 0 5).

(** The intake loop of [action] (lines 125-133) over the artifacts still to
    visit.  It returns the robot with the captured artifact pushed on its
    inventory ([found] is true), or [None] when the loop ends without a
    capture. *)
Fixpoint intake (this : RobotObj.t) (arts : list aref) : M (option RobotObj.t) :=
  match arts with
  | [] => ret None
  | a :: rest =>
      o <- Artifact.read a ;;
      d <- Vector2.dist (RobotObj.pos this) (ArtifactObj.pos o) ;;
      if negb (ArtifactObj.held o) && negb (ArtifactObj.scored o)
         && bool_decide (d < ROBOT_SIZE + 20)%R
      then
        Artifact.set_held a true ;;;
        Artifact.set_holder a (Some (RobotObj.id this)) ;;;
        ret (Some (RobotObj.with_inventory this (RobotObj.inventory this ++ [a])))
      else intake this rest
  end.

(** The shoot block of [action] (lines 138-149). *)
Definition shoot (this : RobotObj.t) : M RobotObj.t :=
  match RobotObj.inventory this with
  | [] => ret this
  | a :: rest =>
      let this := RobotObj.with_inventory this rest in
      Artifact.set_held a false ;;;
      Artifact.set_holder a None ;;;
      dir <- Vector2.new (cos (RobotObj.angle this)) (sin (RobotObj.angle this)) ;;
      p <- Vector2.copy (RobotObj.pos this) ;;
      d <- Vector2.copy dir ;;
      d <- Vector2.mult d (ROBOT_SIZE + 10) ;;
      p <- Vector2.add p d ;;
      Artifact.set_pos a p ;;;
      v <- Vector2.mult dir 15 ;;
      Artifact.set_vel a v ;;;
      d <- Vector2.copy dir ;;
      d <- Vector2.mult d 0.2 ;;
      Vector2.sub (RobotObj.vel this) d ;;;
      o <- Artifact.read a ;;
      ap <- Vector2.read (ArtifactObj.pos o) ;;
      spawnParticles (Vec.x ap) (Vec.y ap) "#fff" 5 ;;;
      ret this
  end.

Definition action (this : RobotObj.t) : M RobotObj.t :=
  if (length (RobotObj.inventory this) <? MAX_INVENTORY)%nat then
    arts <- get_artifacts ;;
    found <- intake this arts ;;
    match found with
    | Some this' => ret this'
    | None => shoot this
    end
  else shoot this.

(** The movement block of [update] (lines 92-103): the key flags build
    [moveVec], which accelerates the robot and turns it. *)
Definition movement (input : gmap string bool) (this : RobotObj.t) : M RobotObj.t :=
  let c := RobotObj.controls this in
  moveVec <- Vector2.new 0 0 ;;
  (if pressed input (key_up c)
   then v <- Vector2.read moveVec ;; Vector2.set_y moveVec (Vec.y v - 1)
   else ret tt) ;;;
  (if pressed input (key_down c)
   then v <- Vector2.read moveVec ;; Vector2.set_y moveVec (Vec.y v + 1)
   else ret tt) ;;;
  (if pressed input (key_left c)
   then v <- Vector2.read moveVec ;; Vector2.set_x moveVec (Vec.x v - 1)
   else ret tt) ;;;
  (if pressed input (key_right c)
   then v <- Vector2.read moveVec ;; Vector2.set_x moveVec (Vec.x v + 1)
   else ret tt) ;;;
  m <- Vector2.mag moveVec ;;
  if decide (0 < m)%R then
    n <- Vector2.normalize moveVec ;;
    Vector2.mult n 0.5 ;;;
    Vector2.add (RobotObj.vel this) moveVec ;;;
    v <- Vector2.read (RobotObj.vel this) ;;
    ret (RobotObj.with_angle this (Math_atan2 (Vec.y v) (Vec.x v)))
  else ret this.

(** [update] (lines 91-119): movement, then friction, bounds and the
    action. *)
Definition update (input : gmap string bool) (this : RobotObj.t) : M RobotObj.t :=
  let c := RobotObj.controls this in
  this <- movement input this ;;
  Vector2.mult (RobotObj.vel this) 0.92 ;;;
  Vector2.add (RobotObj.pos this) (RobotObj.vel this) ;;;
  p <- Vector2.read (RobotObj.pos this) ;;
  Vector2.set_x (RobotObj.pos this)
    (Rmax ROBOT_SIZE (Rmin (FIELD_WIDTH - ROBOT_SIZE) (Vec.x p))) ;;;
  p <- Vector2.read (RobotObj.pos this) ;;
  Vector2.set_y (RobotObj.pos this)
    (Rmax ROBOT_SIZE (Rmin (FIELD_HEIGHT - ROBOT_SIZE) (Vec.y p))) ;;;
  this <- (if pressed input (key_action c) && (RobotObj.cooldown this <=? 0)%Z then
             this <- action this ;;
             ret (RobotObj.with_cooldown this 15)
           else ret this) ;;
  ret (if (0 <? RobotObj.cooldown this)%Z
       then RobotObj.with_cooldown this (RobotObj.cooldown this - 1)
       else this).

End Robot.

(** ** Set-up (lines 233-257) *)

(** [new Artifact(Math.random() * (FIELD_WIDTH - 200) + 100,
                  Math.random() * (FIELD_HEIGHT - 200) + 100, type)]
    pushed on [gameState.artifacts]. *)
Definition pushRandomArtifact (type : ArtifactType) : M unit :=
  rx <- Math_random ;;
  ry <- Math_random ;;
  a <- Artifact.new (rx * (FIELD_WIDTH - 200) + 100) (ry * (FIELD_HEIGHT - 200) + 100) type ;;
  arts <- get_artifacts ;;
  set_artifacts (arts ++ [a]).

Definition spawnArtifacts : M unit :=
  set_artifacts [] ;;;
  repeatM 24 (pushRandomArtifact purple) ;;;
  repeatM 12 (pushRandomArtifact green).

Definition types : list ArtifactType := [purple; green].

(** [types[Math.floor(Math.random() * 2)]] *)
Definition randomType : M (option ArtifactType) :=
  r <- Math_random ;;
  ret (index types (Math_floor (r * 2))).

Definition generatePattern : M unit :=
  t0 <- randomType ;;
  t1 <- randomType ;;
  t2 <- randomType ;;
  set_targetPattern [t0; t1; t2].

(** ** Scoring (lines 364-421) *)

Definition toUpperCase (team : Team) : string :=
  match team with red => "RED" | blue => "BLUE" end.

(** [history[i] !== target[i]] *)
Definition differs (history : list ArtifactType)
  (target : list (option ArtifactType)) (i : nat) : bool :=
  bool_decide (history !! i ≠ mjoin (target !! i)).

(** The loop of lines 391-394: [match] starts true and every index in
    0, 1, 2 at which the entries differ sets it to false. *)
Definition patternMatched (history : list ArtifactType)
  (target : list (option ArtifactType)) : bool :=
  fold_left (fun m i => if differs history target i then false else m)
    (seq 0 3) true.

(** [gameState[team + 'History']] *)
Definition get_history (team : Team) : M (list ArtifactType) :=
  match team with red => get_redHistory | blue => get_blueHistory end.

Definition checkPattern (team : Team) : M unit :=
  history <- get_history team ;;
  target <- get_targetPattern ;;
  if (length history <? 3)%nat then ret tt
  else
    if patternMatched history target then
      let bonus := 20%Z in
      match team with
      | red =>
          s <- get_redScore ;; set_redScore (s + bonus) ;;;
          s <- get_redScore ;; set_redScoreText s
      | _ =>
          s <- get_blueScore ;; set_blueScore (s + bonus) ;;;
          s <- get_blueScore ;; set_blueScoreText s
      end ;;;
      set_gameMessage (toUpperCase team +:+ " MATCHED PATTERN (+30)!") ;;;
      set_gameMessageHidden false ;;;
      modify (fun w => w_dom (d_hideTimeouts (S (hideTimeouts (dom w))) (dom w)) w) ;;;
      generatePattern ;;;
      set_redHistory [] ;;;
      set_blueHistory []
    else ret tt.

Definition scoreArtifact (team : Team) (artifact : aref) : M unit :=
  Artifact.set_scored artifact true ;;;
  o <- Artifact.read artifact ;;
  p <- Vector2.read (ArtifactObj.pos o) ;;
  spawnParticles (Vec.x p) (Vec.y p)
    (match team with red => COLORS_red | _ => COLORS_blue end) 20 ;;;
  o <- Artifact.read artifact ;;
  let points := match ArtifactObj.type o with purple => 5%Z | _ => 10%Z end in
  match team with
  | red =>
    s <- get_redScore ;; set_redScore (s + points) ;;;
    s <- get_redScore ;; set_redScoreText s ;;;
    h <- get_redHistory ;; set_redHistory (h ++ [ArtifactObj.type o]) ;;;
    h <- get_redHistory ;;
    (if (3 <? length h)%nat then set_redHistory (tail h) else ret tt) ;;;
    checkPattern red
  | _ =>
    s <- get_blueScore ;; set_blueScore (s + points) ;;;
    s <- get_blueScore ;; set_blueScoreText s ;;;
    h <- get_blueHistory ;; set_blueHistory (h ++ [ArtifactObj.type o]) ;;;
    h <- get_blueHistory ;;
    (if (3 <? length h)%nat then set_blueHistory (tail h) else ret tt) ;;;
    checkPattern blue
  end.

(** ** Match life cycle (lines 485-513) *)

(** The assignment [gameState.robots[i].f = v] as an update of the robot
    record; it throws a [TypeError] when [gameState.robots[i]] is
    [undefined]. *)
Definition updateRobot (i : nat) (f : RobotObj.t -> RobotObj.t) : M unit :=
  rs <- get_robots ;;
  match rs !! i with
  | Some r => set_robots (<[i := f r]> rs)
  | None => throw (TypeError "gameState.robots[i] is undefined")
  end.

Definition startGame (now : Z) : M unit :=
  set_running true ;;;
  set_timeLeft 120 ;;;
  set_lastTime now ;;;
  set_redScore 0 ;;;
  set_blueScore 0 ;;;
  set_gameMessageHidden true ;;;
  spawnArtifacts ;;;
  generatePattern ;;;
  p <- Vector2.new 100 (FIELD_HEIGHT / 2) ;;
  updateRobot 0 (fun r => RobotObj.with_pos r p) ;;;
  updateRobot 0 (fun r => RobotObj.with_inventory r []) ;;;
  p <- Vector2.new (FIELD_WIDTH - 100) (FIELD_HEIGHT / 2) ;;
  updateRobot 1 (fun r => RobotObj.with_pos r p) ;;;
  updateRobot 1 (fun r => RobotObj.with_inventory r []) ;;;
  set_redHistory [] ;;;
  set_blueHistory [] ;;;
  set_redScoreText 0 ;;;
  set_blueScoreText 0.

Definition endGame : M unit :=
  set_running false ;;;
  red_ <- get_redScore ;;
  blue_ <- get_blueScore ;;
  let winner : string :=
    if (blue_ <? red_)%Z then "RED WINS"
    else if (red_ <? blue_)%Z then "BLUE WINS"
    else "TIE" in
  set_gameMessage (winner +:+ " - PRESS SPACE TO RESTART") ;;;
  set_gameMessageHidden false.

(** ** The frame function (lines 293-362) *)

(** The identifiers that the script declares at top level and the host
    objects it uses.  Reading any other identifier throws a
    [ReferenceError]. *)
Definition declared : list string :=
  [ "canvas"; "ctx"; "FIELD_WIDTH"; "FIELD_HEIGHT"; "ROBOT_SIZE";
    "ARTIFACT_RADIUS"; "GOAL_SIZE"; "MAX_INVENTORY"; "COLORS"; "gameState";
    "Vector2"; "Particle"; "Robot"; "Artifact"; "input"; "spawnArtifacts";
    "generatePattern"; "updatePatternUI"; "updateInventoryUI";
    "spawnParticles"; "update"; "scoreArtifact"; "checkPattern"; "draw";
    "startGame"; "endGame"; "resize";
    "document"; "window"; "Math"; "Date"; "requestAnimationFrame";
    "setTimeout" ].

Definition identifier (name : string) : M string :=
  if bool_decide (name ∈ declared) then ret name
  else throw (ReferenceError name).

(** The number held by the property [prop] of the global object [obj];
    [None] is [undefined]. *)
Definition numberProperty (obj prop : string) : M (option Z) :=
  if bool_decide (obj = "gameState") then
    if bool_decide (prop = "timeLeft") then t <- get_timeLeft ;; ret (Some t)
    else if bool_decide (prop = "lastTime") then t <- get_lastTime ;; ret (Some t)
    else if bool_decide (prop = "redScore") then t <- get_redScore ;; ret (Some t)
    else if bool_decide (prop = "blueScore") then t <- get_blueScore ;; ret (Some t)
    else ret None
  else ret None.

(** The push of a robot on an artifact (lines 337-342). *)
Definition push (a : aref) (r : RobotObj.t) : M unit :=
  o <- Artifact.read a ;;
  d <- Vector2.dist (RobotObj.pos r) (ArtifactObj.pos o) ;;
  if bool_decide (d < ROBOT_SIZE / 2 + ARTIFACT_RADIUS)%R then
    c <- Vector2.copy (ArtifactObj.pos o) ;;
    s <- Vector2.sub c (RobotObj.pos r) ;;
    pushDir <- Vector2.normalize s ;;
    o <- Artifact.read a ;;
    m <- Vector2.mult pushDir 2 ;;
    Vector2.add (ArtifactObj.vel o) m ;;;
    ret tt
  else ret tt.

(** The callback of [gameState.artifacts.forEach] (lines 332-353). *)
Definition artifactStep (redGoalPos blueGoalPos : vref) (a : aref) : M unit :=
  o <- Artifact.read a ;;
  if negb (ArtifactObj.held o) && negb (ArtifactObj.scored o) then
    Artifact.update a ;;;
    rs <- get_robots ;;
    forEach rs (push a) ;;;
    o <- Artifact.read a ;;
    d <- Vector2.dist (ArtifactObj.pos o) redGoalPos ;;
    if bool_decide (d < GOAL_SIZE)%R && negb (ArtifactObj.scored o) then
      scoreArtifact red a
    else
      d <- Vector2.dist (ArtifactObj.pos o) blueGoalPos ;;
      if bool_decide (d < GOAL_SIZE)%R && negb (ArtifactObj.scored o) then
        scoreArtifact blue a
      else ret tt
  else ret tt.

(** The particle loop (lines 355-359), from index [i - 1] down to 0. *)
Fixpoint particleLoop (i : nat) : M unit :=
  match i with
  | O => ret tt
  | S j =>
      ps <- get_particles ;;
      match ps !! j with
      | Some p =>
          p <- Particle.update p ;;
          ps <- get_particles ;;
          (if (ParticleObj.life p <=? 0)%Z
           then set_particles (delete j ps)
           else set_particles (<[j := p]> ps)) ;;;
          particleLoop j
      | None => throw (TypeError "p is undefined")
      end
  end.

(** The clock block (lines 300-315).  The source never closes the block
    that line 302 opens; its indentation ends that block after the second
    loop, and the model follows the indentation.  The condition of line
    302 reads the identifier [gamestate], which nothing declares, so a
    tick stops there whichever line is taken to close the block.  The two
    reads of [Date.now()] in a frame (lines 300 and 309) are one instant
    [now]. *)
Definition clock (now : Z) : M unit :=
  last <- get_lastTime ;;
  if (1000 <=? now - last)%Z then
    t <- get_timeLeft ;; set_timeLeft (t - 1) ;;;
    obj <- identifier "gamestate" ;;
    v <- numberProperty obj "timeleft" ;;
    (if bool_decide (v = Some 60000%Z) then
       repeatM 24 (pushRandomArtifact purple) ;;;
       repeatM 12 (pushRandomArtifact green)
     else ret tt) ;;;
    set_lastTime now ;;;
    t <- get_timeLeft ;;
    set_timerText ((t / 60)%Z, Z.rem t 60) ;;;
    t <- get_timeLeft ;;
    if (t <=? 0)%Z then endGame else ret tt
  else ret tt.

(** [update()], run by every animation frame with the current
    [Date.now()] and key map. *)
Definition update (now : Z) (input : gmap string bool) : M unit :=
  r <- get_running ;;
  if negb r then
    if pressed input "Space" then startGame now else ret tt
  else
    clock now ;;;
    rs <- get_robots ;;
    rs <- mapM (Robot.update input) rs ;;
    set_robots rs ;;;
    redGoalPos <- Vector2.new 50 (FIELD_HEIGHT / 2) ;;
    blueGoalPos <- Vector2.new (FIELD_WIDTH - 50) (FIELD_HEIGHT / 2) ;;
    arts <- get_artifacts ;;
    forEach arts (artifactStep redGoalPos blueGoalPos) ;;;
    ps <- get_particles ;;
    particleLoop (length ps).

(** ** The script's top level (lines 24-36 and 233-235) *)

Definition redControls : Controls :=
  mkControls "KeyW" "KeyS" "KeyA" "KeyD" "KeyF".
Definition blueControls : Controls :=
  mkControls "ArrowUp" "ArrowDown" "ArrowLeft" "ArrowRight" "KeyM".

(** The world before the first statement runs: the [gameState] literal,
    empty object stores, the DOM of the page and the random source of the
    host. *)
Definition blankArtifact : ArtifactObj.t :=
  ArtifactObj.mk 0 0 purple false None false.

Definition emptyWorld (page : Dom) (source : nat -> Unit01) : World :=
  mkWorld (mkGameState false 120 0 [] [] [] [] 0 0 [] [])
    (fun _ => Vec.mk 0 0) 0 (fun _ => blankArtifact) 0 page source 0.

Definition boot : M unit :=
  r <- Robot.new red 100 (FIELD_HEIGHT / 2) COLORS_red redControls ;;
  rs <- get_robots ;; set_robots (rs ++ [r]) ;;;
  b <- Robot.new blue (FIELD_WIDTH - 100) (FIELD_HEIGHT / 2) COLORS_blue blueControls ;;
  rs <- get_robots ;; set_robots (rs ++ [b]).

Definition initialWorld (page : Dom) (source : nat -> Unit01) : World :=
  exec boot (emptyWorld page source).

(** The callback that [checkPattern] hands to [setTimeout] (lines
    411-413). *)
Definition hideMessage : M unit :=
  modify (fun w => w_dom (d_hideTimeouts (pred (hideTimeouts (dom w))) (dom w)) w) ;;;
  r <- get_running ;;
  if r then set_gameMessageHidden true else ret tt.

(** The worlds of a run.  The host calls back between frames: an animation
    frame runs [update] with the clock value and key map of that moment,
    and a due timer runs [hideMessage].  In the browser a frame that throws
    is the last one, since [draw], which requests the next frame, is
    skipped; the relation keeps the worlds after such a frame as well, so
    what holds of every reachable world holds of every world of a run. *)
Inductive reachable (page : Dom) (source : nat -> Unit01) : World -> Prop :=
| reach_boot : reachable page source (initialWorld page source)
| reach_frame w now input :
    reachable page source w ->
    reachable page source (exec (update now input) w)
| reach_timer w :
    reachable page source w ->
    (0 < hideTimeouts (dom w))%nat ->
    reachable page source (exec hideMessage w).


(** ** Vocabulary of the properties *)

Definition historyOf (team : Team) (g : GameState) : list ArtifactType :=
  match team with red => redHistory g | blue => blueHistory g end.

Definition scoreOf (team : Team) (g : GameState) : Z :=
  match team with red => redScore g | blue => blueScore g end.

Definition opponent (team : Team) : Team :=
  match team with red => blue | blue => red end.

(** The points of an artifact type (line 368). *)
Definition pointsOf (type : ArtifactType) : Z :=
  match type with purple => 5%Z | green => 10%Z end.

(** The history after the push and the conditional shift of lines
    373-374. *)
Definition pushCapped (h : list ArtifactType) (type : ArtifactType)
  : list ArtifactType :=
  if (3 <? length (h ++ [type]))%nat then tail (h ++ [type]) else h ++ [type].

(** The three states of an artifact. *)
Definition isFree (o : ArtifactObj.t) : bool :=
  negb (ArtifactObj.held o) && negb (ArtifactObj.scored o).


(** The distance that [Vector2.dist] computes between two stored
    vectors. *)
Definition distance (w : World) (p q : vref) : R :=
  sqrt ((Vec.x (vectors w p) - Vec.x (vectors w q)) ^ 2
        + (Vec.y (vectors w p) - Vec.y (vectors w q)) ^ 2).

(** The magnitude of a vector. *)
Definition magnitude (v : Vec.t) : R :=
  sqrt (Vec.x v * Vec.x v + Vec.y v * Vec.y v).

(** Weakest preconditions: [wp m w Q] says that [Q] holds of the outcome
    of [m] run in [w]. *)
Definition wp {A} (m : M A) (w : World) (Q : Result A -> World -> Prop) : Prop :=
  Q (m w).1 (m w).2.

(** [sparks w w']: [w'] is [w] after particles were spawned: new particles,
    new vectors, further random draws, and nothing else. *)
Definition sparks (w w' : World) : Prop :=
  exists ps vs n rc,
    w' = mkWorld (g_particles ps (gameState w)) vs n (artifactObjs w) (anext w)
           (dom w) (randomSource w) rc /\
    (vnext w <= n)%nat /\
    (forall r, (r < vnext w)%nat -> vs r = vectors w r).

(** [drift w w']: [w'] is [w] after physics ran: other vectors, other
    particles, further random draws, and nothing else. *)
Definition drift (w w' : World) : Prop :=
  exists ps vs n rc,
    w' = mkWorld (g_particles ps (gameState w)) vs n (artifactObjs w) (anext w)
           (dom w) (randomSource w) rc /\
    (vnext w <= n)%nat.

(** [acts own w w']: [w'] is [w] after a robot moved and acted.  Of the
    vectors allocated in [w] only those listed in [own] may have changed;
    artifacts keep their [scored] flag, and [held] is only set on an
    artifact that is not scored. *)
Definition acts (own : list vref) (w w' : World) : Prop :=
  exists ps vs n ao rc,
    w' = mkWorld (g_particles ps (gameState w)) vs n ao (anext w)
           (dom w) (randomSource w) rc /\
    (vnext w <= n)%nat /\
    (forall r, (r < vnext w)%nat -> r ∉ own -> vs r = vectors w r) /\
    (forall a,
        ArtifactObj.scored (ao a) = ArtifactObj.scored (artifactObjs w a) /\
        (ArtifactObj.held (ao a) = true ->
         ArtifactObj.held (artifactObjs w a) = true \/
         ArtifactObj.scored (artifactObjs w a) = false)).

(** An artifact as [pushRandomArtifact] creates it: free, at rest, inside
    the spawn area, on two vectors allocated from [base] on. *)
Definition freshArtifact (base n : vref) (vs : vref -> Vec.t)
  (type : ArtifactType) (o : ArtifactObj.t) : Prop :=
  ArtifactObj.type o = type /\
  ArtifactObj.held o = false /\
  ArtifactObj.holder o = None /\
  ArtifactObj.scored o = false /\
  (base <= ArtifactObj.pos o < n)%nat /\
  (base <= ArtifactObj.vel o < n)%nat /\
  vs (ArtifactObj.vel o) = Vec.mk 0 0 /\
  (100 <= Vec.x (vs (ArtifactObj.pos o)) < FIELD_WIDTH - 100)%R /\
  (100 <= Vec.y (vs (ArtifactObj.pos o)) < FIELD_HEIGHT - 100)%R.

(** [spawned types w w']: [w'] is [w] after one new artifact per entry of
    [types] was pushed on [gameState.artifacts]. *)
Definition spawned (types : list ArtifactType) (w w' : World) : Prop :=
  exists vs n ao rc,
    w' = mkWorld
           (g_artifacts (artifacts (gameState w) ++ seq (anext w) (length types))
              (gameState w))
           vs n ao (length types + anext w) (dom w) (randomSource w) rc /\
    (vnext w <= n)%nat /\
    (forall r, (r < vnext w)%nat -> vs r = vectors w r) /\
    (forall a, (a < anext w)%nat -> ao a = artifactObjs w a) /\
    (forall i type, types !! i = Some type ->
                    freshArtifact (vnext w) n vs type (ao (i + anext w))).

(** The well-formedness of a robot in a world: at most [MAX_INVENTORY]
    artifacts held, and two distinct allocated vectors for position and
    velocity. *)
Definition robotOk (w : World) (r : RobotObj.t) : Prop :=
  (length (RobotObj.inventory r) <= MAX_INVENTORY)%nat /\
  (RobotObj.pos r < vnext w)%nat /\
  (RobotObj.vel r < vnext w)%nat /\
  RobotObj.pos r <> RobotObj.vel r.

(** What every world of a run satisfies. *)
Record Safe (w : World) : Prop := mkSafe {
  safe_two : length (robots (gameState w)) = 2%nat;
  safe_flags : forall a, (a < anext w)%nat ->
    ArtifactObj.held (artifactObjs w a) && ArtifactObj.scored (artifactObjs w a) = false;
  safe_robots : Forall (robotOk w) (robots (gameState w));
  safe_red : (length (redHistory (gameState w)) <= 3)%nat;
  safe_blue : (length (blueHistory (gameState w)) <= 3)%nat
}.

(** [scoredKept w w']: the artifacts allocated and scored in [w] are still
    scored in [w']. *)
Definition scoredKept (w w' : World) : Prop :=
  (anext w <= anext w')%nat /\
  forall a, (a < anext w)%nat ->
    ArtifactObj.scored (artifactObjs w a) = true ->
    ArtifactObj.scored (artifactObjs w' a) = true.

(** The match clock: the three fields that only [startGame], [endGame]
    and the clock block of [update] assign. *)
Definition sameClock (w w' : World) : Prop :=
  running (gameState w') = running (gameState w) /\
  timeLeft (gameState w') = timeLeft (gameState w) /\
  lastTime (gameState w') = lastTime (gameState w).

(** [evolves w w']: what a step of a running match that is not an
    assignment to [gameState.robots] or [gameState.artifacts] does to the
    parts of the world that the invariants read. *)
Definition evolves (w w' : World) : Prop :=
  robots (gameState w') = robots (gameState w) /\
  artifacts (gameState w') = artifacts (gameState w) /\
  anext w' = anext w /\
  (vnext w <= vnext w')%nat /\
  (forall a, ArtifactObj.scored (artifactObjs w a) = true ->
             ArtifactObj.scored (artifactObjs w' a) = true) /\
  (forall a, ArtifactObj.held (artifactObjs w a)
             && ArtifactObj.scored (artifactObjs w a) = false ->
             ArtifactObj.held (artifactObjs w' a)
             && ArtifactObj.scored (artifactObjs w' a) = false) /\
  ((length (redHistory (gameState w)) <= 3)%nat ->
   (length (redHistory (gameState w')) <= 3)%nat) /\
  ((length (blueHistory (gameState w)) <= 3)%nat ->
   (length (blueHistory (gameState w')) <= 3)%nat) /\
  sameClock w w'.

(** [ticked now w w']: what a frame of a running match run at [now] does
    to the match clock. *)
Definition ticked (now : Z) (w w' : World) : Prop :=
  running (gameState w') = true /\
  lastTime (gameState w') = lastTime (gameState w) /\
  timeLeft (gameState w')
  = (if (1000 <=? now - lastTime (gameState w))%Z
     then timeLeft (gameState w) - 1 else timeLeft (gameState w))%Z.

(** The 24 purple and 12 green artifacts of a wave. *)
Definition waveTypes : list ArtifactType :=
  replicate 24 purple ++ replicate 12 green.

(** Sample values for the examples: a random source that always returns
    0, a page, and the world after start-up. *)
Definition zero01 : Unit01 := mkUnit01 0 (conj (Rle_refl 0) Rlt_0_1).
Definition zeros : nat -> Unit01 := fun _ => zero01.
Definition samplePage : Dom := mkDom 0 0 (2, 0)%Z "" true 0.
Definition sampleWorld : World := initialWorld samplePage zeros.

(** A running match in which red has scored a purple and a green artifact
    while the target pattern is purple, green, purple, and in which the
    purple artifact 0 lies free in the red goal. *)
Definition scoringWorld : World :=
  mkWorld
    (mkGameState true 100 0 (robots (gameState sampleWorld)) [0%nat] []
       [Some purple; Some green; Some purple] 15 0 [purple; green] [])
    (store_set (store_set (vectors sampleWorld) 4 (Vec.mk 60 700)) 5 (Vec.mk 0 0))
    6
    (store_set (artifactObjs sampleWorld) 0
       (ArtifactObj.mk 4 5 purple false None false))
    1 samplePage zeros 0.

(** The world after start-up when a frame sees the space key at time 0:
    the first match has just started. *)
Definition spaceKey : gmap string bool := {[ "Space" := true ]}.
Definition startedWorld : World := exec (update 0 spaceKey) sampleWorld.


(** A running match in which the red robot, heading along the x axis at
    rest, holds the purple artifact 0 and the blue robot holds nothing. *)
Definition sampleRed : RobotObj.t :=
  RobotObj.mk red 0 1 0 COLORS_red redControls [0%nat] 0 5.
Definition sampleBlue : RobotObj.t :=
  RobotObj.mk blue 2 3 PI COLORS_blue blueControls [] 0 5.
Definition holdingWorld : World :=
  mkWorld
    (mkGameState true 100 0 [sampleRed; sampleBlue] [0%nat] []
       [Some purple; Some green; Some purple] 0 0 [] [])
    (store_set (store_set (vectors sampleWorld) 4 (Vec.mk 60 700)) 5 (Vec.mk 0 0))
    6
    (store_set (artifactObjs sampleWorld) 0
       (ArtifactObj.mk 4 5 purple true (Some red) false))
    1 samplePage zeros 0.

(** The same match when red's history is [h]. *)
Definition historyWorld (h : list ArtifactType) : World :=
  w_gameState (g_redHistory h (gameState scoringWorld)) scoringWorld.

(** * Vocabulary of the further properties *)

(** ** Particles *)

(** The velocity that the [Particle] constructor computes (line 58) from
    the two random draws [rx] and [ry]. *)
Definition burstVelocity (rx ry speed : R) : Vec.t :=
  let d := Vec.mk (rx - 0.5) (ry - 0.5) in
  if decide (0 < magnitude d)%R
  then Vec.mk (Vec.x d * (1 / magnitude d) * speed) (Vec.y d * (1 / magnitude d) * speed)
  else Vec.mk (Vec.x d * speed) (Vec.y d * speed).

(** [burst x y c k w w']: [w'] is [w] after [spawnParticles x y c k]. *)
Definition burst (x y : R) (c : string) (k : nat) (w w' : World) : Prop :=
  exists ps vs,
    w' = mkWorld (g_particles (particles (gameState w) ++ ps) (gameState w)) vs
           (k + k + vnext w) (artifactObjs w) (anext w) (dom w) (randomSource w)
           (k + k + randomCount w) /\
    length ps = k /\
    (forall r, (r < vnext w)%nat -> vs r = vectors w r) /\
    forall i p, ps !! i = Some p ->
      p = ParticleObj.mk (i + i + vnext w) (S (i + i + vnext w)) c 30 30 /\
      vs (i + i + vnext w)%nat = Vec.mk x y /\
      vs (S (i + i + vnext w)) =
        burstVelocity (randomSource w (i + i + randomCount w))
                      (randomSource w (S (i + i + randomCount w))) 4.

(** A particle one frame older (line 65). *)
Definition aged (p : ParticleObj.t) : ParticleObj.t :=
  ParticleObj.mk (ParticleObj.pos p) (ParticleObj.vel p) (ParticleObj.color p)
    (ParticleObj.life p - 1) (ParticleObj.maxLife p).

(** The particles that the particle loop keeps. *)
Definition survivors (ps : list ParticleObj.t) : list ParticleObj.t :=
  filter (fun p => (0 < ParticleObj.life p)%Z) (map aged ps).

(** The vectors that the particles of a list refer to. *)
Definition particleRefs (ps : list ParticleObj.t) : list vref :=
  flat_map (fun p => [ParticleObj.pos p; ParticleObj.vel p]) ps.

(** ** Artifacts *)

(** The wall test of lines 208-209 on one coordinate. *)
Definition beyondWall (limit c : R) : bool :=
  bool_decide (c < ARTIFACT_RADIUS)%R || bool_decide (limit - ARTIFACT_RADIUS < c)%R.

(** The velocity of a free artifact after [Artifact.update], given its
    position after the move and its velocity before. *)
Definition bounce (p v : Vec.t) : Vec.t :=
  Vec.mk (if beyondWall FIELD_WIDTH (Vec.x p) then Vec.x v * 0.98 * -1 else Vec.x v * 0.98)
         (if beyondWall FIELD_HEIGHT (Vec.y p) then Vec.y v * 0.98 * -1 else Vec.y v * 0.98).

(** The condition under which an artifact beyond the left wall stays
    there: it is heading out and ends its next two moves beyond the wall,
    or it is heading in and its next move ends beyond the wall. *)
Definition trappedLeft (x vx : R) : Prop :=
  (vx < 0 /\ x + 0.02 * vx < ARTIFACT_RADIUS)%R \/
  (0 < vx /\ x + vx < ARTIFACT_RADIUS)%R.

(** ** Robots *)

(** The vector that the four direction keys build (lines 93-97). *)
Definition thrust (input : gmap string bool) (c : Controls) : Vec.t :=
  let y1 := if pressed input (key_up c) then (0 - 1)%R else 0%R in
  let y2 := if pressed input (key_down c) then (y1 + 1)%R else y1 in
  let x1 := if pressed input (key_left c) then (0 - 1)%R else 0%R in
  let x2 := if pressed input (key_right c) then (x1 + 1)%R else x1 in
  Vec.mk x2 y2.

(** The velocity after the movement block (lines 99-103): the thrust,
    normalised and scaled by 0.5, is added when it is not zero. *)
Definition accelerated (t v : Vec.t) : Vec.t :=
  if decide (0 < magnitude t)%R
  then Vec.mk (Vec.x v + Vec.x t * (1 / magnitude t) * 0.5)
              (Vec.y v + Vec.y t * (1 / magnitude t) * 0.5)
  else v.

(** The clamp of lines 110-111. *)
Definition clamp (limit c : R) : R :=
  Rmax ROBOT_SIZE (Rmin (limit - ROBOT_SIZE) c).

(** The robot as the movement block leaves it. *)
Definition steered (input : gmap string bool) (this : RobotObj.t) (v : Vec.t)
  : RobotObj.t :=
  let t := thrust input (RobotObj.controls this) in
  if decide (0 < magnitude t)%R
  then RobotObj.with_angle this
         (Math_atan2 (Vec.y (accelerated t v)) (Vec.x (accelerated t v)))
  else this.

(** Whether [update] calls [action] (line 114). *)
Definition fires (input : gmap string bool) (this : RobotObj.t) : bool :=
  pressed input (key_action (RobotObj.controls this))
  && (RobotObj.cooldown this <=? 0)%Z.

(** The robot after line 118. *)
Definition cooled (this : RobotObj.t) : RobotObj.t :=
  if (0 <? RobotObj.cooldown this)%Z
  then RobotObj.with_cooldown this (RobotObj.cooldown this - 1)
  else this.

(** The unit vector of a heading angle, scaled by [k]. *)
Definition heading (angle k : R) : Vec.t := Vec.mk (cos angle * k) (sin angle * k).

(** [shot this a w w']: [w'] is [w] after the robot [this] released the
    artifact [a] (lines 139-148). *)
Definition shot (this : RobotObj.t) (a : aref) (w w' : World) : Prop :=
  exists ps vs n ao rc,
    w' = mkWorld (g_particles (particles (gameState w) ++ ps) (gameState w)) vs n ao
           (anext w) (dom w) (randomSource w) rc /\
    (vnext w <= n)%nat /\
    (forall k, (k < vnext w)%nat -> k <> RobotObj.vel this -> vs k = vectors w k) /\
    vs (RobotObj.vel this)
    = Vec.mk (Vec.x (vectors w (RobotObj.vel this)) - Vec.x (heading (RobotObj.angle this) 15) * 0.2)
             (Vec.y (vectors w (RobotObj.vel this)) - Vec.y (heading (RobotObj.angle this) 15) * 0.2) /\
    (forall b, b <> a -> ao b = artifactObjs w b) /\
    ArtifactObj.type (ao a) = ArtifactObj.type (artifactObjs w a) /\
    ArtifactObj.scored (ao a) = ArtifactObj.scored (artifactObjs w a) /\
    ArtifactObj.held (ao a) = false /\
    ArtifactObj.holder (ao a) = None /\
    (vnext w <= ArtifactObj.pos (ao a) < n)%nat /\
    (vnext w <= ArtifactObj.vel (ao a) < n)%nat /\
    ArtifactObj.pos (ao a) <> ArtifactObj.vel (ao a) /\
    vs (ArtifactObj.pos (ao a))
    = Vec.mk (Vec.x (vectors w (RobotObj.pos this))
              + Vec.x (heading (RobotObj.angle this) (ROBOT_SIZE + 10)))
             (Vec.y (vectors w (RobotObj.pos this))
              + Vec.y (heading (RobotObj.angle this) (ROBOT_SIZE + 10))) /\
    vs (ArtifactObj.vel (ao a)) = heading (RobotObj.angle this) 15 /\
    length ps = 5%nat /\
    Forall (fun p => ParticleObj.color p = "#fff"
                     /\ ParticleObj.life p = 30%Z /\ ParticleObj.maxLife p = 30%Z
                     /\ vs (ParticleObj.pos p) = vs (ArtifactObj.pos (ao a))) ps.

(** The test of line 126: the artifact is free and within reach. *)
Definition capturable (w : World) (this : RobotObj.t) (a : aref) : Prop :=
  isFree (artifactObjs w a) = true /\
  (distance w (RobotObj.pos this) (ArtifactObj.pos (artifactObjs w a)) < ROBOT_SIZE + 20)%R.

(** The artifact object after lines 127-128. *)
Definition heldBy (team : Team) (o : ArtifactObj.t) : ArtifactObj.t :=
  ArtifactObj.with_holder (ArtifactObj.with_held o true) (Some team).

(** ** Pattern *)

(** The type that [generatePattern] picks for a random draw [r] (lines
    252-254): [types[Math.floor(r * 2)]]. *)
Definition pick (r : R) : ArtifactType :=
  if decide (r < 0.5)%R then purple else green.

(** ** Frames *)

(** A particle as [spawnParticles] makes it. *)
Definition freshParticle (p : ParticleObj.t) : Prop :=
  ParticleObj.life p = 30%Z /\ ParticleObj.maxLife p = 30%Z.

(** The cooldown after [Robot.update] (lines 114-118). *)
Definition nextCooldown (input : gmap string bool) (this : RobotObj.t) : Z :=
  if fires input this then 14%Z
  else if (0 <? RobotObj.cooldown this)%Z then (RobotObj.cooldown this - 1)%Z
       else RobotObj.cooldown this.

(** [robotDid input this this' w w']: [Robot.update input this] run in [w]
    returns [this'] and leaves [w'].  The robot was idle, captured an
    artifact, or released its oldest one. *)
Definition robotDid (input : gmap string bool) (this this' : RobotObj.t)
  (w w' : World) : Prop :=
  exists ps vs n ao rc ang inv',
    w' = mkWorld (g_particles (particles (gameState w) ++ ps) (gameState w)) vs n ao
           (anext w) (dom w) (randomSource w) rc /\
    this' = RobotObj.mk (RobotObj.id this) (RobotObj.pos this) (RobotObj.vel this) ang
              (RobotObj.color this) (RobotObj.controls this) inv'
              (nextCooldown input this) (RobotObj.speed this) /\
    (vnext w <= n)%nat /\
    Forall freshParticle ps /\
    ((inv' = RobotObj.inventory this /\ forall b, ao b = artifactObjs w b) \/
     (exists a,
         inv' = RobotObj.inventory this ++ [a] /\
         (length (RobotObj.inventory this) < MAX_INVENTORY)%nat /\
         a ∈ artifacts (gameState w) /\
         isFree (artifactObjs w a) = true /\
         ao a = heldBy (RobotObj.id this) (artifactObjs w a) /\
         forall b, b <> a -> ao b = artifactObjs w b) \/
     (exists a,
         RobotObj.inventory this = a :: inv' /\
         ArtifactObj.held (ao a) = false /\
         ArtifactObj.holder (ao a) = None /\
         ArtifactObj.scored (ao a) = ArtifactObj.scored (artifactObjs w a) /\
         forall b, b <> a -> ao b = artifactObjs w b)).

(** [moved w w']: [w'] is [w] with other vectors. *)
Definition moved (w w' : World) : Prop :=
  exists vs n, w' = w_vnext n (w_vectors vs w) /\ (vnext w <= n)%nat.

(** A target pattern of three colours. *)
Definition patternOk (t : list (option ArtifactType)) : Prop :=
  length t = 3%nat /\ Forall (fun e => e = Some purple \/ e = Some green) t.

(** [played w w']: what the artifacts loop of a frame (lines 332-353) does
    besides what [evolves] records: robots and the artifact collection stay,
    no artifact changes hands or type, scores grow by multiples of 5,
    particles are only added, and the score texts follow the scores. *)
Definition played (w w' : World) : Prop :=
  robots (gameState w') = robots (gameState w) /\
  artifacts (gameState w') = artifacts (gameState w) /\
  anext w' = anext w /\
  sameClock w w' /\
  (forall a,
      ArtifactObj.held (artifactObjs w' a) = ArtifactObj.held (artifactObjs w a) /\
      ArtifactObj.holder (artifactObjs w' a) = ArtifactObj.holder (artifactObjs w a) /\
      ArtifactObj.type (artifactObjs w' a) = ArtifactObj.type (artifactObjs w a)) /\
  (redScore (gameState w) <= redScore (gameState w') /\
   (5 | redScore (gameState w') - redScore (gameState w)))%Z /\
  (blueScore (gameState w) <= blueScore (gameState w') /\
   (5 | blueScore (gameState w') - blueScore (gameState w)))%Z /\
  (exists ps, particles (gameState w') = particles (gameState w) ++ ps /\
              Forall freshParticle ps) /\
  (patternOk (targetPattern (gameState w)) -> patternOk (targetPattern (gameState w'))) /\
  (redScoreText (dom w) = redScore (gameState w) ->
   redScoreText (dom w') = redScore (gameState w')) /\
  (blueScoreText (dom w) = blueScore (gameState w) ->
   blueScoreText (dom w') = blueScore (gameState w')).

(** [carried w r]: the robot's inventory lists each artifact once, and
    each one is in the artifact collection, held, with the robot as
    holder. *)
Definition carried (w : World) (r : RobotObj.t) : Prop :=
  NoDup (RobotObj.inventory r) /\
  forall a, a ∈ RobotObj.inventory r ->
    a ∈ artifacts (gameState w) /\
    ArtifactObj.held (artifactObjs w a) = true /\
    ArtifactObj.holder (artifactObjs w a) = Some (RobotObj.id r).

(** A particle with between 1 and [cap] frames to live. *)
Definition liveParticle (cap : Z) (p : ParticleObj.t) : Prop :=
  (1 <= ParticleObj.life p <= cap)%Z /\ ParticleObj.maxLife p = 30%Z.

(** What every world of a run satisfies, besides [Safe]. *)
Record Tidy (w : World) : Prop := mkTidy {
  tidy_robots :
    exists r0 r1,
      robots (gameState w) = [r0; r1] /\
      RobotObj.id r0 = red /\ RobotObj.id r1 = blue /\
      RobotObj.controls r0 = redControls /\ RobotObj.controls r1 = blueControls;
  tidy_cooldown :
    Forall (fun r => (0 <= RobotObj.cooldown r <= 14)%Z) (robots (gameState w));
  tidy_carried : Forall (carried w) (robots (gameState w));
  tidy_scores :
    (0 <= redScore (gameState w))%Z /\ (5 | redScore (gameState w))%Z /\
    (0 <= blueScore (gameState w))%Z /\ (5 | blueScore (gameState w))%Z;
  tidy_particles : Forall (liveParticle 29) (particles (gameState w));
  tidy_time : (timeLeft (gameState w) <= 120)%Z;
  tidy_match :
    running (gameState w) = true ->
    patternOk (targetPattern (gameState w)) /\
    (36 <= anext w)%nat /\
    artifacts (gameState w) = seq (anext w - 36) 36 /\
    redScoreText (dom w) = redScore (gameState w) /\
    blueScoreText (dom w) = blueScore (gameState w)
}.

(** What a frame run at [now] in [w] returns, and what it does to the
    scores of a running match. *)
Definition frameOutcome (now : Z) (w : World) (r : Result unit) (w' : World) : Prop :=
  r = (if running (gameState w) && (1000 <=? now - lastTime (gameState w))%Z
       then Throw (ReferenceError "gamestate") else Ok tt) /\
  (running (gameState w) = true ->
   running (gameState w') = true /\
   (redScore (gameState w) <= redScore (gameState w'))%Z /\
   (blueScore (gameState w) <= blueScore (gameState w'))%Z).


(** ** Key listeners and the view of the field *)

(** The key listeners (lines 229-231). *)






(** The view of [draw] (lines 426-428 and 435-436). *)

Module View.

(** [scale], [offsetX] and [offsetY] of a canvas [cw] wide and [ch] high. *)
Definition scale (cw ch : R) : R := Rmin (cw / FIELD_WIDTH) (ch / FIELD_HEIGHT).
Definition offsetX (cw ch : R) : R := (cw - FIELD_WIDTH * scale cw ch) / 2.
Definition offsetY (cw ch : R) : R := (ch - FIELD_HEIGHT * scale cw ch) / 2.

(** The canvas point at which [ctx.translate(offsetX, offsetY)] followed by
    [ctx.scale(scale, scale)] draws the field point [p]. *)
Definition toCanvas (cw ch : R) (p : Vec.t) : Vec.t :=
  Vec.mk (offsetX cw ch + Vec.x p * scale cw ch)
         (offsetY cw ch + Vec.y p * scale cw ch).

End View.

(** ** Further sample matches *)

(** The match of [scoringWorld] when the artifact 0 has crossed the left
    wall at speed 15. *)
Definition strayWorld : World :=
  w_vectors
    (store_set (store_set (vectors scoringWorld) 4 (Vec.mk (-2) 700)) 5 (Vec.mk (-15) 0))
    scoringWorld.

(** The match of [scoringWorld] with the two goal centres that a frame
    allocates. *)
Definition goalWorld : World :=
  w_vnext 8
    (w_vectors
       (store_set
          (store_set (vectors scoringWorld) 6 (Vec.mk 50 (FIELD_HEIGHT / 2)))
          7 (Vec.mk (FIELD_WIDTH - 50) (FIELD_HEIGHT / 2)))
       scoringWorld).

(** The red robot of start-up. *)
Definition idleRed : RobotObj.t :=
  RobotObj.mk red 0 1 0 COLORS_red redControls [] 0 5.

(** * Proofs *)

(** ** Reduction behaviour

    Field updates unfold under [cbn], so that a world is always displayed
    as a record of its fields; the functions of the program unfold only on
    request. *)

#[global] Arguments w_gameState _ _ /.
#[global] Arguments w_vectors _ _ /.
#[global] Arguments w_vnext _ _ /.
#[global] Arguments w_artifactObjs _ _ /.
#[global] Arguments w_anext _ _ /.
#[global] Arguments w_dom _ _ /.
#[global] Arguments w_randomSource _ _ /.
#[global] Arguments w_randomCount _ _ /.
#[global] Arguments g_running _ _ /.
#[global] Arguments g_timeLeft _ _ /.
#[global] Arguments g_lastTime _ _ /.
#[global] Arguments g_robots _ _ /.
#[global] Arguments g_artifacts _ _ /.
#[global] Arguments g_particles _ _ /.
#[global] Arguments g_targetPattern _ _ /.
#[global] Arguments g_redScore _ _ /.
#[global] Arguments g_blueScore _ _ /.
#[global] Arguments g_redHistory _ _ /.
#[global] Arguments g_blueHistory _ _ /.
#[global] Arguments d_redScoreText _ _ /.
#[global] Arguments d_blueScoreText _ _ /.
#[global] Arguments d_timerText _ _ /.
#[global] Arguments d_gameMessage _ _ /.
#[global] Arguments d_gameMessageHidden _ _ /.
#[global] Arguments d_hideTimeouts _ _ /.
#[global] Arguments Vec.with_x _ _ /.
#[global] Arguments Vec.with_y _ _ /.
#[global] Arguments RobotObj.with_pos _ _ /.
#[global] Arguments RobotObj.with_angle _ _ /.
#[global] Arguments RobotObj.with_inventory _ _ /.
#[global] Arguments RobotObj.with_cooldown _ _ /.
#[global] Arguments ArtifactObj.with_pos _ _ /.
#[global] Arguments ArtifactObj.with_vel _ _ /.
#[global] Arguments ArtifactObj.with_held _ _ /.
#[global] Arguments ArtifactObj.with_holder _ _ /.
#[global] Arguments ArtifactObj.with_scored _ _ /.
#[global] Arguments Nat.ltb : simpl never.
#[global] Arguments Nat.leb : simpl never.
#[global] Arguments store_set : simpl never.
#[global] Arguments wp : simpl never.
#[global] Arguments bind : simpl never.
#[global] Arguments ret : simpl never.
#[global] Arguments gets : simpl never.
#[global] Arguments modify : simpl never.
#[global] Arguments throw : simpl never.
#[global] Arguments Math_random : simpl never.
#[global] Arguments repeatM : simpl never.
#[global] Arguments forEach : simpl never.
#[global] Arguments mapM : simpl never.
#[global] Arguments Vector2.new : simpl never.
#[global] Arguments Particle.new : simpl never.
#[global] Arguments Particle.update : simpl never.
#[global] Arguments spawnParticles : simpl never.
#[global] Arguments Artifact.new : simpl never.
#[global] Arguments Artifact.update : simpl never.
#[global] Arguments Robot.new : simpl never.
#[global] Arguments Robot.intake : simpl never.
#[global] Arguments Robot.shoot : simpl never.
#[global] Arguments Robot.action : simpl never.
#[global] Arguments Robot.movement : simpl never.
#[global] Arguments Robot.update : simpl never.
#[global] Arguments pushRandomArtifact : simpl never.
#[global] Arguments spawnArtifacts : simpl never.
#[global] Arguments randomType : simpl never.
#[global] Arguments generatePattern : simpl never.
#[global] Arguments get_history : simpl never.
#[global] Arguments checkPattern : simpl never.
#[global] Arguments scoreArtifact : simpl never.
#[global] Arguments updateRobot : simpl never.
#[global] Arguments startGame : simpl never.
#[global] Arguments endGame : simpl never.
#[global] Arguments identifier : simpl never.
#[global] Arguments numberProperty : simpl never.
#[global] Arguments push : simpl never.
#[global] Arguments artifactStep : simpl never.
#[global] Arguments particleLoop : simpl never.
#[global] Arguments clock : simpl never.
#[global] Arguments update : simpl never.
#[global] Arguments boot : simpl never.
#[global] Arguments hideMessage : simpl never.
#[global] Arguments patternMatched : simpl never.
#[global] Arguments pressed : simpl never.
#[global] Arguments exec : simpl never.
#[global] Arguments result : simpl never.
#[global] Arguments initialWorld : simpl never.
#[global] Arguments sampleWorld : simpl never.
#[global] Arguments startedWorld : simpl never.
#[global] Arguments index : simpl never.
#[global] Arguments Math_floor : simpl never.
#[global] Arguments Math_atan2 : simpl never.

(** ** Symbolic execution *)

Lemma wp_bind {A B} (m : M A) (k : A -> M B) w Q :
  wp m w (fun r w' => match r with
                      | Ok a => wp (k a) w' Q
                      | Throw e => Q (Throw e) w'
                      end) ->
  wp (bind m k) w Q.
Proof. unfold wp, bind. destruct (m w) as [[a|e] w']; auto. Qed.

Lemma wp_ret {A} (a : A) w Q : Q (Ok a) w -> wp (ret a) w Q.
Proof. auto. Qed.

Lemma wp_throw {A} e w (Q : Result A -> World -> Prop) :
  Q (Throw e) w -> wp (throw e) w Q.
Proof. auto. Qed.

Lemma wp_gets {A} (f : World -> A) w Q : Q (Ok (f w)) w -> wp (gets f) w Q.
Proof. auto. Qed.

Lemma wp_modify f w Q : Q (Ok tt) (f w) -> wp (modify f) w Q.
Proof. auto. Qed.

Lemma wp_new x y w Q :
  Q (Ok (vnext w))
    (w_vnext (S (vnext w))
       (w_vectors (store_set (vectors w) (vnext w) (Vec.mk x y)) w)) ->
  wp (Vector2.new x y) w Q.
Proof. auto. Qed.

Lemma wp_random w Q :
  Q (Ok (u01 (randomSource w (randomCount w))))
    (w_randomCount (S (randomCount w)) w) ->
  wp Math_random w Q.
Proof. auto. Qed.

Lemma wp_mono {A} (m : M A) w (Q Q' : Result A -> World -> Prop) :
  wp m w Q -> (forall r w', Q r w' -> Q' r w') -> wp m w Q'.
Proof. unfold wp. auto. Qed.

Lemma wp_run {A} (m : M A) w Q : wp m w Q -> Q (result m w) (exec m w).
Proof. auto. Qed.

Lemma wp_of_eq {A} (m : M A) w r w' (Q : Result A -> World -> Prop) :
  m w = (r, w') -> Q r w' -> wp m w Q.
Proof. unfold wp. intros ->. auto. Qed.

Lemma wp_eq {A} (m : M A) w r w' :
  wp m w (fun r0 w0 => r0 = r /\ w0 = w') -> m w = (r, w').
Proof. unfold wp. destruct (m w). cbn. intros [-> ->]. reflexivity. Qed.

Lemma wp_repeatM_S n body w Q :
  wp (bind body (fun _ => repeatM n body)) w Q -> wp (repeatM (S n) body) w Q.
Proof. auto. Qed.

Lemma wp_repeatM_O body w Q : Q (Ok tt) w -> wp (repeatM 0 body) w Q.
Proof. auto. Qed.

Lemma wp_forEach_cons {A} (a : A) l body w Q :
  wp (bind (body a) (fun _ => forEach l body)) w Q -> wp (forEach (a :: l) body) w Q.
Proof. auto. Qed.

Lemma wp_forEach_nil {A} (body : A -> M unit) w Q :
  Q (Ok tt) w -> wp (forEach [] body) w Q.
Proof. auto. Qed.

Lemma store_set_ne {A} (h : nat -> A) r v r' :
  r' <> r -> store_set h r v r' = h r'.
Proof. intros H. unfold store_set. destruct (Nat.eqb_spec r' r); [done|reflexivity]. Qed.

Lemma store_set_eq {A} (h : nat -> A) r v : store_set h r v r = v.
Proof. unfold store_set. by rewrite Nat.eqb_refl. Qed.

(** Reads of a store after writes, when the references are syntactically
    equal or arithmetic tells them apart. *)
Ltac store_simpl :=
  repeat first
    [ rewrite store_set_eq
    | rewrite store_set_ne by lia ].

(** The methods that symbolic execution steps into. *)
Ltac wp_unfold_head :=
  lazymatch goal with
  | |- wp (Vector2.read _) _ _ => unfold Vector2.read at 1
  | |- wp (Vector2.write _ _) _ _ => unfold Vector2.write at 1
  | |- wp (Vector2.set_x _ _) _ _ => unfold Vector2.set_x at 1
  | |- wp (Vector2.set_y _ _) _ _ => unfold Vector2.set_y at 1
  | |- wp (Vector2.add _ _) _ _ => unfold Vector2.add at 1
  | |- wp (Vector2.sub _ _) _ _ => unfold Vector2.sub at 1
  | |- wp (Vector2.mult _ _) _ _ => unfold Vector2.mult at 1
  | |- wp (Vector2.mag _) _ _ => unfold Vector2.mag at 1
  | |- wp (Vector2.copy _) _ _ => unfold Vector2.copy at 1
  | |- wp (Vector2.dist _ _) _ _ => unfold Vector2.dist at 1
  | |- wp (Vector2.normalize _) _ _ => unfold Vector2.normalize at 1
  | |- wp (Artifact.read _) _ _ => unfold Artifact.read at 1
  | |- wp (Artifact.write _ _) _ _ => unfold Artifact.write at 1
  | |- wp (Artifact.set_pos _ _) _ _ => unfold Artifact.set_pos at 1
  | |- wp (Artifact.set_vel _ _) _ _ => unfold Artifact.set_vel at 1
  | |- wp (Artifact.set_held _ _) _ _ => unfold Artifact.set_held at 1
  | |- wp (Artifact.set_holder _ _) _ _ => unfold Artifact.set_holder at 1
  | |- wp (Artifact.set_scored _ _) _ _ => unfold Artifact.set_scored at 1
  | |- wp (Artifact.new _ _ _) _ _ => unfold Artifact.new at 1
  | |- wp (get_history ?t) _ _ => unfold get_history at 1
  | |- wp get_running _ _ => unfold get_running at 1
  | |- wp get_timeLeft _ _ => unfold get_timeLeft at 1
  | |- wp get_lastTime _ _ => unfold get_lastTime at 1
  | |- wp get_robots _ _ => unfold get_robots at 1
  | |- wp get_artifacts _ _ => unfold get_artifacts at 1
  | |- wp get_particles _ _ => unfold get_particles at 1
  | |- wp get_targetPattern _ _ => unfold get_targetPattern at 1
  | |- wp get_redScore _ _ => unfold get_redScore at 1
  | |- wp get_blueScore _ _ => unfold get_blueScore at 1
  | |- wp get_redHistory _ _ => unfold get_redHistory at 1
  | |- wp get_blueHistory _ _ => unfold get_blueHistory at 1
  | |- wp (set_running _) _ _ => unfold set_running at 1
  | |- wp (set_timeLeft _) _ _ => unfold set_timeLeft at 1
  | |- wp (set_lastTime _) _ _ => unfold set_lastTime at 1
  | |- wp (set_robots _) _ _ => unfold set_robots at 1
  | |- wp (set_artifacts _) _ _ => unfold set_artifacts at 1
  | |- wp (set_particles _) _ _ => unfold set_particles at 1
  | |- wp (set_targetPattern _) _ _ => unfold set_targetPattern at 1
  | |- wp (set_redScore _) _ _ => unfold set_redScore at 1
  | |- wp (set_blueScore _) _ _ => unfold set_blueScore at 1
  | |- wp (set_redHistory _) _ _ => unfold set_redHistory at 1
  | |- wp (set_blueHistory _) _ _ => unfold set_blueHistory at 1
  | |- wp (set_redScoreText _) _ _ => unfold set_redScoreText at 1
  | |- wp (set_blueScoreText _) _ _ => unfold set_blueScoreText at 1
  | |- wp (set_timerText _) _ _ => unfold set_timerText at 1
  | |- wp (set_gameMessage _) _ _ => unfold set_gameMessage at 1
  | |- wp (set_gameMessageHidden _) _ _ => unfold set_gameMessageHidden at 1
  | |- wp (set_hideTimeouts _) _ _ => unfold set_hideTimeouts at 1
  end.

(** One step: the head of the computation is run, and its outcome is
    handed to the continuation. *)
Ltac wp_step :=
  lazymatch goal with
  | |- wp (bind _ _) _ _ => apply wp_bind
  | |- wp (ret _) _ _ => apply wp_ret; cbv beta iota
  | |- wp (throw _) _ _ => apply wp_throw; cbv beta iota
  | |- wp (gets _) _ _ => apply wp_gets; cbv beta iota
  | |- wp (modify _) _ _ => apply wp_modify; cbv beta iota
  | |- wp (Vector2.new _ _) _ _ => apply wp_new; cbv beta iota
  | |- wp Math_random _ _ => apply wp_random; cbv beta iota
  | |- wp (fun _ => _) _ _ => unfold wp at 1; cbn [fst snd]; cbv beta iota
  | |- wp _ _ _ => wp_unfold_head
  end.

Ltac wp_go := repeat (wp_step; try (cbn; store_simpl)).

Ltac wp_case :=
  match goal with
  | |- wp (if decide ?P then _ else _) _ _ => destruct (decide P)
  | |- wp (if ?b then _ else _) _ _ => destruct b eqn:?
  | |- wp (match ?x with _ => _ end) _ _ => destruct x eqn:?
  end.

(** ** The pattern test *)

Lemma differs_false history target i :
  differs history target i = false <-> history !! i = mjoin (target !! i).
Proof.
  unfold differs. rewrite bool_decide_eq_false.
  split; [apply dec_stable | intros E H; done].
Qed.

Lemma patternMatched_true history target :
  patternMatched history target = true <->
  forall i, (i < 3)%nat -> history !! i = mjoin (target !! i).
Proof.
  unfold patternMatched. cbn [seq fold_left].
  split.
  - intros H i Hi.
    destruct (differs history target 0) eqn:E0,
             (differs history target 1) eqn:E1,
             (differs history target 2) eqn:E2; try done.
    destruct i as [|[|[|i]]]; [by apply differs_false .. | lia].
  - intros H.
    rewrite (proj2 (differs_false history target 0)) by (apply H; lia).
    rewrite (proj2 (differs_false history target 1)) by (apply H; lia).
    rewrite (proj2 (differs_false history target 2)) by (apply H; lia).
    done.
Qed.

Lemma patternMatched_false history target :
  patternMatched history target = false <->
  exists i, (i < 3)%nat /\ history !! i <> mjoin (target !! i).
Proof.
  split.
  - intros H.
    destruct (decide (history !! 0 = mjoin (target !! 0))) as [E0|];
      [|exists 0; split; [lia|done]].
    destruct (decide (history !! 1 = mjoin (target !! 1))) as [E1|];
      [|exists 1; split; [lia|done]].
    destruct (decide (history !! 2 = mjoin (target !! 2))) as [E2|];
      [|exists 2; split; [lia|done]].
    assert (patternMatched history target = true) as Ht; [|congruence].
    apply patternMatched_true. intros [|[|[|i]]] Hi; [done..|lia].
  - intros (i & Hi & Hne).
    destruct (patternMatched history target) eqn:E; [|done].
    exfalso. apply Hne. by apply patternMatched_true.
Qed.

(** [Math.floor(Math.random() * 2)] is 0 or 1, so the lookup in [types]
    finds a type. *)
Lemma index_types (u : Unit01) :
  exists t, index types (Math_floor (u * 2)) = Some t.
Proof.
  destruct u as [u Hu]. cbn [u01]. unfold Math_floor.
  assert (H0 : (0 <= Zfloor (u * 2))%Z) by (apply Zfloor_lub; cbn; lra).
  assert (H1 : (Zfloor (u * 2) < 2)%Z).
  { apply lt_IZR. pose proof (Zfloor_bound (u * 2)). lra. }
  assert (Hc : Zfloor (u * 2) = 0%Z \/ Zfloor (u * 2) = 1%Z) by lia.
  destruct Hc as [-> | ->]; eexists; reflexivity.
Qed.

Lemma wp_generatePattern w Q :
  (forall t0 t1 t2,
      Q (Ok tt)
        (w_randomCount (S (S (S (randomCount w))))
           (w_gameState
              (g_targetPattern [Some t0; Some t1; Some t2] (gameState w)) w))) ->
  wp generatePattern w Q.
Proof.
  intros HQ. unfold generatePattern, randomType.
  destruct (index_types (randomSource w (randomCount w))) as [t0 E0].
  destruct (index_types (randomSource w (S (randomCount w)))) as [t1 E1].
  destruct (index_types (randomSource w (S (S (randomCount w))))) as [t2 E2].
  wp_go. rewrite E0, E1, E2. apply (HQ t0 t1 t2).
Qed.

Lemma checkPattern_skip team w :
  (length (historyOf team (gameState w)) < 3)%nat \/
  patternMatched (historyOf team (gameState w)) (targetPattern (gameState w)) = false ->
  checkPattern team w = (Ok tt, w).
Proof.
  intros [H|H]; apply wp_eq; unfold checkPattern; wp_step;
    destruct team; wp_go; cbn in H.
  1,2: apply Nat.ltb_lt in H; rewrite H; wp_go; done.
  all: wp_case; wp_go; [done|]; rewrite H; wp_go; done.
Qed.

Lemma wp_checkPattern_hit team w Q :
  (3 <= length (historyOf team (gameState w)))%nat ->
  patternMatched (historyOf team (gameState w)) (targetPattern (gameState w)) = true ->
  (forall t0 t1 t2,
      Q (Ok tt)
        (mkWorld
           (g_blueHistory []
              (g_redHistory []
                 (g_targetPattern [Some t0; Some t1; Some t2]
                    (match team with
                     | red => g_redScore (redScore (gameState w) + 20) (gameState w)
                     | blue => g_blueScore (blueScore (gameState w) + 20) (gameState w)
                     end))))
           (vectors w) (vnext w) (artifactObjs w) (anext w)
           (d_hideTimeouts (S (hideTimeouts (dom w)))
              (d_gameMessageHidden false
                 (d_gameMessage (toUpperCase team +:+ " MATCHED PATTERN (+30)!")
                    (match team with
                     | red => d_redScoreText (redScore (gameState w) + 20) (dom w)
                     | blue => d_blueScoreText (blueScore (gameState w) + 20) (dom w)
                     end))))
           (randomSource w) (S (S (S (randomCount w)))))) ->
  wp (checkPattern team) w Q.
Proof.
  intros Hlen Hm HQ. unfold checkPattern. wp_step.
  destruct team; wp_go; cbn in Hlen, Hm.
  all: apply Nat.ltb_ge in Hlen; rewrite Hlen, Hm; wp_go.
  all: apply wp_generatePattern; intros t0 t1 t2; cbv beta iota; wp_go.
  all: apply (HQ t0 t1 t2).
Qed.

Lemma wp_checkPattern team w Q :
  (if (3 <=? length (historyOf team (gameState w)))%nat
      && patternMatched (historyOf team (gameState w)) (targetPattern (gameState w))
   then
     forall t0 t1 t2,
      Q (Ok tt)
        (mkWorld
           (g_blueHistory []
              (g_redHistory []
                 (g_targetPattern [Some t0; Some t1; Some t2]
                    (match team with
                     | red => g_redScore (redScore (gameState w) + 20) (gameState w)
                     | blue => g_blueScore (blueScore (gameState w) + 20) (gameState w)
                     end))))
           (vectors w) (vnext w) (artifactObjs w) (anext w)
           (d_hideTimeouts (S (hideTimeouts (dom w)))
              (d_gameMessageHidden false
                 (d_gameMessage (toUpperCase team +:+ " MATCHED PATTERN (+30)!")
                    (match team with
                     | red => d_redScoreText (redScore (gameState w) + 20) (dom w)
                     | blue => d_blueScoreText (blueScore (gameState w) + 20) (dom w)
                     end))))
           (randomSource w) (S (S (S (randomCount w)))))
   else Q (Ok tt) w) ->
  wp (checkPattern team) w Q.
Proof.
  destruct (Nat.leb_spec 3 (length (historyOf team (gameState w)))) as [Hlen|Hlen];
    cbn [andb].
  - destruct (patternMatched _ _) eqn:Hm; intros HQ.
    + by apply wp_checkPattern_hit.
    + eapply wp_of_eq; [apply checkPattern_skip; by right | exact HQ].
  - intros HQ. eapply wp_of_eq; [apply checkPattern_skip; by left | exact HQ].
Qed.

(** ** Particles *)

Lemma sparks_refl w : sparks w w.
Proof.
  exists (particles (gameState w)), (vectors w), (vnext w), (randomCount w).
  split_and!; auto.
Qed.

Lemma sparks_trans w1 w2 w3 : sparks w1 w2 -> sparks w2 w3 -> sparks w1 w3.
Proof.
  intros (ps1 & vs1 & n1 & rc1 & -> & Hn1 & Hv1) (ps2 & vs2 & n2 & rc2 & -> & Hn2 & Hv2).
  cbn in *. exists ps2, vs2, n2, rc2. split_and!; [reflexivity | lia |].
  intros r Hr. rewrite Hv2 by lia. auto.
Qed.

Ltac solve_sparks :=
  eexists _, _, _, _; cbn; split_and!;
  [ reflexivity | lia | intros; store_simpl; reflexivity ].

Lemma wp_Particle_new x y c s l w Q :
  (forall p w', sparks w w' -> Q (Ok p) w') ->
  wp (Particle.new x y c s l) w Q.
Proof.
  intros HQ. unfold Particle.new.
  wp_go. wp_case; wp_go; apply HQ; solve_sparks.
Qed.

Lemma wp_spawnParticles x y c n w Q :
  (forall w', sparks w w' -> Q (Ok tt) w') ->
  wp (spawnParticles x y c n) w Q.
Proof.
  unfold spawnParticles. revert w Q. induction n as [|n IH]; intros w Q HQ.
  - apply wp_repeatM_O, HQ, sparks_refl.
  - apply wp_repeatM_S. wp_step. wp_step.
    apply wp_Particle_new. intros p w1 H1. cbv beta iota.
    wp_go. apply IH. intros w2 H2. apply HQ.
    eapply sparks_trans; [exact H1|]. eapply sparks_trans; [|exact H2].
    solve_sparks.
Qed.

(** ** Scoring *)

Lemma pushCapped_recent h type :
  (length h <= 3)%nat ->
  (length (pushCapped h type) <= 3)%nat /\
  pushCapped h type = drop (length (h ++ [type]) - 3) (h ++ [type]).
Proof.
  intros H. unfold pushCapped.
  destruct h as [|a [|b [|c [|d h]]]]; cbn in *; try lia; auto.
Qed.

Lemma scoreArtifact_outcome team a w :
  let o := artifactObjs w a in
  let h := pushCapped (historyOf team (gameState w)) (ArtifactObj.type o) in
  let w' := exec (scoreArtifact team a) w in
  result (scoreArtifact team a) w = Ok tt /\
  ArtifactObj.scored (artifactObjs w' a) = true /\
  scoreOf (opponent team) (gameState w') = scoreOf (opponent team) (gameState w) /\
  if (3 <=? length h)%nat && patternMatched h (targetPattern (gameState w)) then
    scoreOf team (gameState w')
    = (scoreOf team (gameState w) + pointsOf (ArtifactObj.type o) + 20)%Z /\
    redHistory (gameState w') = [] /\
    blueHistory (gameState w') = [] /\
    length (targetPattern (gameState w')) = 3%nat /\
    Forall (fun e => e = Some purple \/ e = Some green) (targetPattern (gameState w'))
  else
    scoreOf team (gameState w')
    = (scoreOf team (gameState w) + pointsOf (ArtifactObj.type o))%Z /\
    historyOf team (gameState w') = h /\
    historyOf (opponent team) (gameState w')
    = historyOf (opponent team) (gameState w) /\
    targetPattern (gameState w') = targetPattern (gameState w).
Proof.
  intros o h w'. subst w'. unfold exec, result.
  pattern ((scoreArtifact team a w).1), ((scoreArtifact team a w).2).
  apply wp_run. unfold scoreArtifact.
  wp_go. apply wp_spawnParticles.
  intros w1 (ps & vs & n & rc & -> & Hn & Hvs). cbv beta iota. clear Hn Hvs.
  destruct team; wp_go; subst o h; unfold pushCapped; cbn [historyOf opponent scoreOf];
    wp_case; wp_go; apply wp_checkPattern; cbn [historyOf gameState redHistory blueHistory targetPattern];
    match goal with |- if ?c then _ else _ => destruct c end.
  all: intros; cbn; store_simpl; unfold pointsOf; cbn.
  all: split_and!; try reflexivity; try lia.
  all: repeat (constructor; [by destruct t0, t1, t2; auto|]); try constructor.
Qed.

(** ** Pattern bonus and scoring: the claims *)

(** C1. [checkPattern team] leaves the world as it is when the team's
    history has fewer than 3 entries or differs from the target pattern at
    one of the indices 0, 1, 2.  When the three entries equal the target's,
    it adds 20 to the team's score and to no other, stores a new target
    pattern of 3 entries, each purple or green, and empties both
    histories. *)
Theorem checkPattern_spec (team : Team) (w : World) :
  let history := historyOf team (gameState w) in
  let target := targetPattern (gameState w) in
  ((length history < 3)%nat \/
   (exists i, (i < 3)%nat /\ history !! i <> mjoin (target !! i)) ->
   checkPattern team w = (Ok tt, w)) /\
  ((3 <= length history)%nat ->
   (forall i, (i < 3)%nat -> history !! i = mjoin (target !! i)) ->
   let w' := exec (checkPattern team) w in
   result (checkPattern team) w = Ok tt /\
   scoreOf team (gameState w') = (scoreOf team (gameState w) + 20)%Z /\
   scoreOf (opponent team) (gameState w') = scoreOf (opponent team) (gameState w) /\
   length (targetPattern (gameState w')) = 3%nat /\
   Forall (fun e => e = Some purple \/ e = Some green) (targetPattern (gameState w')) /\
   redHistory (gameState w') = [] /\
   blueHistory (gameState w') = []).
Proof.
  intros history target. split.
  - intros [H|H]; apply checkPattern_skip; [by left|right].
    by apply patternMatched_false.
  - intros Hlen Hall w'. subst w'. unfold exec, result.
    pattern ((checkPattern team w).1), ((checkPattern team w).2).
    apply wp_run, wp_checkPattern_hit; [done | by apply patternMatched_true |].
    intros t0 t1 t2. destruct team; cbn.
    all: split_and!; try reflexivity; try lia.
    all: repeat (constructor; [by destruct t0, t1, t2; auto|]); constructor.
Qed.

Lemma checkPattern_spec_witness :
  checkPattern red (historyWorld [purple; green; green])
  = (Ok tt, historyWorld [purple; green; green]) /\
  scoreOf red (gameState (exec (checkPattern red) (historyWorld [purple; green; purple])))
  = (scoreOf red (gameState (historyWorld [purple; green; purple])) + 20)%Z.
Proof.
  split.
  - apply (proj1 (checkPattern_spec red (historyWorld [purple; green; green]))).
    right. exists 2%nat. split; [lia | discriminate].
  - apply (proj2 (checkPattern_spec red (historyWorld [purple; green; purple]))).
    + cbn. lia.
    + intros [|[|[|i]]] Hi; [reflexivity.. | lia].
Defined.

(** C2, as amended.  [scoreArtifact team a] marks the artifact scored,
    leaves the other team's score alone, and pushes the artifact's type on
    the team's history, dropping the oldest entry when that makes more than
    3; a history of at most 3 entries thus becomes the 3 most recent types
    in order.  It then runs [checkPattern]: when the new history has 3
    entries that equal the target pattern, the team's score grows by the
    artifact's points (5 for purple, 10 for green) plus the bonus of 20,
    both histories are emptied and a new pattern is stored; otherwise the
    score grows by the artifact's points only and the team's history is the
    new history. *)
Theorem scoreArtifact_spec (team : Team) (a : aref) (w : World) :
  (length (historyOf team (gameState w)) <= 3)%nat ->
  let o := artifactObjs w a in
  let all := historyOf team (gameState w) ++ [ArtifactObj.type o] in
  let h := pushCapped (historyOf team (gameState w)) (ArtifactObj.type o) in
  let w' := exec (scoreArtifact team a) w in
  result (scoreArtifact team a) w = Ok tt /\
  ArtifactObj.scored (artifactObjs w' a) = true /\
  (length h <= 3)%nat /\
  h = drop (length all - 3) all /\
  scoreOf (opponent team) (gameState w') = scoreOf (opponent team) (gameState w) /\
  if (3 <=? length h)%nat && patternMatched h (targetPattern (gameState w)) then
    scoreOf team (gameState w')
    = (scoreOf team (gameState w) + pointsOf (ArtifactObj.type o) + 20)%Z /\
    redHistory (gameState w') = [] /\
    blueHistory (gameState w') = [] /\
    length (targetPattern (gameState w')) = 3%nat /\
    Forall (fun e => e = Some purple \/ e = Some green) (targetPattern (gameState w'))
  else
    scoreOf team (gameState w')
    = (scoreOf team (gameState w) + pointsOf (ArtifactObj.type o))%Z /\
    historyOf team (gameState w') = h /\
    historyOf (opponent team) (gameState w')
    = historyOf (opponent team) (gameState w) /\
    targetPattern (gameState w') = targetPattern (gameState w).
Proof.
  intros Hlen o all h w'.
  destruct (scoreArtifact_outcome team a w) as (Hr & Hs & Ho & Hc).
  destruct (pushCapped_recent (historyOf team (gameState w)) (ArtifactObj.type o) Hlen)
    as [Hl Hd].
  split_and!; auto.
Qed.

Lemma scoreArtifact_spec_witness :
  scoreOf red (gameState (exec (scoreArtifact red 0) (historyWorld [green; green])))
  = (scoreOf red (gameState (historyWorld [green; green])) + 5)%Z /\
  historyOf red (gameState (exec (scoreArtifact red 0) (historyWorld [green; green])))
  = [green; green; purple].
Proof.
  assert (Hlen : (length (historyOf red (gameState (historyWorld [green; green]))) <= 3)%nat)
    by (cbn; lia).
  pose proof (scoreArtifact_spec red 0 (historyWorld [green; green]) Hlen) as H.
  cbv zeta in H. destruct H as (_ & _ & _ & _ & _ & H).
  change (pushCapped (historyOf red (gameState (historyWorld [green; green])))
            (ArtifactObj.type (artifactObjs (historyWorld [green; green]) 0)))
    with [green; green; purple] in H.
  change (patternMatched [green; green; purple]
            (targetPattern (gameState (historyWorld [green; green])))) with false in H.
  cbn [andb] in H. rewrite andb_false_r in H.
  destruct H as (H1 & H2 & _). split; [exact H1 | exact H2].
Defined.

(** Counterexample to C2 as stated: red has scored purple and green, the
    target is purple, green, purple, and red scores the purple artifact 0.
    The score goes from 15 to 40, not to 15 + 5, and the history ends
    empty. *)
Lemma scoreArtifact_bonus_counterexample :
  ArtifactObj.type (artifactObjs scoringWorld 0) = purple /\
  ArtifactObj.scored (artifactObjs scoringWorld 0) = false /\
  redScore (gameState scoringWorld) = 15%Z /\
  redScore (gameState (exec (scoreArtifact red 0) scoringWorld)) = 40%Z /\
  redScore (gameState (exec (scoreArtifact red 0) scoringWorld))
  <> (redScore (gameState scoringWorld) + 5)%Z /\
  redHistory (gameState (exec (scoreArtifact red 0) scoringWorld)) = [].
Proof.
  pose proof (scoreArtifact_outcome red 0 scoringWorld) as H.
  cbv zeta in H. destruct H as (_ & _ & _ & H).
  change (pushCapped (historyOf red (gameState scoringWorld))
            (ArtifactObj.type (artifactObjs scoringWorld 0)))
    with [purple; green; purple] in H.
  change (patternMatched [purple; green; purple]
            (targetPattern (gameState scoringWorld))) with true in H.
  change ((3 <=? length [purple; green; purple])%nat && true) with true in H.
  cbv iota in H. destruct H as (H1 & H2 & _).
  change (scoreOf red (gameState (exec (scoreArtifact red 0) scoringWorld)))
    with (redScore (gameState (exec (scoreArtifact red 0) scoringWorld))) in H1.
  split_and!; try reflexivity.
  - rewrite H1. reflexivity.
  - rewrite H1. discriminate.
  - exact H2.
Qed.

(** ** The clock *)

(** Nothing declares [gamestate]: reading it throws. *)
Lemma identifier_gamestate :
  identifier "gamestate" = throw (ReferenceError "gamestate").
Proof. reflexivity. Qed.

(** A clock tick: [timeLeft] is decremented, then line 302 throws. *)
Lemma clock_tick now w :
  (1000 <= now - lastTime (gameState w))%Z ->
  clock now w
  = (Throw (ReferenceError "gamestate"),
     w_gameState (g_timeLeft (timeLeft (gameState w) - 1) (gameState w)) w).
Proof.
  intros H. apply wp_eq. unfold clock. wp_go.
  apply Z.leb_le in H. rewrite H. wp_go.
  rewrite identifier_gamestate. wp_go. done.
Qed.

Lemma update_tick now input w :
  running (gameState w) = true ->
  (1000 <= now - lastTime (gameState w))%Z ->
  update now input w
  = (Throw (ReferenceError "gamestate"),
     w_gameState (g_timeLeft (timeLeft (gameState w) - 1) (gameState w)) w).
Proof.
  intros Hr H. apply wp_eq. unfold update. wp_go. rewrite Hr. cbn [negb].
  wp_step. eapply wp_of_eq; [by apply clock_tick|]. cbn. rewrite Hr. done.
Qed.

(** [endGame] itself stops the match and names the winner. *)
Lemma endGame_outcome w :
  let w' := exec endGame w in
  let red_ := redScore (gameState w) in
  let blue_ := blueScore (gameState w) in
  result endGame w = Ok tt /\
  running (gameState w') = false /\
  gameMessageHidden (dom w') = false /\
  ((blue_ < red_)%Z -> gameMessage (dom w') = "RED WINS - PRESS SPACE TO RESTART") /\
  ((red_ < blue_)%Z -> gameMessage (dom w') = "BLUE WINS - PRESS SPACE TO RESTART") /\
  (red_ = blue_ -> gameMessage (dom w') = "TIE - PRESS SPACE TO RESTART").
Proof.
  intros w' red_ blue_. subst w'. unfold exec, result.
  pattern ((endGame w).1), ((endGame w).2). apply wp_run.
  unfold endGame. wp_go. fold red_ blue_.
  split_and!; try reflexivity; intros H.
  - apply Z.ltb_lt in H. by rewrite H.
  - destruct (Z.ltb_spec blue_ red_); [lia|]. apply Z.ltb_lt in H. by rewrite H.
  - rewrite H, Z.ltb_irrefl. reflexivity.
Qed.



(** ** Effects and their composition *)

Lemma drift_refl w : drift w w.
Proof.
  exists (particles (gameState w)), (vectors w), (vnext w), (randomCount w).
  split; [reflexivity | lia].
Qed.

Lemma drift_trans w1 w2 w3 : drift w1 w2 -> drift w2 w3 -> drift w1 w3.
Proof.
  intros (ps1 & vs1 & n1 & rc1 & -> & Hn1) (ps2 & vs2 & n2 & rc2 & -> & Hn2).
  cbn in *. exists ps2, vs2, n2, rc2. split; [reflexivity | lia].
Qed.

#[global] Instance drift_preorder : PreOrder drift.
Proof. split; [exact drift_refl | exact drift_trans]. Qed.

Lemma sparks_drift w w' : sparks w w' -> drift w w'.
Proof. intros (ps & vs & n & rc & -> & Hn & _). by exists ps, vs, n, rc. Qed.

Ltac solve_drift :=
  eexists _, _, _, _; cbn; split; [reflexivity | lia].

Lemma acts_refl own w : acts own w w.
Proof.
  exists (particles (gameState w)), (vectors w), (vnext w), (artifactObjs w),
    (randomCount w).
  split_and!; auto.
Qed.

Lemma acts_trans own w1 w2 w3 : acts own w1 w2 -> acts own w2 w3 -> acts own w1 w3.
Proof.
  intros (ps1 & vs1 & n1 & ao1 & rc1 & -> & Hn1 & Hv1 & Hf1)
         (ps2 & vs2 & n2 & ao2 & rc2 & -> & Hn2 & Hv2 & Hf2).
  cbn in *. exists ps2, vs2, n2, ao2, rc2. split_and!; [reflexivity | lia | |].
  - intros r Hr Ho. rewrite Hv2 by (auto; lia). auto.
  - intros a. destruct (Hf1 a) as [Hs1 Hh1], (Hf2 a) as [Hs2 Hh2].
    split; [congruence|]. intros Hh. destruct (Hh2 Hh) as [H|H]; [auto|].
    right. congruence.
Qed.

Lemma acts_weaken own own' w w' : own ⊆ own' -> acts own w w' -> acts own' w w'.
Proof.
  intros Hsub (ps & vs & n & ao & rc & -> & Hn & Hv & Hf).
  exists ps, vs, n, ao, rc. split_and!; auto.
Qed.

Lemma sparks_acts own w w' : sparks w w' -> acts own w w'.
Proof.
  intros (ps & vs & n & rc & -> & Hn & Hv).
  exists ps, vs, n, (artifactObjs w), rc. split_and!; auto.
Qed.

Lemma evolves_refl w : evolves w w.
Proof. unfold evolves, sameClock. split_and!; auto. Qed.

Lemma evolves_trans w1 w2 w3 : evolves w1 w2 -> evolves w2 w3 -> evolves w1 w3.
Proof.
  unfold evolves, sameClock.
  intros (R1 & A1 & N1 & V1 & S1 & F1 & HR1 & HB1 & C1) (R2 & A2 & N2 & V2 & S2 & F2 & HR2 & HB2 & C2).
  destruct C1 as (? & ? & ?), C2 as (? & ? & ?).
  split_and!; try congruence; try lia; auto.
Qed.

#[global] Instance evolves_preorder : PreOrder evolves.
Proof. split; [exact evolves_refl | exact evolves_trans]. Qed.

Lemma drift_evolves w w' : drift w w' -> evolves w w'.
Proof.
  intros (ps & vs & n & rc & -> & Hn). unfold evolves, sameClock. cbn.
  split_and!; auto.
Qed.

Lemma acts_evolves own w w' : acts own w w' -> evolves w w'.
Proof.
  intros (ps & vs & n & ao & rc & -> & Hn & Hv & Hf).
  unfold evolves, sameClock. cbn.
  split_and!; auto.
  - intros a Hs. destruct (Hf a) as [-> _]. exact Hs.
  - intros a HF. destruct (Hf a) as [Hs Hh].
    destruct (ArtifactObj.held (ao a)) eqn:E; [|reflexivity].
    cbn. rewrite Hs. destruct (Hh eq_refl) as [H|H]; [|exact H].
    rewrite H in HF. exact HF.
Qed.

(** Loops whose body has an effect that composes have that effect. *)
Lemma wp_forEach_rel {A} (R : World -> World -> Prop) `{!PreOrder R}
  (l : list A) (body : A -> M unit) :
  (forall a w Q, a ∈ l -> (forall r w', R w w' -> Q r w') -> wp (body a) w Q) ->
  forall w Q, (forall r w', R w w' -> Q r w') -> wp (forEach l body) w Q.
Proof.
  induction l as [|a l IH]; intros Hbody w Q HQ.
  - apply wp_forEach_nil, HQ. reflexivity.
  - apply wp_forEach_cons, wp_bind, Hbody; [left|].
    intros [[]|e] w1 H1; [|by apply HQ].
    apply IH; [intros; apply Hbody; [by right|done]|].
    intros r w2 H2. apply HQ. by etrans.
Qed.

Lemma wp_repeatM_rel (R : World -> World -> Prop) `{!PreOrder R}
  (n : nat) (body : M unit) :
  (forall w Q, (forall r w', R w w' -> Q r w') -> wp body w Q) ->
  forall w Q, (forall r w', R w w' -> Q r w') -> wp (repeatM n body) w Q.
Proof.
  intros Hbody. induction n as [|n IH]; intros w Q HQ.
  - apply wp_repeatM_O, HQ. reflexivity.
  - apply wp_repeatM_S, wp_bind, Hbody.
    intros [[]|e] w1 H1; [|by apply HQ].
    apply IH. intros r w2 H2. apply HQ. by etrans.
Qed.

(** ** Physics of artifacts and particles *)

Lemma wp_Artifact_update a w Q :
  (forall r w', drift w w' -> Q r w') -> wp (Artifact.update a) w Q.
Proof.
  intros HQ. unfold Artifact.update. wp_go.
  repeat (wp_case; wp_go); apply HQ; first [apply drift_refl | solve_drift].
Qed.

Lemma wp_push a robot w Q :
  (forall r w', drift w w' -> Q r w') -> wp (push a robot) w Q.
Proof.
  intros HQ. unfold push. wp_go.
  repeat (wp_case; wp_go); apply HQ; first [apply drift_refl | solve_drift].
Qed.

Lemma wp_Particle_update p w Q :
  (forall p' w', drift w w' -> Q (Ok p') w') -> wp (Particle.update p) w Q.
Proof.
  intros HQ. unfold Particle.update. wp_go. apply HQ. solve_drift.
Qed.

Lemma wp_particleLoop i w Q :
  (forall r w', drift w w' -> Q r w') -> wp (particleLoop i) w Q.
Proof.
  revert w Q. induction i as [|i IH]; intros w Q HQ.
  - unfold particleLoop. wp_go. apply HQ, drift_refl.
  - unfold particleLoop. fold particleLoop. wp_go. wp_case; wp_go.
    + apply wp_Particle_update. intros p' w1 H1. cbv beta iota. wp_go.
      wp_case; wp_go; apply IH; intros r w2 H2; apply HQ;
        (etrans; [exact H1 | etrans; [|exact H2]]); solve_drift.
    + apply HQ, drift_refl.
Qed.

(** ** Intake and shoot *)

(** The world after the capture of [a] by the robot of team [id]. *)
Lemma wp_intake this arts w Q :
  Q (Ok None) w ->
  (forall a,
      a ∈ arts ->
      ArtifactObj.held (artifactObjs w a) = false ->
      ArtifactObj.scored (artifactObjs w a) = false ->
      (distance w (RobotObj.pos this) (ArtifactObj.pos (artifactObjs w a))
       < ROBOT_SIZE + 20)%R ->
      Q (Ok (Some (RobotObj.with_inventory this (RobotObj.inventory this ++ [a]))))
        (w_artifactObjs
           (store_set
              (store_set (artifactObjs w) a
                 (ArtifactObj.with_held (artifactObjs w a) true))
              a
              (ArtifactObj.with_holder
                 (ArtifactObj.with_held (artifactObjs w a) true)
                 (Some (RobotObj.id this))))
           w)) ->
  wp (Robot.intake this arts) w Q.
Proof.
  intros Hnone. induction arts as [|a arts IH]; intros Hsome.
  - unfold Robot.intake. wp_go. exact Hnone.
  - unfold Robot.intake. fold Robot.intake. wp_go.
    destruct (ArtifactObj.held (artifactObjs w a)) eqn:Hh; cbn [negb andb].
    { apply IH. intros b Hb. apply Hsome. by right. }
    destruct (ArtifactObj.scored (artifactObjs w a)) eqn:Hs; cbn [negb andb].
    { apply IH. intros b Hb. apply Hsome. by right. }
    case_bool_decide as Hd.
    + wp_go. specialize (Hsome a). cbn in Hsome.
      rewrite ?Hh, ?Hs in Hsome |- *.
      apply Hsome; [left | done | done | exact Hd].
    + apply IH. intros b Hb. apply Hsome. by right.
Qed.

Lemma wp_shoot this w Q :
  (forall w', acts [RobotObj.vel this] w w' ->
              Q (Ok (RobotObj.with_inventory this (tail (RobotObj.inventory this)))) w') ->
  wp (Robot.shoot this) w Q.
Proof.
  intros HQ. unfold Robot.shoot.
  destruct (RobotObj.inventory this) as [|a rest] eqn:Hinv.
  - wp_go. cbn in HQ. 
    replace this with (RobotObj.with_inventory this []) at 1
      by (cbn; rewrite <- Hinv; reflexivity).
    apply HQ, acts_refl.
  - wp_go. apply wp_spawnParticles. intros w1 H1. cbv beta iota. wp_go.
    apply HQ. eapply acts_trans; [|apply sparks_acts, H1].
    eexists _, _, _, _, _. cbn. split_and!; [reflexivity | lia | |].
    + intros r Hr Ho. apply not_elem_of_cons in Ho as [Hne _].
      store_simpl. reflexivity.
    + intros b. destruct (decide (b = a)) as [->|Hne]; store_simpl; cbn; auto.
      split; [reflexivity | discriminate].
Qed.

Lemma wp_action this w Q :
  (forall inv' w',
      ((length (RobotObj.inventory this) <= MAX_INVENTORY)%nat ->
       (length inv' <= MAX_INVENTORY)%nat) ->
      acts [RobotObj.vel this] w w' ->
      Q (Ok (RobotObj.with_inventory this inv')) w') ->
  wp (Robot.action this) w Q.
Proof.
  intros HQ. unfold Robot.action.
  assert (Hshoot : wp (Robot.shoot this) w Q).
  { apply wp_shoot. intros w' H'. apply HQ; [|exact H'].
    destruct (RobotObj.inventory this); cbn; lia. }
  destruct (Nat.ltb_spec (length (RobotObj.inventory this)) MAX_INVENTORY) as [Hlt|Hge];
    [|exact Hshoot].
  wp_go. apply wp_intake.
  - cbv beta iota. exact Hshoot.
  - intros a Ha Hh Hs Hd. cbv beta iota. wp_go. apply HQ.
    + rewrite length_app. cbn. lia.
    + eexists _, _, _, _, _. cbn. split_and!; [reflexivity | lia | auto |].
      intros b. destruct (decide (b = a)) as [->|Hne]; store_simpl; cbn; auto.
Qed.

(** ** The robot's frame *)

Lemma not_elem_of_one (r a : nat) : r <> a -> r ∉ [a].
Proof. intros H. apply not_elem_of_cons. split; [exact H | apply not_elem_of_nil]. Qed.

Lemma wp_movement input this w Q :
  (forall ang w', acts [RobotObj.vel this] w w' ->
                  Q (Ok (RobotObj.with_angle this ang)) w') ->
  wp (Robot.movement input this) w Q.
Proof.
  intros HQ. unfold Robot.movement. wp_go.
  do 4 (wp_case; wp_go).
  all: wp_case; wp_go.
  all: try (wp_case; wp_go).
  all: try (apply (HQ (RobotObj.angle this))); try apply HQ.
  all: eexists _, _, _, _, _; cbn; (split_and!; [reflexivity | lia | | auto]).
  all: intros k Hk Ho; apply not_elem_of_cons in Ho as [Hne _]; store_simpl; reflexivity.
Qed.

Lemma clamp_bounds (lo hi v : R) :
  (lo <= hi)%R -> (lo <= Rmax lo (Rmin hi v) <= hi)%R.
Proof.
  intros H. split; [apply Rmax_l|].
  apply Rmax_lub; [exact H | apply Rmin_l].
Qed.

Lemma wp_Robot_update input this w Q :
  (forall ang inv' c w',
      ((length (RobotObj.inventory this) <= MAX_INVENTORY)%nat ->
       (length inv' <= MAX_INVENTORY)%nat) ->
      acts [RobotObj.vel this; RobotObj.pos this] w w' ->
      ((RobotObj.pos this < vnext w)%nat ->
       RobotObj.pos this <> RobotObj.vel this ->
       (ROBOT_SIZE <= Vec.x (vectors w' (RobotObj.pos this)) <= FIELD_WIDTH - ROBOT_SIZE)%R /\
       (ROBOT_SIZE <= Vec.y (vectors w' (RobotObj.pos this)) <= FIELD_HEIGHT - ROBOT_SIZE)%R) ->
      Q (Ok (RobotObj.mk (RobotObj.id this) (RobotObj.pos this) (RobotObj.vel this)
               ang (RobotObj.color this) (RobotObj.controls this) inv' c
               (RobotObj.speed this)))
        w') ->
  wp (Robot.update input this) w Q.
Proof.
  intros HQ. unfold Robot.update. wp_step. apply wp_movement.
  intros ang w1 (ps & vs & n & ao & rc & -> & Hn & Hv & Hf). cbv beta iota.
  wp_go. wp_case.
  - wp_step. apply wp_action. intros inv' w3 Hinv H3. cbv beta iota. wp_go.
    cbn in Hinv.
    destruct H3 as (ps3 & vs3 & n3 & ao3 & rc3 & -> & Hn3 & Hv3 & Hf3).
    cbn in Hn3, Hv3, Hf3.
    try match goal with
    | |- Q (Ok (if ?b then _ else _)) _ => destruct b
    end.
    all: apply HQ; [exact Hinv | |].
    all: try (eexists _, _, _, _, _; cbn; split_and!; [reflexivity | lia | |]).
    all: try (intros k Hk Ho; apply not_elem_of_cons in Ho as [Hne1 Ho];
              apply not_elem_of_cons in Ho as [Hne2 _];
              rewrite Hv3 by first [lia | apply not_elem_of_one; lia];
              store_simpl; apply Hv; [lia | apply not_elem_of_one; lia]).
    all: try (intros a; destruct (Hf a) as [Hs1 Hh1], (Hf3 a) as [Hs3 Hh3];
              split; [congruence|]; intros Hh; destruct (Hh3 Hh) as [H|H];
              [auto | right; congruence]).
    all: intros Hp Hne; cbn; rewrite Hv3 by first [lia | apply not_elem_of_one; lia];
      store_simpl; cbn; split; apply clamp_bounds; unfold ROBOT_SIZE, FIELD_WIDTH, FIELD_HEIGHT; lra.
  - wp_go.
    try match goal with
    | |- Q (Ok (if ?b then _ else _)) _ => destruct b
    end.
    all: apply HQ; [auto | |].
    all: try (eexists _, _, _, _, _; cbn; split_and!; [reflexivity | lia | | exact Hf]).
    all: try (intros k Hk Ho; apply not_elem_of_cons in Ho as [Hne1 Ho];
              apply not_elem_of_cons in Ho as [Hne2 _];
              store_simpl; apply Hv; [lia | apply not_elem_of_one; lia]).
    all: intros Hp Hne; cbn; store_simpl; cbn; split; apply clamp_bounds;
      unfold ROBOT_SIZE, FIELD_WIDTH, FIELD_HEIGHT; lra.
Qed.

(** ** The shoot block in detail *)

(** What [shoot] leaves in the vectors of the robot and of the released
    artifact.  Line 145 scales [dir] itself by 15 and stores that same
    object as the artifact's velocity, so the copy that line 147 scales by
    0.2 is a copy of the scaled [dir]. *)
Lemma shoot_vectors this a rest w :
  RobotObj.inventory this = a :: rest ->
  (RobotObj.vel this < vnext w)%nat ->
  let w' := exec (Robot.shoot this) w in
  let c := cos (RobotObj.angle this) in
  let s := sin (RobotObj.angle this) in
  result (Robot.shoot this) w = Ok (RobotObj.with_inventory this rest) /\
  vectors w' (RobotObj.vel this)
  = Vec.mk (Vec.x (vectors w (RobotObj.vel this)) - c * 15 * 0.2)
           (Vec.y (vectors w (RobotObj.vel this)) - s * 15 * 0.2) /\
  vectors w' (ArtifactObj.vel (artifactObjs w' a)) = Vec.mk (c * 15) (s * 15) /\
  ArtifactObj.held (artifactObjs w' a) = false.
Proof.
  intros Hinv Hv w' c s. subst w'. unfold exec, result.
  pattern ((Robot.shoot this w).1), ((Robot.shoot this w).2). apply wp_run.
  unfold Robot.shoot. rewrite Hinv. wp_go.
  apply wp_spawnParticles. intros w1 (ps & vs & n & rc & -> & Hn & Hvs).
  cbv beta iota. wp_go. cbn in Hn, Hvs.
  split_and!; [reflexivity | | |].
  - rewrite Hvs by lia. store_simpl. reflexivity.
  - store_simpl. cbn. rewrite Hvs by lia. store_simpl. reflexivity.
  - store_simpl. reflexivity.
Qed.

Lemma magnitude_scaled (k a : R) :
  (0 <= k)%R -> magnitude (Vec.mk (cos a * k) (sin a * k)) = k.
Proof.
  intros Hk. unfold magnitude. cbn.
  replace (cos a * k * (cos a * k) + sin a * k * (sin a * k))%R
    with (k * k * (Rsqr (sin a) + Rsqr (cos a)))%R by (unfold Rsqr; ring).
  rewrite sin2_cos2, Rmult_1_r. by apply sqrt_square.
Qed.

(** C6.  The code in the shoot block: the released artifact gets the
    heading direction times 15 as velocity, and the vector subtracted from
    the robot's velocity is the heading direction times 15 times 0.2, of
    magnitude 3 and not 0.2. *)
Theorem shoot_recoil_magnitude (this : RobotObj.t) (a : aref) (rest : list aref)
  (w : World) :
  RobotObj.inventory this = a :: rest ->
  (RobotObj.vel this < vnext w)%nat ->
  let w' := exec (Robot.shoot this) w in
  let before := vectors w (RobotObj.vel this) in
  let after := vectors w' (RobotObj.vel this) in
  let recoil := Vec.mk (Vec.x before - Vec.x after) (Vec.y before - Vec.y after) in
  recoil = Vec.mk (cos (RobotObj.angle this) * 3) (sin (RobotObj.angle this) * 3) /\
  magnitude recoil = 3%R /\
  magnitude recoil <> 0.2%R /\
  vectors w' (ArtifactObj.vel (artifactObjs w' a))
  = Vec.mk (cos (RobotObj.angle this) * 15) (sin (RobotObj.angle this) * 15).
Proof.
  intros Hinv Hv w' before after recoil.
  destruct (shoot_vectors this a rest w Hinv Hv) as (_ & Hvel & Hart & _).
  fold w' in Hvel, Hart.
  assert (Hrec : recoil
                 = Vec.mk (cos (RobotObj.angle this) * 3) (sin (RobotObj.angle this) * 3)).
  { subst recoil after before. rewrite Hvel. cbn. f_equal; lra. }
  rewrite Hrec, magnitude_scaled by lra.
  split_and!; [reflexivity | reflexivity | lra | exact Hart].
Qed.

(** ** The action without effect *)

Lemma intake_none this arts w :
  (forall a, a ∈ arts -> isFree (artifactObjs w a) = true ->
             ~ (distance w (RobotObj.pos this) (ArtifactObj.pos (artifactObjs w a))
                < ROBOT_SIZE + 20)%R) ->
  Robot.intake this arts w = (Ok None, w).
Proof.
  intros H. apply wp_eq, wp_intake; [done|].
  intros a Ha Hh Hs Hd. exfalso. apply (H a Ha); [|exact Hd].
  unfold isFree. by rewrite Hh, Hs.
Qed.

Lemma action_idle this w :
  RobotObj.inventory this = [] ->
  (forall a, a ∈ artifacts (gameState w) -> isFree (artifactObjs w a) = true ->
             ~ (distance w (RobotObj.pos this) (ArtifactObj.pos (artifactObjs w a))
                < ROBOT_SIZE + 20)%R) ->
  Robot.action this w = (Ok this, w).
Proof.
  intros Hinv H. apply wp_eq. unfold Robot.action. rewrite Hinv. cbn [length].
  change (0 <? MAX_INVENTORY)%nat with true. cbv iota. wp_go.
  eapply wp_of_eq; [by apply intake_none|]. cbv beta iota.
  unfold Robot.shoot. rewrite Hinv. wp_go. done.
Qed.

(** ** The robot inside the field *)


(** ** Scoring inside a frame *)

Lemma length_tail_le {A} (l : list A) n :
  (length l <= S n)%nat -> (length (tail l) <= n)%nat.
Proof. destruct l; cbn; lia. Qed.

Lemma pushCapped_le h type :
  (length h <= 3)%nat -> (length (pushCapped h type) <= 3)%nat.
Proof. intros H. by apply pushCapped_recent. Qed.

(** Scoring an artifact that is not held. *)
Lemma wp_scoreArtifact team a w Q :
  ArtifactObj.held (artifactObjs w a) = false ->
  (forall r w', evolves w w' -> Q r w') ->
  wp (scoreArtifact team a) w Q.
Proof.
  intros Hheld HQ. unfold scoreArtifact.
  wp_go. apply wp_spawnParticles.
  intros w1 (ps & vs & n & rc & -> & Hn & Hvs). cbv beta iota. cbn in Hn. clear Hvs.
  assert (Hflags :
    forall b,
      ArtifactObj.held (artifactObjs w b)
      && ArtifactObj.scored (artifactObjs w b) = false ->
      ArtifactObj.held
        (store_set (artifactObjs w) a
           (ArtifactObj.with_scored (artifactObjs w a) true) b)
      && ArtifactObj.scored
           (store_set (artifactObjs w) a
              (ArtifactObj.with_scored (artifactObjs w a) true) b) = false).
  { intros b HF. destruct (decide (b = a)) as [->|Hne]; store_simpl; cbn; [|apply HF].
    by rewrite Hheld. }
  assert (Hscored :
    forall b, ArtifactObj.scored (artifactObjs w b) = true ->
      ArtifactObj.scored
        (store_set (artifactObjs w) a
           (ArtifactObj.with_scored (artifactObjs w a) true) b) = true).
  { intros b Hb. destruct (decide (b = a)) as [->|Hne]; store_simpl; cbn; auto. }
  cbn in Hflags, Hscored.
  destruct team; wp_go; wp_case; wp_go; apply wp_checkPattern;
    cbn [historyOf gameState redHistory blueHistory targetPattern];
    match goal with |- if ?c then _ else _ => destruct c end.
  all: intros; apply HQ; unfold evolves, sameClock; cbn.
  all: split_and!; try reflexivity; try lia; try exact Hflags; try exact Hscored; auto.
  all: intros Hl.
  all: first
    [ apply length_tail_le; rewrite length_app; cbn; lia
    | match goal with
      | H : (3 <? _)%nat = false |- _ => apply Nat.ltb_ge in H; exact H
      end ].
Qed.

Lemma wp_artifactStep redGoalPos blueGoalPos a w Q :
  (forall r w', evolves w w' -> Q r w') ->
  wp (artifactStep redGoalPos blueGoalPos a) w Q.
Proof.
  intros HQ. unfold artifactStep. wp_go.
  destruct (ArtifactObj.held (artifactObjs w a)) eqn:Hh; cbn [negb andb];
    [wp_go; apply HQ; reflexivity|].
  destruct (ArtifactObj.scored (artifactObjs w a)) eqn:Hs; cbn [negb andb];
    [wp_go; apply HQ; reflexivity|].
  wp_step. apply wp_Artifact_update.
  intros r1 w1 H1. destruct r1 as [[]|e]; [|apply HQ, drift_evolves, H1].
  wp_go. apply (wp_forEach_rel drift).
  { intros robot w2 Q2 _ HQ2. by apply wp_push. }
  intros r2 w2 H2. destruct r2 as [[]|e];
    [|apply HQ, drift_evolves; by etrans].
  assert (H12 : drift w w2) by (by etrans).
  destruct H12 as (ps & vs & n & rc & -> & Hn).
  wp_go. rewrite Hs. cbn [negb]. rewrite !andb_true_r.
  assert (Hscore : forall team, wp (scoreArtifact team a)
            (mkWorld (g_particles ps (gameState w)) vs n (artifactObjs w) (anext w)
               (dom w) (randomSource w) rc) Q).
  { intros team. apply wp_scoreArtifact; [exact Hh|].
    intros r w3 H3. apply HQ. etrans; [|exact H3].
    apply drift_evolves. by eexists _, _, _, _. }
  case_bool_decide; [apply Hscore|].
  wp_go. case_bool_decide; [apply Hscore|].
  wp_go. apply HQ, drift_evolves. by eexists _, _, _, _.
Qed.

(** ** Spawning artifacts *)

Lemma spawned_nil w : spawned [] w w.
Proof.
  exists (vectors w), (vnext w), (artifactObjs w), (randomCount w).
  cbn. rewrite app_nil_r. split_and!; auto. intros i type H. done.
Qed.

Lemma freshArtifact_later base n n' vs vs' type o :
  freshArtifact base n vs type o ->
  (n <= n')%nat ->
  (forall r, (r < n)%nat -> vs' r = vs r) ->
  freshArtifact base n' vs' type o.
Proof.
  unfold freshArtifact. intros (Ht & Hh & Ho & Hs & Hp & Hv & Hz & Hx & Hy) Hn Hvs.
  rewrite (Hvs (ArtifactObj.vel o)) by lia.
  rewrite (Hvs (ArtifactObj.pos o)) by lia.
  split_and!; auto; first [lia | lra].
Qed.

Lemma freshArtifact_base base base' n vs type o :
  freshArtifact base n vs type o ->
  (base' <= base)%nat ->
  freshArtifact base' n vs type o.
Proof.
  unfold freshArtifact. intros (Ht & Hh & Ho & Hs & Hp & Hv & Hz & Hx & Hy) Hb.
  split_and!; auto; first [lia | lra].
Qed.

Lemma spawned_app t1 t2 w1 w2 w3 :
  spawned t1 w1 w2 -> spawned t2 w2 w3 -> spawned (t1 ++ t2) w1 w3.
Proof.
  intros (vs1 & n1 & ao1 & rc1 & -> & Hn1 & Hv1 & Ha1 & Hf1)
         (vs2 & n2 & ao2 & rc2 & -> & Hn2 & Hv2 & Ha2 & Hf2).
  cbn in *. exists vs2, n2, ao2, rc2. split_and!.
  - rewrite length_app, seq_app, <- app_assoc.
    replace (length t1 + length t2 + anext w1)%nat
      with (length t2 + (length t1 + anext w1))%nat by lia.
    replace (anext w1 + length t1)%nat with (length t1 + anext w1)%nat by lia.
    reflexivity.
  - lia.
  - intros r Hr. rewrite Hv2 by lia. auto.
  - intros a Ha. rewrite Ha2 by lia. auto.
  - intros i type Hi. destruct (decide (i < length t1)%nat) as [Hlt|Hge].
    + rewrite lookup_app_l in Hi by exact Hlt.
      rewrite Ha2 by lia.
      eapply freshArtifact_later; [by apply Hf1 | lia | intros; by apply Hv2].
    + rewrite lookup_app_r in Hi by lia.
      replace (i + anext w1)%nat
        with (i - length t1 + (length t1 + anext w1))%nat by lia.
      eapply freshArtifact_base; [by apply Hf2 | lia].
Qed.

Lemma wp_pushRandomArtifact type w Q :
  (forall w', spawned [type] w w' -> Q (Ok tt) w') ->
  wp (pushRandomArtifact type) w Q.
Proof.
  intros HQ. unfold pushRandomArtifact. wp_go. apply HQ.
  eexists _, _, _, _. cbn. split_and!; [reflexivity | lia | | |].
  - intros r Hr. store_simpl. reflexivity.
  - intros a Ha. store_simpl. reflexivity.
  - intros [|i] ty Hi; [|done]. injection Hi as <-. cbn. store_simpl.
    unfold freshArtifact. cbn. store_simpl. cbn.
    pose proof (u01_range (randomSource w (randomCount w))) as Hx.
    pose proof (u01_range (randomSource w (S (randomCount w)))) as Hy.
    unfold FIELD_WIDTH, FIELD_HEIGHT.
    split_and!; try reflexivity; try lia; lra.
Qed.

Lemma wp_spawnLoop n type w Q :
  (forall w', spawned (replicate n type) w w' -> Q (Ok tt) w') ->
  wp (repeatM n (pushRandomArtifact type)) w Q.
Proof.
  revert w Q. induction n as [|n IH]; intros w Q HQ.
  - apply wp_repeatM_O, HQ, spawned_nil.
  - apply wp_repeatM_S, wp_bind, wp_pushRandomArtifact. intros w1 H1.
    apply IH. intros w2 H2. apply HQ.
    change (replicate (S n) type) with ([type] ++ replicate n type).
    by eapply spawned_app.
Qed.

Lemma wp_spawnArtifacts w Q :
  (forall w', spawned waveTypes (w_gameState (g_artifacts [] (gameState w)) w) w' ->
              Q (Ok tt) w') ->
  wp spawnArtifacts w Q.
Proof.
  intros HQ. unfold spawnArtifacts. wp_go.
  apply wp_spawnLoop. intros w1 H1. cbv beta iota. apply wp_spawnLoop.
  intros w2 H2. apply HQ. by eapply spawned_app.
Qed.

(** ** Starting a match *)

Lemma wp_updateRobot i f w Q :
  match robots (gameState w) !! i with
  | Some r => Q (Ok tt) (w_gameState (g_robots (<[i := f r]> (robots (gameState w))) (gameState w)) w)
  | None => Q (Throw (TypeError "gameState.robots[i] is undefined")) w
  end ->
  wp (updateRobot i f) w Q.
Proof.
  intros H. unfold updateRobot. wp_go.
  destruct (robots (gameState w) !! i); wp_go; exact H.
Qed.

Lemma wp_startGame now w r0 r1 rest Q :
  robots (gameState w) = r0 :: r1 :: rest ->
  (forall t0 t1 t2 vs n ao rc,
      (vnext w <= n)%nat ->
      (forall r, (r < vnext w)%nat -> vs r = vectors w r) ->
      (forall a, (a < anext w)%nat -> ao a = artifactObjs w a) ->
      (forall i type, waveTypes !! i = Some type ->
                      freshArtifact (vnext w) n vs type (ao (i + anext w))) ->
      Q (Ok tt)
        (mkWorld
           (mkGameState true 120 now
              (RobotObj.with_inventory (RobotObj.with_pos r0 n) []
               :: RobotObj.with_inventory (RobotObj.with_pos r1 (S n)) []
               :: rest)
              (seq (anext w) 36) (particles (gameState w))
              [Some t0; Some t1; Some t2] 0 0 [] [])
           (store_set
              (store_set vs n (Vec.mk 100 (FIELD_HEIGHT / 2)))
              (S n) (Vec.mk (FIELD_WIDTH - 100) (FIELD_HEIGHT / 2)))
           (S (S n)) ao (36 + anext w)
           (d_blueScoreText 0 (d_redScoreText 0 (d_gameMessageHidden true (dom w))))
           (randomSource w) (S (S (S rc))))) ->
  wp (startGame now) w Q.
Proof.
  intros Hrs HQ. unfold startGame. wp_go. apply wp_spawnArtifacts.
  intros w1 (vs & n & ao & rc & -> & Hn & Hv & Ha & Hf). cbv beta iota.
  pose proof (fun t0 t1 t2 => HQ t0 t1 t2 vs n ao rc Hn Hv Ha Hf) as HQ'.
  clear HQ Hn Hv Ha Hf.
  wp_go. apply wp_generatePattern. intros t0 t1 t2. cbv beta iota.
  wp_go. rewrite Hrs.
  apply wp_updateRobot. cbn. wp_go.
  apply wp_updateRobot. cbn. wp_go.
  apply wp_updateRobot. cbn. wp_go.
  apply wp_updateRobot. cbn. wp_go.
  exact (HQ' t0 t1 t2).
Qed.

(** ** The invariants of a run *)

Lemma robotOk_mono w w' r :
  (vnext w <= vnext w')%nat -> robotOk w r -> robotOk w' r.
Proof. unfold robotOk. intros H (Hi & Hp & Hv & Hne). split_and!; auto; lia. Qed.

Lemma scoredKept_refl w : scoredKept w w.
Proof. split; auto. Qed.


Lemma evolves_scoredKept w w' : evolves w w' -> scoredKept w w'.
Proof.
  intros (_ & _ & N & _ & S & _). split; [lia|]. intros a _. apply S.
Qed.

Lemma Safe_evolves w w' : evolves w w' -> Safe w -> Safe w'.
Proof.
  intros (R & A & N & V & S & F & HR & HB & C) [Htwo Hflags Hrobots Hred Hblue].
  split.
  - by rewrite R.
  - intros a Ha. apply F, Hflags. lia.
  - rewrite R. eapply Forall_impl; [exact Hrobots|].
    intros r. by apply robotOk_mono.
  - auto.
  - auto.
Qed.

Lemma wp_robots_update input rs w Q :
  Forall (robotOk w) rs ->
  (forall rs' w',
      evolves w w' -> Forall (robotOk w') rs' -> length rs' = length rs ->
      Q (Ok rs') w') ->
  wp (mapM (Robot.update input) rs) w Q.
Proof.
  revert w Q. induction rs as [|r rs IH]; intros w Q Hok HQ.
  - unfold mapM. wp_go. apply HQ; [reflexivity | constructor | reflexivity].
  - unfold mapM. fold (mapM (Robot.update input)).
    apply Forall_cons in Hok as [Hr Hrs].
    wp_step. apply wp_Robot_update. intros ang inv' c w1 Hinv H1 _. cbv beta iota.
    apply acts_evolves in H1.
    assert (V1 : (vnext w <= vnext w1)%nat) by apply H1.
    wp_step. apply IH.
    { eapply Forall_impl; [exact Hrs|]. intros r'. by apply robotOk_mono. }
    intros rs' w2 H2 Hok2 Hlen. cbv beta iota. wp_go.
    assert (V2 : (vnext w1 <= vnext w2)%nat) by apply H2.
    apply HQ; [by etrans | | cbn; by rewrite Hlen].
    constructor; [|exact Hok2].
    destruct Hr as (Hi & Hp & Hv & Hne). unfold robotOk. cbn.
    split_and!; [by apply Hinv | lia | lia | exact Hne].
Qed.

Lemma wp_startGame_safe now w Q :
  Safe w ->
  (forall r w', Safe w' -> scoredKept w w' -> Q r w') ->
  wp (startGame now) w Q.
Proof.
  intros [Htwo Hflags Hrobots Hred Hblue] HQ.
  destruct (robots (gameState w)) as [|r0 [|r1 [|r2 rest]]] eqn:Hrs; try done.
  apply (wp_startGame now w r0 r1 [] Q Hrs).
  intros t0 t1 t2 vs n ao rc Hn Hv Ha Hf.
  apply Forall_cons in Hrobots as [(Hi0 & Hp0 & Hv0 & Hne0) Hrobots].
  apply Forall_cons in Hrobots as [(Hi1 & Hp1 & Hv1 & Hne1) _].
  apply HQ.
  - split; cbn; try lia; try reflexivity.
    + intros a Ha'. destruct (decide (a < anext w)%nat) as [Hlt|Hge].
      * rewrite Ha by exact Hlt. by apply Hflags.
      * assert (Hfresh : freshArtifact (vnext w) n vs
                           (default purple (waveTypes !! (a - anext w)%nat))
                           (ao (a - anext w + anext w)%nat)).
        { destruct (waveTypes !! (a - anext w)%nat) as [ty|] eqn:E; [by apply Hf|].
          apply lookup_ge_None in E. cbn in E. lia. }
        replace (a - anext w + anext w)%nat with a in Hfresh by lia.
        destruct Hfresh as (_ & -> & _). reflexivity.
    + repeat constructor; unfold robotOk; cbn; lia.
  - split; cbn; [lia|]. intros a Ha' Hs. by rewrite Ha.
Qed.

Ltac tick_case :=
  match goal with
  | H : (1000 <=? _)%Z = _ |- _ => rewrite H
  end.

Lemma wp_update_running now input w Q :
  running (gameState w) = true ->
  Safe w ->
  (forall r w',
      Safe w' -> scoredKept w w' -> anext w' = anext w ->
      artifacts (gameState w') = artifacts (gameState w) ->
      ticked now w w' ->
      Q r w') ->
  wp (update now input) w Q.
Proof.
  intros Hrun Hsafe HQ. unfold update. wp_go. rewrite Hrun. cbn [negb].
  wp_step. unfold clock. wp_go. wp_case.
  { wp_go. rewrite identifier_gamestate. wp_go.
    apply HQ; [|split; cbn; auto|reflexivity|reflexivity|].
    - destruct Hsafe. by split.
    - unfold ticked. cbn. rewrite Hrun. tick_case. done. }
  wp_go. apply wp_robots_update; [apply Hsafe|].
  intros rs' w1 H1 Hok1 Hlen1. cbv beta iota. wp_go.
  apply (wp_forEach_rel evolves).
  { intros a w2 Q2 _ HQ2. by apply wp_artifactStep. }
  intros r3 w3 H3. destruct r3 as [[]|e].
  - wp_go. apply wp_particleLoop. intros r4 w4 H4.
    apply drift_evolves in H4.
    assert (H34 : evolves
                    (w_vnext (S (S (vnext w1)))
                       (w_gameState (g_robots rs' (gameState w1)) w1)) w4)
      by (etrans; [exact H3 | exact H4]).
    clear H3 H4.
    destruct H1 as (R1 & A1 & N1 & V1 & S1 & F1 & HR1 & HB1 & C1).
    destruct H34 as (R4 & A4 & N4 & V4 & S4 & F4 & HR4 & HB4 & C4).
    unfold sameClock in C1, C4. cbn in *.
    destruct Hsafe as [Htwo Hflags Hrobots Hred Hblue].
    destruct C1 as (? & ? & ?), C4 as (? & ? & ?).
    apply HQ; [split| split | | |unfold ticked; tick_case; split_and!];
      try congruence; try lia; auto.
    + intros a Ha. apply F4, F1, Hflags. lia.
    + rewrite R4. eapply Forall_impl; [exact Hok1|].
      intros r. apply robotOk_mono. lia.
  - destruct H1 as (R1 & A1 & N1 & V1 & S1 & F1 & HR1 & HB1 & C1).
    destruct H3 as (R4 & A4 & N4 & V4 & S4 & F4 & HR4 & HB4 & C4).
    unfold sameClock in C1, C4. cbn in *.
    destruct Hsafe as [Htwo Hflags Hrobots Hred Hblue].
    destruct C1 as (? & ? & ?), C4 as (? & ? & ?).
    apply HQ; [split| split | | |unfold ticked; tick_case; split_and!];
      try congruence; try lia; auto.
    + intros a Ha. apply F4, F1, Hflags. lia.
    + rewrite R4. eapply Forall_impl; [exact Hok1|].
      intros r. apply robotOk_mono. lia.
Qed.

(** ** Every world of a run is safe *)

Lemma initialWorld_eq page source :
  initialWorld page source
  = mkWorld
      (mkGameState false 120 0
         [ RobotObj.mk red 0 1 0 COLORS_red redControls [] 0 5;
           RobotObj.mk blue 2 3 PI COLORS_blue blueControls [] 0 5 ]
         [] [] [] 0 0 [] [])
      (store_set
         (store_set
            (store_set
               (store_set (fun _ => Vec.mk 0 0) 0 (Vec.mk 100 (FIELD_HEIGHT / 2)))
               1 (Vec.mk 0 0))
            2 (Vec.mk (FIELD_WIDTH - 100) (FIELD_HEIGHT / 2)))
         3 (Vec.mk 0 0))
      4 (fun _ => blankArtifact) 0 page source 0.
Proof. reflexivity. Qed.

Lemma Safe_initial page source : Safe (initialWorld page source).
Proof.
  rewrite initialWorld_eq. split; cbn; try lia; try reflexivity.
  repeat constructor; unfold robotOk; cbn; lia.
Qed.

Lemma wp_update now input w Q :
  Safe w ->
  (forall r w', Safe w' -> scoredKept w w' -> Q r w') ->
  wp (update now input) w Q.
Proof.
  intros Hsafe HQ. destruct (running (gameState w)) eqn:Hrun.
  - apply wp_update_running; auto.
  - unfold update. wp_go. rewrite Hrun. cbn [negb]. wp_case.
    + by apply wp_startGame_safe.
    + wp_go. apply HQ; [exact Hsafe | apply scoredKept_refl].
Qed.

Lemma wp_hideMessage w Q :
  Safe w ->
  (forall r w', Safe w' -> scoredKept w w' -> Q r w') ->
  wp hideMessage w Q.
Proof.
  intros Hsafe HQ. unfold hideMessage. wp_go.
  destruct Hsafe. wp_case; wp_go; (apply HQ; [by split | by split]).
Qed.

Lemma reachable_safe page source w : reachable page source w -> Safe w.
Proof.
  induction 1 as [|w now input _ IH|w _ IH _].
  - apply Safe_initial.
  - unfold exec. pattern ((update now input w).1), ((update now input w).2).
    apply wp_run, wp_update; auto.
  - unfold exec. pattern ((hideMessage w).1), ((hideMessage w).2).
    apply wp_run, wp_hideMessage; auto.
Qed.


(** ** What a scored artifact is left out of *)




(** ** The start of a match: the claims *)

Lemma sampleWorld_robots :
  robots (gameState sampleWorld)
  = [ RobotObj.mk red 0 1 0 COLORS_red redControls [] 0 5;
      RobotObj.mk blue 2 3 PI COLORS_blue blueControls [] 0 5 ].
Proof. unfold sampleWorld. rewrite initialWorld_eq. reflexivity. Qed.

Lemma sampleWorld_vnext : vnext sampleWorld = 4%nat.
Proof. unfold sampleWorld. rewrite initialWorld_eq. reflexivity. Qed.

(** C10.  [startGame] sets the scores to 0 and 0, [timeLeft] to 120, both
    histories to empty and [running] to true; it replaces the artifact
    collection with 36 newly allocated artifacts, 24 purple then 12 green,
    each free and at rest inside the spawn area; it stores a new target
    pattern of 3 entries, each purple or green; it puts the two robots on
    new position vectors at (100, FIELD_HEIGHT / 2) and
    (FIELD_WIDTH - 100, FIELD_HEIGHT / 2) with empty inventories, and leaves
    each robot's velocity vector, heading angle and cooldown as they
    were. *)
Theorem startGame_spec (now : Z) (w : World) (r0 r1 : RobotObj.t) :
  robots (gameState w) = [r0; r1] ->
  (RobotObj.vel r0 < vnext w)%nat ->
  (RobotObj.vel r1 < vnext w)%nat ->
  let w' := exec (startGame now) w in
  let g' := gameState w' in
  result (startGame now) w = Ok tt /\
  (running g' = true /\ timeLeft g' = 120%Z /\ lastTime g' = now) /\
  (redScore g' = 0%Z /\ blueScore g' = 0%Z /\ redHistory g' = [] /\ blueHistory g' = []) /\
  (artifacts g' = seq (anext w) 36 /\
   forall i type, waveTypes !! i = Some type ->
     exists n, freshArtifact (vnext w) n (vectors w') type (artifactObjs w' (i + anext w))) /\
  (length (targetPattern g') = 3%nat /\
   Forall (fun e => e = Some purple \/ e = Some green) (targetPattern g')) /\
  exists r0' r1',
    robots g' = [r0'; r1'] /\
    vectors w' (RobotObj.pos r0') = Vec.mk 100 (FIELD_HEIGHT / 2) /\
    vectors w' (RobotObj.pos r1') = Vec.mk (FIELD_WIDTH - 100) (FIELD_HEIGHT / 2) /\
    RobotObj.inventory r0' = [] /\ RobotObj.inventory r1' = [] /\
    (RobotObj.vel r0' = RobotObj.vel r0 /\
     vectors w' (RobotObj.vel r0) = vectors w (RobotObj.vel r0) /\
     RobotObj.angle r0' = RobotObj.angle r0 /\
     RobotObj.cooldown r0' = RobotObj.cooldown r0) /\
    (RobotObj.vel r1' = RobotObj.vel r1 /\
     vectors w' (RobotObj.vel r1) = vectors w (RobotObj.vel r1) /\
     RobotObj.angle r1' = RobotObj.angle r1 /\
     RobotObj.cooldown r1' = RobotObj.cooldown r1).
Proof.
  intros Hrs Hv0 Hv1 w' g'. subst g' w'. unfold exec, result.
  pattern ((startGame now w).1), ((startGame now w).2).
  apply wp_run, (wp_startGame now w r0 r1 [] _ Hrs).
  intros t0 t1 t2 vs n ao rc Hn Hvs Hao Hf. cbn.
  split_and!; try reflexivity.
  - intros i type Hi. exists n.
    eapply freshArtifact_later; [by apply Hf | lia |].
    intros r Hr. store_simpl. reflexivity.
  - repeat (constructor; [by destruct t0, t1, t2; auto|]); constructor.
  - eexists _, _. split; [reflexivity|]. cbn. store_simpl.
    split_and!; try reflexivity; by rewrite Hvs.
Qed.

Lemma startGame_spec_witness :
  timeLeft (gameState (exec (startGame 0) sampleWorld)) = 120%Z /\
  artifacts (gameState (exec (startGame 0) sampleWorld)) = seq 0 36.
Proof.
  destruct (startGame_spec 0 sampleWorld
              (RobotObj.mk red 0 1 0 COLORS_red redControls [] 0 5)
              (RobotObj.mk blue 2 3 PI COLORS_blue blueControls [] 0 5))
    as (_ & (_ & Ht & _) & _ & (Ha & _) & _).
  - exact sampleWorld_robots.
  - rewrite sampleWorld_vnext. cbn. lia.
  - rewrite sampleWorld_vnext. cbn. lia.
  - split; [exact Ht | exact Ha].
Defined.

Lemma startedWorld_reachable : reachable samplePage zeros startedWorld.
Proof. apply reach_frame, reach_boot. Qed.

Lemma startedWorld_running : running (gameState startedWorld) = true.
Proof.
  unfold startedWorld, exec.
  pattern ((update 0 spaceKey sampleWorld).1), ((update 0 spaceKey sampleWorld).2).
  apply (wp_run (update 0 spaceKey) sampleWorld). unfold update. wp_go.
  change (running (gameState sampleWorld)) with false. cbn [negb].
  change (pressed spaceKey "Space") with true. cbv iota.
  eapply wp_startGame; [exact sampleWorld_robots|]. intros. reflexivity.
Qed.


(** ** The clock: the claim *)

Lemma startedWorld_clock :
  timeLeft (gameState startedWorld) = 120%Z /\
  lastTime (gameState startedWorld) = 0%Z.
Proof.
  unfold startedWorld, exec.
  pattern ((update 0 spaceKey sampleWorld).1), ((update 0 spaceKey sampleWorld).2).
  apply (wp_run (update 0 spaceKey) sampleWorld). unfold update. wp_go.
  change (running (gameState sampleWorld)) with false. cbn [negb].
  change (pressed spaceKey "Space") with true. cbv iota.
  eapply wp_startGame; [exact sampleWorld_robots|]. intros. split; reflexivity.
Qed.

(** C3.  In a running match a frame leaves [timeLeft] alone when fewer
    than 1000 ms have elapsed since [lastTime] and decrements it by one
    otherwise, but no frame assigns [lastTime]: at a tick the frame throws
    at line 302, before line 309.  A further call of [update], however
    soon it comes, therefore decrements [timeLeft] again. *)
Theorem update_tick_keeps_lastTime (page : Dom) (source : nat -> Unit01) (w : World)
  (now now' : Z) (input input' : gmap string bool) :
  reachable page source w ->
  running (gameState w) = true ->
  let w1 := exec (update now input) w in
  let w2 := exec (update now' input') w1 in
  lastTime (gameState w1) = lastTime (gameState w) /\
  ((now - lastTime (gameState w) < 1000)%Z ->
   timeLeft (gameState w1) = timeLeft (gameState w)) /\
  ((1000 <= now - lastTime (gameState w))%Z ->
   result (update now input) w = Throw (ReferenceError "gamestate") /\
   timeLeft (gameState w1) = (timeLeft (gameState w) - 1)%Z /\
   ((now <= now')%Z ->
    timeLeft (gameState w2) = (timeLeft (gameState w) - 2)%Z)).
Proof.
  intros Hreach Hrun w1 w2.
  assert (Ht : ticked now w w1).
  { subst w1. unfold exec.
    pattern ((update now input w).1), ((update now input w).2).
    apply (wp_run (update now input) w), wp_update_running;
      [exact Hrun | by eapply reachable_safe | auto]. }
  destruct Ht as (Hr1 & Hl1 & Ht1). split_and!.
  - exact Hl1.
  - intros H. apply Z.leb_gt in H. by rewrite H in Ht1.
  - intros H. split_and!.
    + unfold result. by rewrite (update_tick now input w Hrun H).
    + apply Z.leb_le in H. by rewrite H in Ht1.
    + intros Hn. subst w2. unfold exec at 1.
      rewrite (update_tick now' input' w1 Hr1) by lia. cbn.
      apply Z.leb_le in H. rewrite H in Ht1. lia.
Qed.

Lemma update_tick_keeps_lastTime_witness :
  lastTime (gameState (exec (update 1000 ∅) startedWorld)) = 0%Z /\
  timeLeft (gameState (exec (update 1016 ∅) (exec (update 1000 ∅) startedWorld)))
  = 118%Z.
Proof.
  destruct startedWorld_clock as [Ht Hl].
  destruct (update_tick_keeps_lastTime samplePage zeros startedWorld 1000 1016 ∅ ∅
              startedWorld_reachable startedWorld_running) as (H1 & _ & H3).
  destruct H3 as (_ & _ & H3); [rewrite Hl; lia|].
  split; [by rewrite H1 | rewrite H3 by lia; rewrite Ht; lia].
Defined.

(** ** The second wave: the claim *)



(** ** The recoil: an instance *)

Lemma shoot_recoil_magnitude_witness :
  magnitude
    (Vec.mk
       (Vec.x (vectors holdingWorld 1)
        - Vec.x (vectors (exec (Robot.shoot sampleRed) holdingWorld) 1))
       (Vec.y (vectors holdingWorld 1)
        - Vec.y (vectors (exec (Robot.shoot sampleRed) holdingWorld) 1)))
  = 3%R.
Proof.
  apply (shoot_recoil_magnitude sampleRed 0%nat [] holdingWorld).
  - reflexivity.
  - cbn. lia.
Defined.

(** ** Inventory: the claim *)

Lemma reachable_inventory page source w this :
  reachable page source w ->
  this ∈ robots (gameState w) ->
  (length (RobotObj.inventory this) <= MAX_INVENTORY)%nat.
Proof.
  intros Hreach Hin. apply reachable_safe in Hreach.
  destruct Hreach as [_ _ Hrobots _ _].
  rewrite Forall_forall in Hrobots. by apply Hrobots.
Qed.

(** C7.  A robot whose inventory is empty, with no free artifact within
    [ROBOT_SIZE + 20] of it, runs [action] without any change to the world
    or to itself (the cooldown is set by the caller, [Robot.update]).  In
    every world of a run every robot holds between 0 and [MAX_INVENTORY] = 3
    artifacts. *)
Theorem action_idle_and_inventory_bound :
  (forall this w,
      RobotObj.inventory this = [] ->
      (forall a, a ∈ artifacts (gameState w) ->
                 isFree (artifactObjs w a) = true ->
                 ~ (distance w (RobotObj.pos this) (ArtifactObj.pos (artifactObjs w a))
                    < ROBOT_SIZE + 20)%R) ->
      Robot.action this w = (Ok this, w)) /\
  (forall page source w this,
      reachable page source w ->
      this ∈ robots (gameState w) ->
      (0 <= length (RobotObj.inventory this) <= 3)%nat).
Proof.
  split.
  - intros this w. apply action_idle.
  - intros page source w this Hreach Hin. split; [lia|].
    by eapply reachable_inventory.
Qed.

Lemma action_idle_and_inventory_bound_witness :
  Robot.action sampleBlue holdingWorld = (Ok sampleBlue, holdingWorld) /\
  (0 <= length (RobotObj.inventory sampleBlue) <= 3)%nat.
Proof.
  split.
  - apply (proj1 action_idle_and_inventory_bound sampleBlue holdingWorld).
    + reflexivity.
    + intros a Ha. apply list_elem_of_singleton in Ha as ->. discriminate.
  - cbn. lia.
Defined.

(** ** The field bounds: the claim *)




(** ** Artifact states: the claim *)





(** * Further properties *)

(** ** Vectors *)

(** ** Plane geometry *)

Lemma sumsq_nonneg (x y : R) : (0 <= x * x + y * y)%R.
Proof. pose proof (Rle_0_sqr x). pose proof (Rle_0_sqr y). unfold Rsqr in *. lra. Qed.

Lemma magnitude_nonneg v : (0 <= magnitude v)%R.
Proof. apply sqrt_pos. Qed.

Lemma magnitude_zero v : magnitude v = 0%R <-> v = Vec.mk 0 0.
Proof.
  split.
  - unfold magnitude. intros H. apply sqrt_eq_0 in H; [|apply sumsq_nonneg].
    destruct v as [x y]. cbn in H.
    assert (x = 0%R) by nra. assert (y = 0%R) by nra. by subst.
  - intros ->. unfold magnitude. cbn. rewrite Rmult_0_l, Rplus_0_l. apply sqrt_0.
Qed.


Lemma magnitude_mult x y k :
  magnitude (Vec.mk (x * k) (y * k)) = (Rabs k * magnitude (Vec.mk x y))%R.
Proof.
  unfold magnitude. cbn.
  replace (x * k * (x * k) + y * k * (y * k))%R with (Rsqr k * (x * x + y * y))%R
    by (unfold Rsqr; ring).
  rewrite sqrt_mult; [|apply Rle_0_sqr|apply sumsq_nonneg].
  by rewrite sqrt_Rsqr_abs.
Qed.

Lemma magnitude_flip x y sx sy :
  (sx = 1 \/ sx = -1)%R -> (sy = 1 \/ sy = -1)%R ->
  magnitude (Vec.mk (x * sx) (y * sy)) = magnitude (Vec.mk x y).
Proof.
  intros Hx Hy. unfold magnitude. cbn. f_equal.
  destruct Hx as [-> | ->], Hy as [-> | ->]; ring.
Qed.

Lemma magnitude_triangle a b c d :
  (magnitude (Vec.mk (a + c) (b + d))
   <= magnitude (Vec.mk a b) + magnitude (Vec.mk c d))%R.
Proof.
  unfold magnitude. cbn.
  pose proof (sumsq_nonneg a b) as Hp. pose proof (sumsq_nonneg c d) as Hq.
  assert (Hcs : (a * c + b * d <= sqrt (a * a + b * b) * sqrt (c * c + d * d))%R).
  { rewrite <- sqrt_mult by assumption.
    apply Rle_trans with (Rabs (a * c + b * d)); [apply Rle_abs|].
    rewrite <- sqrt_Rsqr_abs. apply sqrt_le_1_alt.
    replace ((a * a + b * b) * (c * c + d * d))%R
      with (Rsqr (a * c + b * d) + Rsqr (a * d - b * c))%R
      by (unfold Rsqr; ring).
    pose proof (Rle_0_sqr (a * d - b * c)). lra. }
  apply Rsqr_incr_0_var.
  - rewrite Rsqr_sqrt by apply sumsq_nonneg.
    unfold Rsqr.
    replace ((sqrt (a * a + b * b) + sqrt (c * c + d * d))
             * (sqrt (a * a + b * b) + sqrt (c * c + d * d)))%R
      with (sqrt (a * a + b * b) * sqrt (a * a + b * b)
            + sqrt (c * c + d * d) * sqrt (c * c + d * d)
            + 2 * (sqrt (a * a + b * b) * sqrt (c * c + d * d)))%R by ring.
    rewrite !sqrt_sqrt by assumption.
    replace ((a + c) * (a + c) + (b + d) * (b + d))%R
      with (a * a + b * b + (c * c + d * d) + 2 * (a * c + b * d))%R by ring.
    lra.
  - pose proof (sqrt_pos (a * a + b * b)). pose proof (sqrt_pos (c * c + d * d)). lra.
Qed.

Lemma distance_magnitude w p q :
  distance w p q
  = magnitude (Vec.mk (Vec.x (vectors w p) - Vec.x (vectors w q))
                      (Vec.y (vectors w p) - Vec.y (vectors w q))).
Proof. unfold distance, magnitude. cbn. f_equal. ring. Qed.

Lemma Vec_eq (u v : Vec.t) : Vec.x u = Vec.x v -> Vec.y u = Vec.y v -> u = v.
Proof. destruct u, v. cbn. by intros -> ->. Qed.


Lemma distance_sym w p q : distance w p q = distance w q p.
Proof. unfold distance. f_equal. ring. Qed.

Lemma distance_triangle w p q r :
  (distance w p r <= distance w p q + distance w q r)%R.
Proof.
  rewrite !distance_magnitude.
  etrans; [|apply magnitude_triangle]. apply Req_le. f_equal. f_equal; ring.
Qed.

(** X2.  [Vector2.dist] only reads: it returns the distance and leaves the
    world as it is.  The distance is not negative, it is 0 exactly between
    equal vectors, it is the same in both directions and it obeys the
    triangle inequality. *)
Theorem dist_metric (a b c : vref) (w : World) :
  Vector2.dist a b w = (Ok (distance w a b), w) /\
  (0 <= distance w a b)%R /\
  (distance w a b = 0%R <-> vectors w a = vectors w b) /\
  distance w a b = distance w b a /\
  (distance w a c <= distance w a b + distance w b c)%R.
Proof.
  split_and!.
  - reflexivity.
  - apply sqrt_pos.
  - rewrite distance_magnitude, magnitude_zero. split.
    + intros H. apply Vec_eq.
      * apply (f_equal Vec.x) in H. cbn in H. lra.
      * apply (f_equal Vec.y) in H. cbn in H. lra.
    + intros ->. f_equal; ring.
  - apply distance_sym.
  - apply distance_triangle.
Qed.

(** ** Particles *)

Lemma wp_Particle_new_exact x y c s l w Q :
  (forall vs,
      vs (vnext w) = Vec.mk x y ->
      vs (S (vnext w))
      = burstVelocity (randomSource w (randomCount w))
                      (randomSource w (S (randomCount w))) s ->
      (forall r, r <> vnext w -> r <> S (vnext w) -> vs r = vectors w r) ->
      Q (Ok (ParticleObj.mk (vnext w) (S (vnext w)) c l l))
        (mkWorld (gameState w) vs (S (S (vnext w))) (artifactObjs w) (anext w)
           (dom w) (randomSource w) (S (S (randomCount w))))) ->
  wp (Particle.new x y c s l) w Q.
Proof.
  intros HQ. unfold Particle.new. wp_go.
  fold (magnitude (Vec.mk (randomSource w (randomCount w) - 0.5)
                          (randomSource w (S (randomCount w)) - 0.5))).
  wp_case; wp_go; apply HQ; store_simpl.
  all: try reflexivity.
  all: try (intros; store_simpl; reflexivity).
  all: unfold burstVelocity; cbn; destruct (decide _).
  all: first [reflexivity | exfalso; unfold magnitude in *; cbn in *; lra].
Qed.

Lemma burst_O x y c w : burst x y c 0 w w.
Proof.
  exists [], (vectors w). cbn. rewrite app_nil_r. split_and!; auto.
  intros i p H. by rewrite lookup_nil in H.
Qed.

Lemma wp_spawnParticles_exact x y c k w Q :
  (forall w', burst x y c k w w' -> Q (Ok tt) w') ->
  wp (spawnParticles x y c k) w Q.
Proof.
  unfold spawnParticles. revert w Q. induction k as [|k IH]; intros w Q HQ.
  - apply wp_repeatM_O, HQ, burst_O.
  - apply wp_repeatM_S. wp_step. wp_step.
    apply wp_Particle_new_exact. intros vs Hp Hv Hvs. cbv beta iota.
    wp_go. apply IH. intros w2 (ps2 & vs2 & -> & Hlen & Hold & Hps). cbn in *.
    apply HQ.
    exists (ParticleObj.mk (vnext w) (S (vnext w)) c 30 30 :: ps2), vs2. cbn.
    split_and!.
    + rewrite <- app_assoc. cbn. f_equal; lia.
    + by rewrite Hlen.
    + intros r Hr. rewrite Hold by lia. apply Hvs; lia.
    + intros [|i] p Hi; cbn in Hi.
      * injection Hi as <-. cbn. split_and!; [reflexivity | |].
        -- rewrite Hold by lia. exact Hp.
        -- rewrite Hold by lia. exact Hv.
      * destruct (Hps i p Hi) as (-> & H1 & H2).
        replace (S i + S i + vnext w)%nat with (i + i + S (S (vnext w)))%nat by lia.
        replace (S i + S i + randomCount w)%nat with (i + i + S (S (randomCount w)))%nat by lia.
        split_and!; [reflexivity | exact H1 | exact H2].
Qed.

Lemma burstVelocity_speed rx ry s :
  (rx = 0.5%R /\ ry = 0.5%R -> burstVelocity rx ry s = Vec.mk 0 0) /\
  (~ (rx = 0.5%R /\ ry = 0.5%R) -> magnitude (burstVelocity rx ry s) = Rabs s).
Proof.
  unfold burstVelocity. cbv zeta. set (d := Vec.mk (rx - 0.5) (ry - 0.5)).
  assert (Hd : d = Vec.mk 0 0 <-> rx = 0.5%R /\ ry = 0.5%R).
  { unfold d. split.
    - intros H. split.
      + apply (f_equal Vec.x) in H. cbn in H. lra.
      + apply (f_equal Vec.y) in H. cbn in H. lra.
    - intros [-> ->]. f_equal; lra. }
  split.
  - intros H. apply Hd in H. destruct (decide _) as [Hm|Hm].
    + apply magnitude_zero in H. lra.
    + rewrite H. cbn. f_equal; ring.
  - intros H. destruct (decide _) as [Hm|Hm].
    + rewrite magnitude_mult, magnitude_mult.
      change (Vec.mk (Vec.x d) (Vec.y d)) with d.
      rewrite (Rabs_right (1 / magnitude d)).
      * field. lra.
      * apply Rle_ge, Rlt_le, Rdiv_lt_0_compat; lra.
    + exfalso. apply H, Hd. apply magnitude_zero.
      pose proof (magnitude_nonneg d). lra.
Qed.

(** X3.  The [Particle] constructor allocates two vectors, the position
    [(x, y)] and the velocity, and uses two random draws.  The velocity has
    magnitude [|speed|], except when both draws are 0.5: it is then the
    zero vector.  The particle has the given colour, and its [life] and
    [maxLife] are the given life.  No vector that existed and nothing else
    of the world changes. *)
Theorem Particle_new_speed (x y : R) (c : string) (s : R) (l : Z) (w : World) :
  let rx : R := randomSource w (randomCount w) in
  let ry : R := randomSource w (S (randomCount w)) in
  let w' := exec (Particle.new x y c s l) w in
  exists p,
    result (Particle.new x y c s l) w = Ok p /\
    (ParticleObj.color p = c /\ ParticleObj.life p = l /\ ParticleObj.maxLife p = l) /\
    (ParticleObj.pos p = vnext w /\ ParticleObj.vel p = S (vnext w) /\
     vnext w' = S (S (vnext w))) /\
    vectors w' (ParticleObj.pos p) = Vec.mk x y /\
    (rx = 0.5%R /\ ry = 0.5%R -> vectors w' (ParticleObj.vel p) = Vec.mk 0 0) /\
    (~ (rx = 0.5%R /\ ry = 0.5%R) ->
     magnitude (vectors w' (ParticleObj.vel p)) = Rabs s) /\
    (forall r, (r < vnext w)%nat -> vectors w' r = vectors w r) /\
    randomCount w' = S (S (randomCount w)) /\
    gameState w' = gameState w /\ dom w' = dom w /\
    artifactObjs w' = artifactObjs w.
Proof.
  intros rx ry w'. subst w'. unfold exec, result.
  pattern ((Particle.new x y c s l w).1), ((Particle.new x y c s l w).2).
  apply (wp_run (Particle.new x y c s l) w), wp_Particle_new_exact.
  intros vs Hp Hv Hvs. eexists. split; [reflexivity|]. cbn.
  destruct (burstVelocity_speed rx ry s) as [H0 H1].
  split_and!; try reflexivity; try exact Hp.
  - intros H. rewrite Hv. by apply H0.
  - intros H. rewrite Hv. by apply H1.
  - intros r Hr. apply Hvs; lia.
Qed.

(** X4.  [spawnParticles x y c k] returns normally and appends exactly [k]
    particles to the collection, each of colour [c] with 30 frames to live,
    at [(x, y)], on newly allocated vectors, at speed 4 (or at rest, when
    its two draws are both 0.5).  It allocates [2 k] vectors, uses [2 k]
    draws and changes nothing else. *)
Theorem spawnParticles_appends (x y : R) (c : string) (k : nat) (w : World) :
  let w' := exec (spawnParticles x y c k) w in
  result (spawnParticles x y c k) w = Ok tt /\
  (exists ps,
      particles (gameState w') = particles (gameState w) ++ ps /\
      length ps = k /\
      Forall (fun p =>
                ParticleObj.color p = c /\
                ParticleObj.life p = 30%Z /\ ParticleObj.maxLife p = 30%Z /\
                (vnext w <= ParticleObj.pos p < vnext w')%nat /\
                (vnext w <= ParticleObj.vel p < vnext w')%nat /\
                vectors w' (ParticleObj.pos p) = Vec.mk x y /\
                (magnitude (vectors w' (ParticleObj.vel p)) = 4%R \/
                 vectors w' (ParticleObj.vel p) = Vec.mk 0 0)) ps) /\
  (forall r, (r < vnext w)%nat -> vectors w' r = vectors w r) /\
  vnext w' = (2 * k + vnext w)%nat /\
  randomCount w' = (2 * k + randomCount w)%nat /\
  g_particles (particles (gameState w)) (gameState w') = gameState w /\
  artifactObjs w' = artifactObjs w /\ anext w' = anext w /\ dom w' = dom w.
Proof.
  intros w'. subst w'. unfold exec, result.
  pattern ((spawnParticles x y c k w).1), ((spawnParticles x y c k w).2).
  apply (wp_run (spawnParticles x y c k) w), wp_spawnParticles_exact.
  intros w' (ps & vs & -> & Hlen & Hold & Hps). cbn.
  split_and!; try reflexivity; try lia; try exact Hold.
  exists ps. split_and!; [reflexivity | exact Hlen |].
  apply Forall_lookup_2. intros i p Hi.
  pose proof (lookup_lt_Some _ _ _ Hi) as Hlt.
  destruct (Hps i p Hi) as (-> & H1 & H2). cbn.
  split_and!; try reflexivity; try lia; [exact H1|].
  rewrite H2.
  destruct (burstVelocity_speed (randomSource w (i + i + randomCount w))
              (randomSource w (S (i + i + randomCount w))) 4) as [H0 Hm].
  destruct (Req_dec_T (randomSource w (i + i + randomCount w)) 0.5) as [E1|E1];
    [destruct (Req_dec_T (randomSource w (S (i + i + randomCount w))) 0.5) as [E2|E2]|].
  - right. by apply H0.
  - left. rewrite Hm by tauto. apply Rabs_right. lra.
  - left. rewrite Hm by tauto. apply Rabs_right. lra.
Qed.

(** ** The particle loop *)

Lemma survivors_app ps qs : survivors (ps ++ qs) = survivors ps ++ survivors qs.
Proof. unfold survivors. by rewrite map_app, filter_app. Qed.

Lemma survivors_one p :
  survivors [p] = if (ParticleObj.life p - 1 <=? 0)%Z then [] else [aged p].
Proof.
  unfold survivors. cbn. unfold filter, list_filter. cbn.
  destruct (decide _) as [H|H]; destruct (Z.leb_spec (ParticleObj.life p - 1) 0);
    try reflexivity; lia.
Qed.

Lemma particleRefs_app ps qs : particleRefs (ps ++ qs) = particleRefs ps ++ particleRefs qs.
Proof. unfold particleRefs. by rewrite flat_map_app. Qed.

Lemma take_take_app {A} i (l rest : list A) :
  (i <= length l)%nat -> take i (take i l ++ rest) = take i l.
Proof.
  intros H. rewrite take_app_le by (rewrite length_take; lia).
  rewrite take_take. f_equal. lia.
Qed.

Lemma drop_take_app {A} i (l rest : list A) :
  (i <= length l)%nat -> drop i (take i l ++ rest) = rest.
Proof.
  intros H. rewrite drop_app_ge by (rewrite length_take; lia).
  rewrite length_take. replace (i - i `min` length l)%nat with 0%nat by lia.
  apply drop_0.
Qed.

Lemma wp_Particle_update_exact p w Q :
  (forall vs,
      (forall r, r <> ParticleObj.pos p -> r <> ParticleObj.vel p -> vs r = vectors w r) ->
      (ParticleObj.pos p <> ParticleObj.vel p ->
       vs (ParticleObj.pos p)
       = Vec.mk (Vec.x (vectors w (ParticleObj.pos p)) + Vec.x (vectors w (ParticleObj.vel p)))
                (Vec.y (vectors w (ParticleObj.pos p)) + Vec.y (vectors w (ParticleObj.vel p))) /\
       vs (ParticleObj.vel p)
       = Vec.mk (Vec.x (vectors w (ParticleObj.vel p)) * 0.95)
                (Vec.y (vectors w (ParticleObj.vel p)) * 0.95)) ->
      Q (Ok (aged p)) (w_vectors vs w)) ->
  wp (Particle.update p) w Q.
Proof.
  intros HQ. unfold Particle.update. wp_go. apply HQ.
  - intros r H1 H2. by rewrite !store_set_ne by done.
  - intros Hne. rewrite store_set_eq, (store_set_ne _ _ _ (ParticleObj.pos p)) by done.
    rewrite store_set_eq, (store_set_ne _ _ _ (ParticleObj.vel p)) by done.
    done.
Qed.

Lemma wp_particleLoop_exact i w Q :
  (i <= length (particles (gameState w)))%nat ->
  (forall vs,
      (forall r, r ∉ particleRefs (take i (particles (gameState w))) ->
                 vs r = vectors w r) ->
      (NoDup (particleRefs (take i (particles (gameState w)))) ->
       forall p, p ∈ take i (particles (gameState w)) ->
         vs (ParticleObj.pos p)
         = Vec.mk (Vec.x (vectors w (ParticleObj.pos p)) + Vec.x (vectors w (ParticleObj.vel p)))
                  (Vec.y (vectors w (ParticleObj.pos p)) + Vec.y (vectors w (ParticleObj.vel p))) /\
         vs (ParticleObj.vel p)
         = Vec.mk (Vec.x (vectors w (ParticleObj.vel p)) * 0.95)
                  (Vec.y (vectors w (ParticleObj.vel p)) * 0.95)) ->
      Q (Ok tt)
        (mkWorld
           (g_particles
              (survivors (take i (particles (gameState w)))
               ++ drop i (particles (gameState w)))
              (gameState w))
           vs (vnext w) (artifactObjs w) (anext w) (dom w) (randomSource w)
           (randomCount w))) ->
  wp (particleLoop i) w Q.
Proof.
  revert w Q. induction i as [|i IH]; intros w Q Hi HQ.
  - unfold particleLoop. wp_go. specialize (HQ (vectors w)).
    rewrite take_0, drop_0 in HQ. cbn in HQ. apply HQ; [done|].
    intros _ p Hp. by apply elem_of_nil in Hp.
  - unfold particleLoop. fold particleLoop. wp_go.
    destruct (lookup_lt_is_Some_2 (particles (gameState w)) i) as [p Hp]; [lia|].
    rewrite Hp. wp_step. apply wp_Particle_update_exact.
    intros vs1 Hvs1 Hp1. cbv beta iota. wp_go.
    set (ps := particles (gameState w)) in *.
    assert (Htake : take (S i) ps = take i ps ++ [p]) by (by apply take_S_r).
    rewrite Htake in HQ. rewrite survivors_app, survivors_one, particleRefs_app in HQ.
    cbn [particleRefs flat_map app] in HQ.
    assert (Hlist : forall rest : list ParticleObj.t,
               take i (take i ps ++ rest) = take i ps /\
               drop i (take i ps ++ rest) = rest).
    { intros rest. split; [apply take_take_app | apply drop_take_app]; lia. }
    assert (Hgo : forall vs,
               (forall r, r ∉ particleRefs (take i ps) -> vs r = vs1 r) ->
               (NoDup (particleRefs (take i ps)) ->
                forall q, q ∈ take i ps ->
                  vs (ParticleObj.pos q)
                  = Vec.mk (Vec.x (vs1 (ParticleObj.pos q)) + Vec.x (vs1 (ParticleObj.vel q)))
                           (Vec.y (vs1 (ParticleObj.pos q)) + Vec.y (vs1 (ParticleObj.vel q))) /\
                  vs (ParticleObj.vel q)
                  = Vec.mk (Vec.x (vs1 (ParticleObj.vel q)) * 0.95)
                           (Vec.y (vs1 (ParticleObj.vel q)) * 0.95)) ->
               Q (Ok tt)
                 (mkWorld
                    (g_particles
                       ((survivors (take i ps)
                         ++ (if (ParticleObj.life p - 1 <=? 0)%Z then [] else [aged p]))
                        ++ drop (S i) ps)
                       (gameState w))
                    vs (vnext w) (artifactObjs w) (anext w) (dom w) (randomSource w)
                    (randomCount w))).
    { intros vs Hfr Hnd. apply HQ.
      - intros r Hr. rewrite not_elem_of_app in Hr. destruct Hr as [Hr1 Hr2].
        rewrite Hfr by exact Hr1.
        apply not_elem_of_cons in Hr2 as [Hr2 Hr3].
        apply not_elem_of_cons in Hr3 as [Hr3 _]. by apply Hvs1.
      - intros HND q Hq.
        apply NoDup_app in HND as (HND1 & Hdisj & HND2).
        assert (Hpv : ParticleObj.pos p <> ParticleObj.vel p).
        { apply NoDup_cons in HND2 as [Hn _]. intros E. apply Hn. rewrite E. left. }
        assert (Hout : forall r, r ∈ particleRefs (take i ps) ->
                                 r <> ParticleObj.pos p /\ r <> ParticleObj.vel p).
        { intros r Hr. split; intros ->; apply (Hdisj _ Hr); [left | right; left]. }
        apply elem_of_app in Hq as [Hq|Hq].
        + destruct (Hnd HND1 q Hq) as [H1 H2].
          assert (Hqp : ParticleObj.pos q ∈ particleRefs (take i ps)).
          { apply list_elem_of_In, in_flat_map. exists q.
            split; [by apply list_elem_of_In | left; reflexivity]. }
          assert (Hqv : ParticleObj.vel q ∈ particleRefs (take i ps)).
          { apply list_elem_of_In, in_flat_map. exists q.
            split; [by apply list_elem_of_In | right; left; reflexivity]. }
          destruct (Hout _ Hqp), (Hout _ Hqv).
          rewrite H1, H2. by rewrite !Hvs1 by done.
        + apply list_elem_of_singleton in Hq as ->.
          assert (Hnp : ParticleObj.pos p ∉ particleRefs (take i ps)).
          { intros Hin. apply (Hdisj _ Hin). left. }
          assert (Hnv : ParticleObj.vel p ∉ particleRefs (take i ps)).
          { intros Hin. apply (Hdisj _ Hin). right. left. }
          rewrite !Hfr by done. by apply Hp1. }
    wp_case; wp_go.
    + apply IH; cbn.
      { rewrite length_delete by (by eexists). fold ps. lia. }
      fold ps. rewrite delete_take_drop.
      destruct (Hlist (drop (S i) ps)) as [-> ->].
      intros vs Hfr Hnd.
      specialize (Hgo vs Hfr Hnd). rewrite app_nil_r in Hgo. exact Hgo.
    + apply IH; cbn.
      { rewrite length_insert. fold ps. lia. }
      fold ps. rewrite insert_take_drop by lia.
      destruct (Hlist (aged p :: drop (S i) ps)) as [-> ->].
      intros vs Hfr Hnd.
      specialize (Hgo vs Hfr Hnd). rewrite <- app_assoc in Hgo. exact Hgo.
Qed.

(** X5.  The particle loop of [update] (lines 355-359), which walks the
    collection backwards and splices while it walks, returns normally and
    ages every particle exactly once: the collection afterwards is the old
    one with each life lowered by 1 and without the particles whose life
    reached 0, in the old order.  A vector of no particle is untouched, and
    when the particles share no vector each position has moved by the
    velocity and each velocity is scaled by 0.95.  Nothing but the
    particle collection and the vectors changes. *)
Theorem particleLoop_ages_all (w : World) :
  let ps := particles (gameState w) in
  let w' := exec (particleLoop (length ps)) w in
  result (particleLoop (length ps)) w = Ok tt /\
  particles (gameState w')
  = filter (fun p => (0 < ParticleObj.life p)%Z) (map aged ps) /\
  g_particles ps (gameState w') = gameState w /\
  (forall r, r ∉ particleRefs ps -> vectors w' r = vectors w r) /\
  (NoDup (particleRefs ps) ->
   forall p, p ∈ ps ->
     vectors w' (ParticleObj.pos p)
     = Vec.mk (Vec.x (vectors w (ParticleObj.pos p)) + Vec.x (vectors w (ParticleObj.vel p)))
              (Vec.y (vectors w (ParticleObj.pos p)) + Vec.y (vectors w (ParticleObj.vel p))) /\
     vectors w' (ParticleObj.vel p)
     = Vec.mk (Vec.x (vectors w (ParticleObj.vel p)) * 0.95)
              (Vec.y (vectors w (ParticleObj.vel p)) * 0.95)) /\
  w_vectors (vectors w) (w_gameState (gameState w) w') = w.
Proof.
  intros ps w'. subst w'. unfold exec, result.
  pattern ((particleLoop (length ps) w).1), ((particleLoop (length ps) w).2).
  apply (wp_run (particleLoop (length ps)) w), wp_particleLoop_exact; [done|].
  fold ps. rewrite firstn_all, drop_all, app_nil_r.
  intros vs Hfr Hnd. cbn. split_and!; try reflexivity; assumption.
Qed.

(** ** Artifacts *)

(** Symbolic execution up to the next conditional. *)
Ltac wp_walk :=
  repeat (lazymatch goal with
          | |- wp (match _ with _ => _ end) _ _ => fail
          | |- wp _ _ _ => idtac
          end;
          wp_step; try (cbn -[wp]; store_simpl; cbn -[wp])).

Lemma wp_Artifact_update_free a w Q :
  let o := artifactObjs w a in
  let p := vectors w (ArtifactObj.pos o) in
  let v := vectors w (ArtifactObj.vel o) in
  ArtifactObj.held o = false ->
  ArtifactObj.scored o = false ->
  ArtifactObj.pos o <> ArtifactObj.vel o ->
  (forall vs,
      vs (ArtifactObj.pos o) = Vec.mk (Vec.x p + Vec.x v) (Vec.y p + Vec.y v) ->
      vs (ArtifactObj.vel o) = bounce (Vec.mk (Vec.x p + Vec.x v) (Vec.y p + Vec.y v)) v ->
      (forall r, r <> ArtifactObj.pos o -> r <> ArtifactObj.vel o -> vs r = vectors w r) ->
      Q (Ok tt) (w_vectors vs w)) ->
  wp (Artifact.update a) w Q.
Proof.
  intros o p v Hh Hs Hne HQ. unfold Artifact.update. wp_walk.
  fold o. rewrite Hh, Hs. wp_walk. fold p v.
  change (bool_decide (Vec.x p + Vec.x v < ARTIFACT_RADIUS)%R
          || bool_decide (FIELD_WIDTH - ARTIFACT_RADIUS < Vec.x p + Vec.x v)%R)
    with (beyondWall FIELD_WIDTH (Vec.x p + Vec.x v)).
  destruct (beyondWall FIELD_WIDTH (Vec.x p + Vec.x v)) eqn:Ex; wp_walk.
  all: change (bool_decide (Vec.y p + Vec.y v < ARTIFACT_RADIUS)%R
          || bool_decide (FIELD_HEIGHT - ARTIFACT_RADIUS < Vec.y p + Vec.y v)%R)
    with (beyondWall FIELD_HEIGHT (Vec.y p + Vec.y v)).
  all: destruct (beyondWall FIELD_HEIGHT (Vec.y p + Vec.y v)) eqn:Ey; wp_walk.
  all: apply HQ.
  all: try (intros r H1 H2; by rewrite !store_set_ne by done).
  all: store_simpl; try reflexivity.
  all: unfold bounce; cbn; rewrite Ex, Ey; reflexivity.
Qed.

Lemma wp_outcome {A} (m : M A) w (P : Result A -> World -> Prop) :
  wp m w P -> exists r w', m w = (r, w') /\ P r w'.
Proof. unfold wp. destruct (m w) as [r w']. cbn. eauto. Qed.

Lemma Artifact_update_free_run a w :
  let o := artifactObjs w a in
  let p := vectors w (ArtifactObj.pos o) in
  let v := vectors w (ArtifactObj.vel o) in
  let p' := Vec.mk (Vec.x p + Vec.x v) (Vec.y p + Vec.y v) in
  ArtifactObj.held o = false ->
  ArtifactObj.scored o = false ->
  ArtifactObj.pos o <> ArtifactObj.vel o ->
  exists vs,
    Artifact.update a w = (Ok tt, w_vectors vs w) /\
    vs (ArtifactObj.pos o) = p' /\
    vs (ArtifactObj.vel o) = bounce p' v /\
    (forall r, r <> ArtifactObj.pos o -> r <> ArtifactObj.vel o -> vs r = vectors w r).
Proof.
  intros o p v p' Hh Hs Hne.
  destruct (wp_outcome (Artifact.update a) w
              (fun r w' => exists vs, r = Ok tt /\ w' = w_vectors vs w /\
                 vs (ArtifactObj.pos o) = p' /\
                 vs (ArtifactObj.vel o) = bounce p' v /\
                 (forall r, r <> ArtifactObj.pos o -> r <> ArtifactObj.vel o ->
                            vs r = vectors w r)))
    as (r & w' & E & vs & -> & -> & H).
  { apply wp_Artifact_update_free; try done. intros vs H1 H2 H3. by exists vs. }
  by exists vs.
Qed.

Lemma bounce_speed p v : magnitude (bounce p v) = (0.98 * magnitude v)%R.
Proof.
  unfold bounce.
  assert (E : forall (bx by_ : bool),
             magnitude (Vec.mk (if bx then Vec.x v * 0.98 * -1 else Vec.x v * 0.98)
                               (if by_ then Vec.y v * 0.98 * -1 else Vec.y v * 0.98))
             = magnitude (Vec.mk (Vec.x v * 0.98) (Vec.y v * 0.98))).
  { intros bx by_.
    replace (if bx then Vec.x v * 0.98 * -1 else Vec.x v * 0.98)%R
      with (Vec.x v * 0.98 * (if bx then -1 else 1))%R by (destruct bx; ring).
    replace (if by_ then Vec.y v * 0.98 * -1 else Vec.y v * 0.98)%R
      with (Vec.y v * 0.98 * (if by_ then -1 else 1))%R by (destruct by_; ring).
    apply magnitude_flip; [destruct bx | destruct by_]; auto. }
  rewrite E, magnitude_mult, Rabs_right by lra. reflexivity.
Qed.

(** X6.  [Artifact.update] returns normally.  On a held or scored
    artifact it does nothing.  On a free one it moves the position by the
    velocity, scales the velocity by 0.98 and then flips the sign of each
    velocity component whose coordinate is less than [ARTIFACT_RADIUS] from
    a wall or beyond it; the speed is therefore 0.98 times the old speed,
    the position is not clamped, and no other vector and nothing but
    vectors changes. *)
Theorem Artifact_update_physics (a : aref) (w : World) :
  let o := artifactObjs w a in
  let p := vectors w (ArtifactObj.pos o) in
  let v := vectors w (ArtifactObj.vel o) in
  let p' := Vec.mk (Vec.x p + Vec.x v) (Vec.y p + Vec.y v) in
  let w' := exec (Artifact.update a) w in
  result (Artifact.update a) w = Ok tt /\
  (ArtifactObj.held o = true \/ ArtifactObj.scored o = true -> w' = w) /\
  (ArtifactObj.held o = false -> ArtifactObj.scored o = false ->
   ArtifactObj.pos o <> ArtifactObj.vel o ->
   vectors w' (ArtifactObj.pos o) = p' /\
   vectors w' (ArtifactObj.vel o)
   = Vec.mk (if beyondWall FIELD_WIDTH (Vec.x p') then Vec.x v * 0.98 * -1
             else Vec.x v * 0.98)
            (if beyondWall FIELD_HEIGHT (Vec.y p') then Vec.y v * 0.98 * -1
             else Vec.y v * 0.98) /\
   magnitude (vectors w' (ArtifactObj.vel o)) = (0.98 * magnitude v)%R /\
   (forall r, r <> ArtifactObj.pos o -> r <> ArtifactObj.vel o ->
              vectors w' r = vectors w r) /\
   w_vectors (vectors w) w' = w).
Proof.
  intros o p v p' w'. subst w'. split_and!.
  - unfold result.
    pattern ((Artifact.update a w).1), ((Artifact.update a w).2).
    apply (wp_run (Artifact.update a) w). unfold Artifact.update. wp_walk.
    repeat (wp_case; wp_walk); reflexivity.
  - intros H. unfold exec.
    pattern ((Artifact.update a w).1), ((Artifact.update a w).2).
    apply (wp_run (Artifact.update a) w). unfold Artifact.update. wp_walk. fold o.
    destruct (ArtifactObj.scored o) eqn:Hs; [wp_walk; reflexivity|].
    destruct (ArtifactObj.held o) eqn:Hh; [wp_walk; reflexivity|].
    by destruct H.
  - intros Hh Hs Hne.
    destruct (Artifact_update_free_run a w Hh Hs Hne) as (vs & E & H1 & H2 & H3).
    unfold exec. rewrite E. cbn. subst p' v p o.
    split_and!; [exact H1 | exact H2 | | exact H3 | reflexivity].
    rewrite H2. apply bounce_speed.
Qed.

Lemma trappedLeft_step a w :
  let o := artifactObjs w a in
  ArtifactObj.held o = false ->
  ArtifactObj.scored o = false ->
  ArtifactObj.pos o <> ArtifactObj.vel o ->
  trappedLeft (Vec.x (vectors w (ArtifactObj.pos o)))
              (Vec.x (vectors w (ArtifactObj.vel o))) ->
  let w' := exec (Artifact.update a) w in
  artifactObjs w' = artifactObjs w /\
  (Vec.x (vectors w' (ArtifactObj.pos o)) < ARTIFACT_RADIUS)%R /\
  trappedLeft (Vec.x (vectors w' (ArtifactObj.pos o)))
              (Vec.x (vectors w' (ArtifactObj.vel o))).
Proof.
  intros o Hh Hs Hne Ht w'. subst w'.
  destruct (Artifact_update_free_run a w Hh Hs Hne) as (vs & E & H1 & H2 & H3).
  unfold exec. rewrite E. cbn. subst o. rewrite H1, H2. cbn.
  set (x := Vec.x (vectors w (ArtifactObj.pos (artifactObjs w a)))) in *.
  set (vx := Vec.x (vectors w (ArtifactObj.vel (artifactObjs w a)))) in *.
  assert (Hx : (x + vx < ARTIFACT_RADIUS)%R).
  { destruct Ht as [[? ?]|[? ?]]; unfold ARTIFACT_RADIUS in *; lra. }
  assert (Hb : beyondWall FIELD_WIDTH (x + vx) = true).
  { unfold beyondWall. rewrite bool_decide_eq_true_2 by exact Hx. reflexivity. }
  rewrite Hb. split_and!; [reflexivity | exact Hx |].
  unfold trappedLeft, ARTIFACT_RADIUS in *.
  destruct Ht as [[? ?]|[? ?]]; [right | left]; lra.
Qed.

Lemma trappedLeft_iter a w n :
  let o := artifactObjs w a in
  ArtifactObj.held o = false ->
  ArtifactObj.scored o = false ->
  ArtifactObj.pos o <> ArtifactObj.vel o ->
  trappedLeft (Vec.x (vectors w (ArtifactObj.pos o)))
              (Vec.x (vectors w (ArtifactObj.vel o))) ->
  let w' := Nat.iter n (exec (Artifact.update a)) w in
  artifactObjs w' = artifactObjs w /\
  trappedLeft (Vec.x (vectors w' (ArtifactObj.pos o)))
              (Vec.x (vectors w' (ArtifactObj.vel o))).
Proof.
  intros o Hh Hs Hne Ht. induction n as [|n [IH1 IH2]]; [by split|].
  rewrite Nat.iter_succ. set (w1 := Nat.iter n (exec (Artifact.update a)) w) in *.
  destruct (trappedLeft_step a w1) as (H1 & _ & H3); rewrite ?IH1; try done.
  rewrite IH1 in H3. split; [by rewrite H1 | exact H3].
Qed.

(** X7.  A free artifact that moves left with
    [x + 0.02 * vx < ARTIFACT_RADIUS], in particular every artifact left
    of the wall test that moves left, never comes back: the test of line
    208 flips the velocity on every frame that the artifact spends beyond
    the wall, not only when it heads out, so the artifact turns around
    each frame with a shorter step, and its [x] is below [ARTIFACT_RADIUS]
    after any number of updates. *)
Theorem Artifact_update_wall_trap (a : aref) (w : World) (n : nat) :
  let o := artifactObjs w a in
  ArtifactObj.held o = false ->
  ArtifactObj.scored o = false ->
  ArtifactObj.pos o <> ArtifactObj.vel o ->
  (Vec.x (vectors w (ArtifactObj.vel o)) < 0)%R ->
  (Vec.x (vectors w (ArtifactObj.pos o)) + 0.02 * Vec.x (vectors w (ArtifactObj.vel o))
   < ARTIFACT_RADIUS)%R ->
  (Vec.x (vectors (Nat.iter (S n) (exec (Artifact.update a)) w) (ArtifactObj.pos o))
   < ARTIFACT_RADIUS)%R.
Proof.
  intros o Hh Hs Hne Hv Hx.
  destruct (trappedLeft_iter a w n Hh Hs Hne) as [H1 H2]; [by left|].
  rewrite Nat.iter_succ. set (w1 := Nat.iter n (exec (Artifact.update a)) w) in *.
  destruct (trappedLeft_step a w1) as (_ & H & _); rewrite ?H1; try done.
  by rewrite H1 in H.
Qed.

(** ** The push of a robot *)



(** ** Robots *)

Lemma movement_run input this w :
  let t := thrust input (RobotObj.controls this) in
  let v := vectors w (RobotObj.vel this) in
  (RobotObj.vel this < vnext w)%nat ->
  exists vs,
    Robot.movement input this w
    = (Ok (steered input this v), w_vnext (S (vnext w)) (w_vectors vs w)) /\
    (forall k, (k < vnext w)%nat -> k <> RobotObj.vel this -> vs k = vectors w k) /\
    vs (RobotObj.vel this) = accelerated t v.
Proof.
  intros t v Hv.
  destruct (wp_outcome (Robot.movement input this) w
    (fun r w' => exists vs,
       r = Ok (steered input this v) /\
       w' = w_vnext (S (vnext w)) (w_vectors vs w) /\
       (forall k, (k < vnext w)%nat -> k <> RobotObj.vel this -> vs k = vectors w k) /\
       vs (RobotObj.vel this) = accelerated t v))
    as (r & w' & E & vs & -> & -> & H); [|by exists vs].
  unfold Robot.movement, steered, accelerated. subst t. unfold thrust.
  destruct (pressed input (key_up (RobotObj.controls this))),
    (pressed input (key_down (RobotObj.controls this))),
    (pressed input (key_left (RobotObj.controls this))),
    (pressed input (key_right (RobotObj.controls this))).
  all: cbv zeta; wp_walk.
  all: match goal with
       | |- wp (if @decide (Rlt 0 ?m) _ then _ else _) _ ?P =>
           match P with
           | context [@decide (Rlt 0 ?m') ?I] =>
               change m with m'; destruct (@decide (Rlt 0 m') I) as [Hm|Hm]
           end
       end; wp_walk.
  all: try (match goal with
            | |- wp (if @decide (Rlt 0 ?m) ?I then _ else _) _ _ =>
                destruct (@decide (Rlt 0 m) I) as [Hm2|Hm2];
                [|exfalso; apply Hm2; exact Hm]
            end; wp_walk).
  all: eexists; split_and!; [ | reflexivity | intros k Hk Hne; by store_simpl | ].
  all: store_simpl; fold v; reflexivity.
Qed.

Lemma steered_fields input this v :
  RobotObj.id (steered input this v) = RobotObj.id this /\
  RobotObj.pos (steered input this v) = RobotObj.pos this /\
  RobotObj.vel (steered input this v) = RobotObj.vel this /\
  RobotObj.controls (steered input this v) = RobotObj.controls this /\
  RobotObj.inventory (steered input this v) = RobotObj.inventory this /\
  RobotObj.cooldown (steered input this v) = RobotObj.cooldown this.
Proof. unfold steered. cbv zeta. destruct (decide _); by split_and!. Qed.

(** The physics of [Robot.update] (lines 92-111), up to the action. *)
Lemma wp_Robot_update_physics input this w Q :
  let t := thrust input (RobotObj.controls this) in
  let v := vectors w (RobotObj.vel this) in
  let p := vectors w (RobotObj.pos this) in
  let v' := Vec.mk (Vec.x (accelerated t v) * 0.92) (Vec.y (accelerated t v) * 0.92) in
  let this1 := steered input this v in
  (RobotObj.pos this < vnext w)%nat ->
  (RobotObj.vel this < vnext w)%nat ->
  RobotObj.pos this <> RobotObj.vel this ->
  (forall vs,
      (forall k, (k < vnext w)%nat -> k <> RobotObj.pos this -> k <> RobotObj.vel this ->
                 vs k = vectors w k) ->
      vs (RobotObj.vel this) = v' ->
      vs (RobotObj.pos this)
      = Vec.mk (clamp FIELD_WIDTH (Vec.x p + Vec.x v'))
               (clamp FIELD_HEIGHT (Vec.y p + Vec.y v')) ->
      wp (if fires input this
          then bind (Robot.action this1)
                 (fun this2 => ret (RobotObj.with_cooldown this2 15))
          else ret this1)
        (w_vnext (S (vnext w)) (w_vectors vs w))
        (fun r w' => match r with
                     | Ok this2 => Q (Ok (cooled this2)) w'
                     | Throw e => Q (Throw e) w'
                     end)) ->
  wp (Robot.update input this) w Q.
Proof.
  intros t v p v' this1 Hp Hv Hne HQ. unfold Robot.update. cbv zeta.
  wp_step.
  destruct (movement_run input this w Hv) as (vs0 & E & Hfr & Hvel).
  eapply wp_of_eq; [exact E|]. cbv beta iota.
  fold t v in Hvel |- *. fold this1.
  destruct (steered_fields input this v) as (_ & E1 & E2 & E3 & _ & E5).
  fold this1 in E1, E2, E3, E5. rewrite ?E1, ?E2, ?E3, ?E5.
  wp_walk. rewrite Hvel, (Hfr (RobotObj.pos this)) by (done || lia).
  fold p. cbn.
  specialize (HQ
    (store_set
       (store_set
          (store_set
             (store_set vs0 (RobotObj.vel this) v')
             (RobotObj.pos this) (Vec.mk (Vec.x p + Vec.x v') (Vec.y p + Vec.y v')))
          (RobotObj.pos this)
          (Vec.mk (clamp FIELD_WIDTH (Vec.x p + Vec.x v')) (Vec.y p + Vec.y v')))
       (RobotObj.pos this)
       (Vec.mk (clamp FIELD_WIDTH (Vec.x p + Vec.x v'))
               (clamp FIELD_HEIGHT (Vec.y p + Vec.y v'))))).
  apply HQ.
  - intros k Hk H1 H2. rewrite !store_set_ne by done. by apply Hfr.
  - rewrite !store_set_ne by done. by rewrite store_set_eq.
  - by rewrite store_set_eq.
Qed.






Lemma wp_shoot_exact this a rest w Q :
  RobotObj.inventory this = a :: rest ->
  (RobotObj.pos this < vnext w)%nat ->
  (RobotObj.vel this < vnext w)%nat ->
  (forall w', shot this a w w' -> Q (Ok (RobotObj.with_inventory this rest)) w') ->
  wp (Robot.shoot this) w Q.
Proof.
  intros Hinv Hp Hv HQ. unfold Robot.shoot. rewrite Hinv. wp_walk.
  apply wp_spawnParticles_exact.
  intros w1 (ps & vs & -> & Hlen & Hold & Hps). cbn in Hold, Hps. apply HQ.
  exists ps, vs. eexists _, _, _. cbn.
  split_and!; try reflexivity; try lia; try exact Hlen.
  all: store_simpl; cbn.
  all: try lia.
  all: try reflexivity.
  all: try (intros k Hk Hne; rewrite Hold by lia; by store_simpl).
  all: try (intros b Hb; by store_simpl).
  all: try (rewrite Hold by lia; store_simpl; unfold heading; cbn; reflexivity).
  apply Forall_lookup_2. intros i p Hi.
  destruct (Hps i p Hi) as (-> & H1 & H2). cbn.
  split_and!; try reflexivity. rewrite H1.
  rewrite (Hold (S (vnext w))) by lia. by store_simpl.
Qed.

Lemma wp_intake_exact this arts w Q :
  ((forall b, b ∈ arts -> ~ capturable w this b) -> Q (Ok None) w) ->
  (forall pre a post ao,
      arts = pre ++ a :: post ->
      (forall b, b ∈ pre -> ~ capturable w this b) ->
      capturable w this a ->
      ao a = heldBy (RobotObj.id this) (artifactObjs w a) ->
      (forall b, b <> a -> ao b = artifactObjs w b) ->
      Q (Ok (Some (RobotObj.with_inventory this (RobotObj.inventory this ++ [a]))))
        (w_artifactObjs ao w)) ->
  wp (Robot.intake this arts) w Q.
Proof.
  induction arts as [|a arts IH]; intros Hnone Hsome.
  - unfold Robot.intake. wp_walk. apply Hnone. intros b Hb. by apply elem_of_nil in Hb.
  - unfold Robot.intake. fold Robot.intake. wp_walk.
    fold (distance w (RobotObj.pos this) (ArtifactObj.pos (artifactObjs w a))).
    assert (Hskip : ~ capturable w this a -> wp (Robot.intake this arts) w Q).
    { intros Hn. apply IH.
      - intros Hall. apply Hnone. intros b Hb.
        apply elem_of_cons in Hb as [->|Hb]; [exact Hn | by apply Hall].
      - intros pre b post ao -> Hpre Hb Hao Hfr.
        apply (Hsome (a :: pre) b post ao); try done.
        intros c Hc. apply elem_of_cons in Hc as [->|Hc]; [exact Hn | by apply Hpre]. }
    destruct (ArtifactObj.held (artifactObjs w a)) eqn:Hh; cbn [negb andb].
    { apply Hskip. intros [Hf _]. unfold isFree in Hf. by rewrite Hh in Hf. }
    destruct (ArtifactObj.scored (artifactObjs w a)) eqn:Hs; cbn [negb andb].
    { apply Hskip. intros [Hf _]. unfold isFree in Hf. by rewrite Hh, Hs in Hf. }
    case_bool_decide as Hd.
    + wp_walk. apply (Hsome [] a arts); try done.
      * intros b Hb. by apply elem_of_nil in Hb.
      * split; [|exact Hd]. unfold isFree. by rewrite Hh, Hs.
      * by store_simpl.
      * intros b Hb. by store_simpl.
    + apply Hskip. intros [_ Hd']. done.
Qed.

Lemma wp_action_exact this w Q :
  (RobotObj.pos this < vnext w)%nat ->
  (RobotObj.vel this < vnext w)%nat ->
  (RobotObj.inventory this = [] ->
   (forall b, b ∈ artifacts (gameState w) -> ~ capturable w this b) ->
   Q (Ok this) w) ->
  (forall pre a post ao,
      (length (RobotObj.inventory this) < MAX_INVENTORY)%nat ->
      artifacts (gameState w) = pre ++ a :: post ->
      (forall b, b ∈ pre -> ~ capturable w this b) ->
      capturable w this a ->
      ao a = heldBy (RobotObj.id this) (artifactObjs w a) ->
      (forall b, b <> a -> ao b = artifactObjs w b) ->
      Q (Ok (RobotObj.with_inventory this (RobotObj.inventory this ++ [a])))
        (w_artifactObjs ao w)) ->
  (forall a rest w',
      RobotObj.inventory this = a :: rest ->
      ((length (RobotObj.inventory this) < MAX_INVENTORY)%nat ->
       forall b, b ∈ artifacts (gameState w) -> ~ capturable w this b) ->
      shot this a w w' ->
      Q (Ok (RobotObj.with_inventory this rest)) w') ->
  wp (Robot.action this) w Q.
Proof.
  intros Hp Hv Hidle Hcap Hshot. unfold Robot.action.
  assert (Hshoot :
    ((length (RobotObj.inventory this) < MAX_INVENTORY)%nat ->
     forall b, b ∈ artifacts (gameState w) -> ~ capturable w this b) ->
    wp (Robot.shoot this) w Q).
  { intros Hnone. destruct (RobotObj.inventory this) as [|a rest] eqn:Hinv.
    - unfold Robot.shoot. rewrite Hinv. wp_walk. apply Hidle; [done|].
      apply Hnone. cbn. unfold MAX_INVENTORY. lia.
    - eapply wp_shoot_exact; try done. intros w' Hs.
      by apply (Hshot a rest w'). }
  destruct (Nat.ltb_spec (length (RobotObj.inventory this)) MAX_INVENTORY) as [Hlt|Hge].
  - wp_walk. apply wp_intake_exact.
    + intros Hnone. cbv beta iota. apply Hshoot. intros _. exact Hnone.
    + intros pre a post ao E Hpre Ha Hao Hfr. cbv beta iota. wp_walk.
      by apply (Hcap pre a post ao).
  - apply Hshoot. intros Hlt. lia.
Qed.

Lemma first_split_unique {A} (P : A -> Prop) pre a post pre' a' post' :
  pre ++ a :: post = pre' ++ a' :: post' ->
  (forall b, b ∈ pre -> ~ P b) -> P a ->
  (forall b, b ∈ pre' -> ~ P b) -> P a' ->
  pre = pre' /\ a = a'.
Proof.
  revert pre'. induction pre as [|b pre IH]; intros [|b' pre'] E Hpre Ha Hpre' Ha';
    cbn in E.
  - by injection E as -> _.
  - injection E as -> _. exfalso. apply (Hpre' b'); [left | done].
  - injection E as -> _. exfalso. apply (Hpre a'); [left | done].
  - injection E as -> E.
    destruct (IH pre' E) as [-> ->]; try done.
    + intros c Hc. apply Hpre. by right.
    + intros c Hc. apply Hpre'. by right.
Qed.

(** X11.  [Robot.action] on a robot that holds fewer than 3 artifacts,
    when a free artifact is within 60 of it: the robot captures the first
    such artifact in the order of the collection and only that one; the
    artifact is appended to the inventory and flagged as held by the
    robot's team, and no other artifact and nothing else of the world
    changes. *)
Theorem action_captures_first (this : RobotObj.t) (pre : list aref) (a : aref)
  (post : list aref) (w : World) :
  let w' := exec (Robot.action this) w in
  let o := artifactObjs w a in
  (length (RobotObj.inventory this) < MAX_INVENTORY)%nat ->
  artifacts (gameState w) = pre ++ a :: post ->
  (forall b, b ∈ pre ->
     isFree (artifactObjs w b) = true ->
     ~ (distance w (RobotObj.pos this) (ArtifactObj.pos (artifactObjs w b))
        < ROBOT_SIZE + 20)%R) ->
  isFree o = true ->
  (distance w (RobotObj.pos this) (ArtifactObj.pos o) < ROBOT_SIZE + 20)%R ->
  result (Robot.action this) w
  = Ok (RobotObj.with_inventory this (RobotObj.inventory this ++ [a])) /\
  artifactObjs w' a
  = ArtifactObj.mk (ArtifactObj.pos o) (ArtifactObj.vel o) (ArtifactObj.type o)
      true (Some (RobotObj.id this)) (ArtifactObj.scored o) /\
  (forall b, b <> a -> artifactObjs w' b = artifactObjs w b) /\
  w_artifactObjs (artifactObjs w) w' = w.
Proof.
  intros w' o Hlt Harts Hpre Hfree Hd. subst w'. unfold exec, result.
  pattern ((Robot.action this w).1), ((Robot.action this w).2).
  apply (wp_run (Robot.action this) w). unfold Robot.action.
  rewrite (proj2 (Nat.ltb_lt _ _)) by exact Hlt. wp_walk. rewrite Harts.
  apply wp_intake_exact.
  - intros Hnone. exfalso. apply (Hnone a); [|by split].
    apply elem_of_app. right. left.
  - intros pre' a' post' ao E Hpre' Ha' Hao Hfr. cbv beta iota. wp_walk.
    assert (Hpre2 : forall b, b ∈ pre -> ~ capturable w this b).
    { intros b Hb [Hf Hdb]. by apply (Hpre b). }
    destruct (first_split_unique (capturable w this) _ _ _ _ _ _ E)
      as [<- <-]; try done.
Qed.

(** X12.  [Robot.action] on a robot that holds artifacts and captures
    none (its inventory is full, or no free artifact is within reach): it
    releases the artifact that it has held longest, the head of the
    inventory, and keeps the others in order.  The artifact is free again,
    neither scored nor of another type than before, and lies 50 in front
    of the robot; five white particles appear there; of the vectors that
    existed only the robot's velocity changes, and no other artifact and
    nothing on the page changes. *)
Theorem action_releases_oldest (this : RobotObj.t) (a : aref) (rest : list aref)
  (w : World) :
  let w' := exec (Robot.action this) w in
  let o' := artifactObjs w' a in
  let p := vectors w (RobotObj.pos this) in
  RobotObj.inventory this = a :: rest ->
  (RobotObj.pos this < vnext w)%nat ->
  (RobotObj.vel this < vnext w)%nat ->
  ((length (RobotObj.inventory this) < MAX_INVENTORY)%nat ->
   forall b, b ∈ artifacts (gameState w) ->
     isFree (artifactObjs w b) = true ->
     ~ (distance w (RobotObj.pos this) (ArtifactObj.pos (artifactObjs w b))
        < ROBOT_SIZE + 20)%R) ->
  result (Robot.action this) w = Ok (RobotObj.with_inventory this rest) /\
  (ArtifactObj.held o' = false /\ ArtifactObj.holder o' = None /\
   ArtifactObj.scored o' = ArtifactObj.scored (artifactObjs w a) /\
   ArtifactObj.type o' = ArtifactObj.type (artifactObjs w a)) /\
  vectors w' (ArtifactObj.pos o')
  = Vec.mk (Vec.x p + cos (RobotObj.angle this) * (ROBOT_SIZE + 10))
           (Vec.y p + sin (RobotObj.angle this) * (ROBOT_SIZE + 10)) /\
  (forall b, b <> a -> artifactObjs w' b = artifactObjs w b) /\
  (forall k, (k < vnext w)%nat -> k <> RobotObj.vel this -> vectors w' k = vectors w k) /\
  (exists ps,
      particles (gameState w') = particles (gameState w) ++ ps /\
      length ps = 5%nat /\
      Forall (fun q => ParticleObj.color q = "#fff" /\ ParticleObj.life q = 30%Z /\
                       vectors w' (ParticleObj.pos q) = vectors w' (ArtifactObj.pos o')) ps) /\
  g_particles (particles (gameState w)) (gameState w') = gameState w /\
  dom w' = dom w.
Proof.
  intros w' o' p Hinv Hp Hv Hnone. subst o' w'. unfold exec, result.
  pattern ((Robot.action this w).1), ((Robot.action this w).2).
  apply (wp_run (Robot.action this) w), wp_action_exact; try done.
  - intros E. by rewrite Hinv in E.
  - intros pre b post ao Hlt Harts Hpre [Hf Hd]. exfalso.
    apply (Hnone Hlt b); try done. rewrite Harts. apply elem_of_app. right. left.
  - intros a' rest' w' E _ Hs. rewrite Hinv in E. injection E as <- <-.
    destruct Hs as (ps & vs & n & ao & rc & -> & Hn & Hfr & Hvel & Hao & Hty & Hsc
                    & Hh & Hho & Hpr & Hvr & Hne & Hpos & Hve & Hlen & Hps).
    cbn. split_and!; try done.
    exists ps. split_and!; try done.
    eapply Forall_impl; [exact Hps|]. cbn. intros q (H1 & H2 & H3 & H4). done.
Qed.

(** The cooldown after [Robot.update] (lines 114-118). *)
(** X13.  [Robot.update] returns a robot in every world and for every
    key map.  Its cooldown is 14 when the action key is down and the old
    cooldown is 0 or less, the old cooldown minus 1 when that is positive,
    and the old cooldown otherwise; the robot's team, vectors, controls,
    colour and speed field are the old ones. *)
Theorem Robot_update_cooldown input this w :
  exists this',
    result (Robot.update input this) w = Ok this' /\
    RobotObj.cooldown this'
    = (if fires input this then 14
       else if (0 <? RobotObj.cooldown this)%Z then RobotObj.cooldown this - 1
            else RobotObj.cooldown this)%Z /\
    RobotObj.id this' = RobotObj.id this /\
    RobotObj.pos this' = RobotObj.pos this /\
    RobotObj.vel this' = RobotObj.vel this /\
    RobotObj.controls this' = RobotObj.controls this /\
    RobotObj.color this' = RobotObj.color this /\
    RobotObj.speed this' = RobotObj.speed this.
Proof.
  unfold result.
  pattern ((Robot.update input this w).1), ((Robot.update input this w).2).
  apply (wp_run (Robot.update input this) w). unfold Robot.update. wp_step.
  apply wp_movement. intros ang w1 _. cbv beta iota. wp_go.
  change (pressed input (key_action (RobotObj.controls this))
          && (RobotObj.cooldown this <=? 0)%Z) with (fires input this).
  destruct (fires input this) eqn:Hf.
  - wp_step. apply wp_action. intros inv' w2 _ _. cbv beta iota. wp_go.
    eexists. split; [reflexivity|]. cbn. by split_and!.
  - wp_go. eexists. split; [reflexivity|].
    destruct (0 <? RobotObj.cooldown this)%Z; cbn; by split_and!.
Qed.

(** ** Pattern, banner and goals *)

Lemma index_types_pick (u : Unit01) :
  index types (Math_floor (u * 2)) = Some (pick u).
Proof.
  destruct u as [u Hu]. cbn [u01]. unfold Math_floor, pick.
  destruct (decide (u < 0.5)%R) as [Hlt|Hge].
  - assert (E : Zfloor (u * 2) = 0%Z).
    { apply Zfloor_eq. cbn. lra. }
    by rewrite E.
  - assert (E : Zfloor (u * 2) = 1%Z).
    { apply Zfloor_eq. cbn. lra. }
    by rewrite E.
Qed.

(** X14.  [generatePattern] returns normally and uses three random draws;
    the entry for a draw is purple when the draw is below 0.5 and green
    otherwise, so the index [Math.floor(r * 2)] is always in range and no
    entry is undefined.  Only the target pattern and the count of draws
    change. *)
Theorem generatePattern_draws (w : World) :
  let r (i : nat) : R := randomSource w (i + randomCount w) in
  let w' := exec generatePattern w in
  result generatePattern w = Ok tt /\
  targetPattern (gameState w') = [Some (pick (r 0%nat)); Some (pick (r 1%nat)); Some (pick (r 2%nat))] /\
  randomCount w' = (3 + randomCount w)%nat /\
  g_targetPattern (targetPattern (gameState w)) (gameState w') = gameState w /\
  w_randomCount (randomCount w) (w_gameState (gameState w) w') = w.
Proof.
  intros r w'. subst w' r. unfold exec, result.
  pattern (generatePattern w).1, (generatePattern w).2.
  apply (wp_run generatePattern w). unfold generatePattern, randomType. wp_walk.
  rewrite !index_types_pick. wp_walk. by split_and!.
Qed.

(** X15.  When the last three types a team scored are the target pattern,
    [checkPattern] shows the banner [<TEAM> MATCHED PATTERN (+30)!] while
    the team's score grows by 20.  It also sets one more timer for hiding
    the banner, shows the new score in the team's score text and leaves
    the other score text and the timer text. *)
Theorem checkPattern_banner (team : Team) (w : World) :
  let history := historyOf team (gameState w) in
  let target := targetPattern (gameState w) in
  let w' := exec (checkPattern team) w in
  (3 <= length history)%nat ->
  (forall i, (i < 3)%nat -> history !! i = mjoin (target !! i)) ->
  gameMessage (dom w') = toUpperCase team +:+ " MATCHED PATTERN (+30)!" /\
  gameMessageHidden (dom w') = false /\
  hideTimeouts (dom w') = S (hideTimeouts (dom w)) /\
  (scoreOf team (gameState w') - scoreOf team (gameState w) = 20)%Z /\
  match team with
  | red => redScoreText (dom w') = redScore (gameState w') /\
           blueScoreText (dom w') = blueScoreText (dom w)
  | blue => blueScoreText (dom w') = blueScore (gameState w') /\
            redScoreText (dom w') = redScoreText (dom w)
  end /\
  timerText (dom w') = timerText (dom w).
Proof.
  intros history target w' Hlen Hall. subst w'. unfold exec.
  pattern ((checkPattern team w).1), ((checkPattern team w).2).
  apply (wp_run (checkPattern team) w), wp_checkPattern_hit;
    [done | by apply patternMatched_true |].
  intros t0 t1 t2. destruct team; cbn; split_and!; try reflexivity; lia.
Qed.

(** X16.  The timer callback of [checkPattern] returns normally, uses up
    one pending timer and changes nothing but the page: it hides the
    banner when a match is running, leaves it as it is otherwise, and
    never changes its text.  A callback that runs after [endGame]
    therefore leaves the final banner on the page. *)
Theorem hideMessage_spec (w : World) :
  let w' := exec hideMessage w in
  result hideMessage w = Ok tt /\
  hideTimeouts (dom w') = pred (hideTimeouts (dom w)) /\
  gameMessageHidden (dom w')
  = (if running (gameState w) then true else gameMessageHidden (dom w)) /\
  gameMessage (dom w') = gameMessage (dom w) /\
  w_dom (dom w) w' = w /\
  gameMessageHidden (dom (exec hideMessage (exec endGame w))) = false /\
  gameMessage (dom (exec hideMessage (exec endGame w)))
  = gameMessage (dom (exec endGame w)).
Proof.
  intros w'. subst w'.
  assert (H : forall w0,
             result hideMessage w0 = Ok tt /\
             hideTimeouts (dom (exec hideMessage w0)) = pred (hideTimeouts (dom w0)) /\
             gameMessageHidden (dom (exec hideMessage w0))
             = (if running (gameState w0) then true else gameMessageHidden (dom w0)) /\
             gameMessage (dom (exec hideMessage w0)) = gameMessage (dom w0) /\
             w_dom (dom w0) (exec hideMessage w0) = w0).
  { intros w0. unfold exec, result.
    pattern (hideMessage w0).1, (hideMessage w0).2.
    apply (wp_run hideMessage w0). unfold hideMessage. wp_walk.
    destruct (running (gameState w0)); wp_walk; by split_and!. }
  destruct (H w) as (H1 & H2 & H3 & H4 & H5).
  destruct (H (exec endGame w)) as (_ & _ & E3 & E4 & _).
  destruct (endGame_outcome w) as (_ & Er & Eh & _).
  rewrite Er, Eh in E3. by split_and!.
Qed.


(** ** Goals *)

Lemma push_far a r w :
  ~ (distance w (RobotObj.pos r) (ArtifactObj.pos (artifactObjs w a))
     < ROBOT_SIZE / 2 + ARTIFACT_RADIUS)%R ->
  push a r w = (Ok tt, w).
Proof.
  intros Hd. apply wp_eq. unfold push. wp_walk.
  change (sqrt _) with (distance w (RobotObj.pos r) (ArtifactObj.pos (artifactObjs w a))).
  rewrite bool_decide_eq_false_2 by exact Hd. wp_walk. done.
Qed.

Lemma forEach_push_far a rs w :
  (forall r, r ∈ rs ->
     ~ (distance w (RobotObj.pos r) (ArtifactObj.pos (artifactObjs w a))
        < ROBOT_SIZE / 2 + ARTIFACT_RADIUS)%R) ->
  forEach rs (push a) w = (Ok tt, w).
Proof.
  induction rs as [|r rs IH]; intros H; [reflexivity|].
  apply wp_eq, wp_forEach_cons, wp_bind.
  eapply wp_of_eq; [apply push_far, H; left|]. cbv beta iota.
  eapply wp_of_eq; [apply IH; intros r' Hr'; apply H; by right|]. done.
Qed.

(** No point lies in both goal zones. *)
Lemma goals_disjoint w p redGoalPos blueGoalPos :
  vectors w redGoalPos = Vec.mk 50 (FIELD_HEIGHT / 2) ->
  vectors w blueGoalPos = Vec.mk (FIELD_WIDTH - 50) (FIELD_HEIGHT / 2) ->
  (distance w p redGoalPos < GOAL_SIZE)%R ->
  ~ (distance w p blueGoalPos < GOAL_SIZE)%R.
Proof.
  intros Hr Hb H1 H2.
  pose proof (distance_triangle w redGoalPos p blueGoalPos) as Htri.
  rewrite (distance_sym w redGoalPos p) in Htri.
  assert (Hd : distance w redGoalPos blueGoalPos = 1900%R).
  { unfold distance. rewrite Hr, Hb. cbn. unfold FIELD_WIDTH, FIELD_HEIGHT.
    replace ((50 - (2000 - 50)) * ((50 - (2000 - 50)) * 1)
             + (1400 / 2 - 1400 / 2) * ((1400 / 2 - 1400 / 2) * 1))%R
      with (1900 * 1900)%R by field.
    apply sqrt_square. lra. }
  unfold GOAL_SIZE in *. lra.
Qed.

Lemma distance_ext w w' p q :
  vectors w' p = vectors w p -> vectors w' q = vectors w q ->
  distance w' p q = distance w p q.
Proof. unfold distance. by intros -> ->. Qed.

(** X17.  The step of the artifacts loop of [update] (lines 332-353) on a
    free artifact at rest that no robot touches: it returns normally; when
    the artifact is within [GOAL_SIZE] of the centre of the red goal it is
    scored for red (it is flagged scored, red's score grows by at least
    the points of its type and blue's score stays), likewise for blue at
    the blue goal, and when it is in neither zone no artifact, no field of
    the game state and nothing on the page changes. *)
Theorem artifactStep_scores_resting (redGoalPos blueGoalPos : vref) (a : aref)
  (w : World) :
  let o := artifactObjs w a in
  let w' := exec (artifactStep redGoalPos blueGoalPos a) w in
  let dr := distance w (ArtifactObj.pos o) redGoalPos in
  let db := distance w (ArtifactObj.pos o) blueGoalPos in
  isFree o = true ->
  ArtifactObj.pos o <> ArtifactObj.vel o ->
  vectors w (ArtifactObj.vel o) = Vec.mk 0 0 ->
  vectors w redGoalPos = Vec.mk 50 (FIELD_HEIGHT / 2) ->
  vectors w blueGoalPos = Vec.mk (FIELD_WIDTH - 50) (FIELD_HEIGHT / 2) ->
  redGoalPos <> ArtifactObj.pos o -> redGoalPos <> ArtifactObj.vel o ->
  blueGoalPos <> ArtifactObj.pos o -> blueGoalPos <> ArtifactObj.vel o ->
  (forall r, r ∈ robots (gameState w) ->
     RobotObj.pos r <> ArtifactObj.pos o /\ RobotObj.pos r <> ArtifactObj.vel o /\
     ~ (distance w (RobotObj.pos r) (ArtifactObj.pos o)
        < ROBOT_SIZE / 2 + ARTIFACT_RADIUS)%R) ->
  result (artifactStep redGoalPos blueGoalPos a) w = Ok tt /\
  ((dr < GOAL_SIZE)%R ->
   ArtifactObj.scored (artifactObjs w' a) = true /\
   (redScore (gameState w) + pointsOf (ArtifactObj.type o) <= redScore (gameState w'))%Z /\
   blueScore (gameState w') = blueScore (gameState w)) /\
  ((db < GOAL_SIZE)%R ->
   ArtifactObj.scored (artifactObjs w' a) = true /\
   (blueScore (gameState w) + pointsOf (ArtifactObj.type o) <= blueScore (gameState w'))%Z /\
   redScore (gameState w') = redScore (gameState w)) /\
  (~ (dr < GOAL_SIZE)%R -> ~ (db < GOAL_SIZE)%R ->
   artifactObjs w' = artifactObjs w /\ gameState w' = gameState w /\ dom w' = dom w).
Proof.
  intros o w' dr db Hfree Hne Hrest Hrg Hbg Hr1 Hr2 Hb1 Hb2 Hrobots.
  unfold isFree in Hfree. apply andb_true_iff in Hfree as [Hh Hs].
  apply negb_true_iff in Hh, Hs.
  destruct (Artifact_update_free_run a w Hh Hs Hne) as (vs & E & Hp & _ & Hfr).
  fold o in Hp, Hfr. rewrite Hrest in Hp.
  assert (Hp' : vs (ArtifactObj.pos o) = vectors w (ArtifactObj.pos o)).
  { rewrite Hp. apply Vec_eq; cbn; lra. }
  set (w1 := w_vectors vs w) in *.
  assert (Hd : forall q, q <> ArtifactObj.pos o -> q <> ArtifactObj.vel o ->
                         distance w1 q (ArtifactObj.pos o) = distance w q (ArtifactObj.pos o)
                         /\ distance w1 (ArtifactObj.pos o) q
                            = distance w (ArtifactObj.pos o) q).
  { intros q H1 H2. split; apply distance_ext; cbn; auto. }
  assert (Hpush : forEach (robots (gameState w)) (push a) w1 = (Ok tt, w1)).
  { apply forEach_push_far. intros r Hr. destruct (Hrobots r Hr) as (H1 & H2 & H3).
    change (artifactObjs w1 a) with o. by rewrite (proj1 (Hd _ H1 H2)). }
  assert (Hrun :
    wp (artifactStep redGoalPos blueGoalPos a) w
      (fun r w2 =>
         (if bool_decide (dr < GOAL_SIZE)%R then (r, w2) = scoreArtifact red a w1
          else if bool_decide (db < GOAL_SIZE)%R then (r, w2) = scoreArtifact blue a w1
          else (r, w2) = (Ok tt, w1)))).
  { unfold artifactStep. wp_walk. fold o. rewrite Hh, Hs. cbn [negb andb].
    wp_step. eapply wp_of_eq; [exact E|]. cbv beta iota. fold w1.
    wp_walk. eapply wp_of_eq; [exact Hpush|]. cbv beta iota. wp_walk.
    change (artifactObjs w a) with o. rewrite Hs. cbn [negb]. rewrite !andb_true_r.
    change (sqrt _) with (distance w1 (ArtifactObj.pos o) redGoalPos).
    rewrite (proj2 (Hd _ Hr1 Hr2)). fold dr.
    destruct (bool_decide (dr < GOAL_SIZE)%R) eqn:E1.
    - unfold wp. symmetry. apply surjective_pairing.
    - wp_walk. change (artifactObjs w a) with o.
      change (sqrt _) with (distance w1 (ArtifactObj.pos o) blueGoalPos).
      rewrite (proj2 (Hd _ Hb1 Hb2)). fold db.
      destruct (bool_decide (db < GOAL_SIZE)%R) eqn:E2.
      + unfold wp. symmetry. apply surjective_pairing.
      + wp_walk. reflexivity. }
  apply wp_run in Hrun. fold w' in Hrun.
  pose proof (scoreArtifact_outcome red a w1) as (Rr & Rs & Ro & Rc).
  pose proof (scoreArtifact_outcome blue a w1) as (Br & Bs & Bo & Bc).
  cbn [opponent scoreOf] in *.
  change (artifactObjs w1 a) with o in *. change (gameState w1) with (gameState w) in *.
  assert (Hpts : (0 <= pointsOf (ArtifactObj.type o))%Z)
    by (unfold pointsOf; destruct (ArtifactObj.type o); lia).
  destruct (bool_decide (dr < GOAL_SIZE)%R) eqn:E1.
  - apply bool_decide_eq_true in E1.
    assert (E2 : ~ (db < GOAL_SIZE)%R) by (by eapply goals_disjoint).
    assert (Hw : w' = exec (scoreArtifact red a) w1) by (unfold exec; by rewrite <- Hrun).
    assert (Hres : result (artifactStep redGoalPos blueGoalPos a) w = Ok tt).
    { rewrite <- Rr. unfold result at 2. by rewrite <- Hrun. }
    rewrite Hw. split_and!; try done.
    intros _. split_and!; try done.
    match type of Rc with (if ?c then _ else _) => destruct c end;
      destruct Rc as (Hsc & _); rewrite Hsc; lia.
  - apply bool_decide_eq_false in E1.
    destruct (bool_decide (db < GOAL_SIZE)%R) eqn:E2.
    + apply bool_decide_eq_true in E2.
      assert (Hw : w' = exec (scoreArtifact blue a) w1) by (unfold exec; by rewrite <- Hrun).
      assert (Hres : result (artifactStep redGoalPos blueGoalPos a) w = Ok tt).
      { rewrite <- Br. unfold result at 2. by rewrite <- Hrun. }
      rewrite Hw. split_and!; try done.
      intros _. split_and!; try done.
      match type of Bc with (if ?c then _ else _) => destruct c end;
        destruct Bc as (Hsc & _); rewrite Hsc; lia.
    + apply bool_decide_eq_false in E2.
      injection Hrun as Hres Hw. fold w' in Hw.
      rewrite Hw. split_and!; try done.
Qed.

(** ** What every frame keeps *)

Lemma wp_Robot_update_did input this w Q :
  (RobotObj.pos this < vnext w)%nat ->
  (RobotObj.vel this < vnext w)%nat ->
  RobotObj.pos this <> RobotObj.vel this ->
  (forall this' w', robotDid input this this' w w' -> Q (Ok this') w') ->
  wp (Robot.update input this) w Q.
Proof.
  intros Hp Hv Hne HQ. apply wp_Robot_update_physics; try done.
  intros vs Hfr _ _.
  assert (Hthis1 : exists ang, steered input this (vectors w (RobotObj.vel this))
                               = RobotObj.with_angle this ang).
  { unfold steered. cbv zeta. destruct (decide _); eexists; reflexivity. }
  destruct Hthis1 as [ang ->].
  unfold robotDid, nextCooldown in HQ.
  destruct (fires input this) eqn:Hf.
  - wp_step. apply wp_action_exact; cbn; try lia.
    + intros Hinv Hnone. wp_walk. apply HQ.
      exists [], vs. eexists _, _, _, _, _. cbn. rewrite app_nil_r.
      split_and!; try reflexivity; try lia; [constructor|]. left. by split.
    + intros pre a post ao Hlt Harts Hpre [Hfree _] Hao Hao'. wp_walk. apply HQ.
      exists [], vs. eexists _, ao, _, _, _. cbn. rewrite app_nil_r.
      split_and!; try reflexivity; try lia; [constructor|]. right. left.
      exists a. split_and!; try done. rewrite Harts. apply elem_of_app. right. left.
    + intros a rest w' Hinv _ Hs. wp_walk. apply HQ.
      destruct Hs as (ps & vs' & n & ao & rc & -> & Hn & _ & _ & Hao & _ & Hsc
                      & Hh & Hho & _ & _ & _ & _ & _ & _ & Hps).
      cbn in *. exists ps, vs'. eexists _, ao, _, _, _. cbn.
      split_and!; try reflexivity; try lia.
      * eapply Forall_impl; [exact Hps|]. intros q (_ & H1 & H2 & _). by split.
      * right. right. exists a. by split_and!.
  - wp_walk. apply HQ.
    exists [], vs. eexists _, _, _, _, _. cbn. rewrite app_nil_r.
    split_and!; try reflexivity; try lia; [| constructor | left; by split].
    unfold cooled. cbn. by destruct (0 <? RobotObj.cooldown this)%Z.
Qed.

Lemma moved_refl w : moved w w.
Proof. exists (vectors w), (vnext w). by split. Qed.

Lemma moved_trans w1 w2 w3 : moved w1 w2 -> moved w2 w3 -> moved w1 w3.
Proof.
  intros (vs1 & n1 & -> & H1) (vs2 & n2 & -> & H2). cbn in *.
  exists vs2, n2. split; [reflexivity | lia].
Qed.

#[global] Instance moved_preorder : PreOrder moved.
Proof. split; [exact moved_refl | exact moved_trans]. Qed.

Lemma played_refl w : played w w.
Proof.
  unfold played, sameClock. split_and!; try done; try lia.
  - rewrite Z.sub_diag. apply Z.divide_0_r.
  - rewrite Z.sub_diag. apply Z.divide_0_r.
  - exists []. by rewrite app_nil_r.
Qed.

Lemma played_trans w1 w2 w3 : played w1 w2 -> played w2 w3 -> played w1 w3.
Proof.
  intros (R1 & A1 & N1 & (C1a & C1b & C1c) & F1 & (S1 & D1) & (T1 & E1)
          & (ps1 & P1 & Q1) & O1 & X1 & Y1)
         (R2 & A2 & N2 & (C2a & C2b & C2c) & F2 & (S2 & D2) & (T2 & E2)
          & (ps2 & P2 & Q2) & O2 & X2 & Y2).
  unfold played, sameClock. split_and!; try congruence; try lia; auto.
  - intros a. destruct (F1 a) as (? & ? & ?), (F2 a) as (? & ? & ?).
    split_and!; congruence.
  - replace (redScore (gameState w3) - redScore (gameState w1))%Z
      with ((redScore (gameState w3) - redScore (gameState w2))
            + (redScore (gameState w2) - redScore (gameState w1)))%Z by lia.
    by apply Z.divide_add_r.
  - replace (blueScore (gameState w3) - blueScore (gameState w1))%Z
      with ((blueScore (gameState w3) - blueScore (gameState w2))
            + (blueScore (gameState w2) - blueScore (gameState w1)))%Z by lia.
    by apply Z.divide_add_r.
  - exists (ps1 ++ ps2). rewrite P2, P1, app_assoc. split; [reflexivity|].
    by apply Forall_app.
Qed.

#[global] Instance played_preorder : PreOrder played.
Proof. split; [exact played_refl | exact played_trans]. Qed.

Lemma moved_played w w' : moved w w' -> played w w'.
Proof.
  intros (vs & n & -> & Hn). unfold played, sameClock. cbn.
  split_and!; try done; try lia.
  - rewrite Z.sub_diag. apply Z.divide_0_r.
  - rewrite Z.sub_diag. apply Z.divide_0_r.
  - exists []. by rewrite app_nil_r.
Qed.

Lemma wp_forEach_ok {A} (R : World -> World -> Prop) `{!PreOrder R}
  (l : list A) (body : A -> M unit) :
  (forall a w Q, a ∈ l -> (forall w', R w w' -> Q (Ok tt) w') -> wp (body a) w Q) ->
  forall w Q, (forall w', R w w' -> Q (Ok tt) w') -> wp (forEach l body) w Q.
Proof.
  induction l as [|a l IH]; intros Hbody w Q HQ.
  - apply wp_forEach_nil, HQ. reflexivity.
  - apply wp_forEach_cons, wp_bind, Hbody; [left|].
    intros w1 H1.
    apply IH; [intros; apply Hbody; [by right|done]|].
    intros w2 H2. apply HQ. by etrans.
Qed.

Lemma wp_Artifact_update_moved a w Q :
  (forall w', moved w w' -> Q (Ok tt) w') -> wp (Artifact.update a) w Q.
Proof.
  intros HQ. unfold Artifact.update. wp_walk.
  repeat (wp_case; wp_walk); apply HQ;
    first [apply moved_refl | eexists _, _; cbn; split; [reflexivity | lia]].
Qed.

Lemma wp_push_moved a r w Q :
  (forall w', moved w w' -> Q (Ok tt) w') -> wp (push a r) w Q.
Proof.
  intros HQ. unfold push. wp_walk.
  repeat (wp_case; wp_walk); apply HQ;
    first [apply moved_refl | eexists _, _; cbn; split; [reflexivity | lia]].
Qed.

Lemma burst_particles x y c k w w' :
  burst x y c k w w' ->
  exists ps vs n rc,
    w' = mkWorld (g_particles (particles (gameState w) ++ ps) (gameState w)) vs n
           (artifactObjs w) (anext w) (dom w) (randomSource w) rc /\
    (vnext w <= n)%nat /\ Forall freshParticle ps.
Proof.
  intros (ps & vs & -> & Hlen & _ & Hps). exists ps, vs. eexists _, _.
  split_and!; [reflexivity | lia |].
  apply Forall_lookup_2. intros i p Hi. by destruct (Hps i p Hi) as (-> & _).
Qed.

Lemma wp_scoreArtifact_played team a w Q :
  (forall w', played w w' -> Q (Ok tt) w') ->
  wp (scoreArtifact team a) w Q.
Proof.
  intros HQ. unfold scoreArtifact.
  wp_walk. apply wp_spawnParticles_exact.
  intros w1 Hb. apply burst_particles in Hb as (ps & vs & n & rc & -> & Hn & Hps).
  cbv beta iota. cbn in Hn.
  assert (Hflags :
    forall b,
      ArtifactObj.held
        (store_set (artifactObjs w) a (ArtifactObj.with_scored (artifactObjs w a) true) b)
      = ArtifactObj.held (artifactObjs w b) /\
      ArtifactObj.holder
        (store_set (artifactObjs w) a (ArtifactObj.with_scored (artifactObjs w a) true) b)
      = ArtifactObj.holder (artifactObjs w b) /\
      ArtifactObj.type
        (store_set (artifactObjs w) a (ArtifactObj.with_scored (artifactObjs w a) true) b)
      = ArtifactObj.type (artifactObjs w b)).
  { intros b. destruct (decide (b = a)) as [->|Hne]; store_simpl; cbn; auto. }
  cbn in Hflags.
  assert (Hpts : exists k, (match ArtifactObj.type (artifactObjs w a) with
                            | purple => 5 | green => 10 end = 5 * k /\ 0 <= k)%Z).
  { destruct (ArtifactObj.type (artifactObjs w a)); [exists 1%Z | exists 2%Z]; lia. }
  destruct Hpts as (k & Hk & Hk0).
  destruct team; wp_go; wp_case; wp_go; apply wp_checkPattern;
    cbn [historyOf gameState redHistory blueHistory targetPattern];
    match goal with |- if ?c then _ else _ => destruct c end.
  all: intros; apply HQ; unfold played, sameClock, patternOk; cbn.
  all: rewrite ?Hk.
  all: split_and!; try reflexivity; try lia; try exact Hflags; auto.
  all: try (exists ps; by split).
  all: try (intros _; split; [reflexivity|];
            repeat (constructor; [by destruct t0, t1, t2; auto|]); constructor).
  all: try (exists (k + 4)%Z; lia).
  all: try (exists k; lia).
  all: try (exists 0%Z; lia).
Qed.

Lemma wp_artifactStep_played redGoalPos blueGoalPos a w Q :
  (forall w', played w w' -> Q (Ok tt) w') ->
  wp (artifactStep redGoalPos blueGoalPos a) w Q.
Proof.
  intros HQ. unfold artifactStep. wp_walk.
  destruct (ArtifactObj.held (artifactObjs w a)) eqn:Hh; cbn [negb andb];
    [wp_walk; apply HQ; reflexivity|].
  destruct (ArtifactObj.scored (artifactObjs w a)) eqn:Hs; cbn [negb andb];
    [wp_walk; apply HQ; reflexivity|].
  wp_step. apply wp_Artifact_update_moved. intros w1 H1. cbv beta iota.
  wp_walk. apply (wp_forEach_ok moved).
  { intros robot w2 Q2 _ HQ2. by apply wp_push_moved. }
  intros w2 H2. cbv beta iota.
  assert (H12 : moved w w2) by (by etrans).
  destruct H12 as (vs & n & -> & Hn). clear H1 H2.
  wp_walk. rewrite Hs. cbn [negb]. rewrite !andb_true_r.
  assert (Hscore : forall team,
             wp (scoreArtifact team a) (w_vnext n (w_vectors vs w)) Q).
  { intros team. apply wp_scoreArtifact_played.
    intros w3 H3. apply HQ. etrans; [|exact H3].
    apply moved_played. by eexists _, _. }
  wp_case; [apply Hscore|].
  wp_walk. rewrite ?andb_true_r. wp_case; [apply Hscore|].
  wp_walk. apply HQ, moved_played. exists vs, n. by split.
Qed.

Lemma nextCooldown_range input this :
  (0 <= RobotObj.cooldown this <= 14)%Z ->
  (0 <= nextCooldown input this <= 14)%Z.
Proof.
  intros H. unfold nextCooldown. destruct (fires input this); [lia|].
  destruct (Z.ltb_spec 0 (RobotObj.cooldown this)); lia.
Qed.

Lemma did_carried input this this' others w w' :
  robotDid input this this' w w' ->
  carried w this ->
  Forall (carried w) others ->
  Forall (fun o => RobotObj.id o <> RobotObj.id this) others ->
  carried w' this' /\ Forall (carried w') others.
Proof.
  intros (ps & vs & n & ao & rc & ang & inv' & -> & -> & Hn & Hps & Hcase)
         [Hnd Hinv] Hothers Hids.
  unfold carried at 1. cbn.
  assert (Hkeep : forall others',
                    Forall (carried w) others' ->
                    (forall o b, o ∈ others' -> b ∈ RobotObj.inventory o ->
                                 ao b = artifactObjs w b) ->
                    Forall (carried
                      (mkWorld (g_particles (particles (gameState w) ++ ps) (gameState w))
                         vs n ao (anext w) (dom w) (randomSource w) rc)) others').
  { intros others' Ho Hsame. rewrite Forall_forall in Ho |- *.
    intros o Hin. destruct (Ho o Hin) as [Hond Hoinv]. split; [exact Hond|].
    intros b Hb. cbn. rewrite (Hsame o b Hin Hb). by apply Hoinv. }
  destruct Hcase as [[-> Hao] | [(a & -> & Hlt & Hin & Hfree & Hao & Hrest)
                                 | (a & Ea & Hh & Hho & Hsc & Hrest)]].
  - split.
    + split; [exact Hnd|]. intros b Hb. rewrite Hao. by apply Hinv.
    + apply Hkeep; [exact Hothers | auto].
  - assert (Hfa : ArtifactObj.held (artifactObjs w a) = false).
    { unfold isFree in Hfree. apply andb_true_iff in Hfree as [H _].
      by apply negb_true_iff in H. }
    assert (Hnew : forall r, carried w r -> a ∉ RobotObj.inventory r).
    { intros r [_ Hr] Ha. destruct (Hr a Ha) as (_ & H & _). congruence. }
    split.
    + split.
      * apply NoDup_app. split_and!; [exact Hnd | | apply NoDup_singleton].
        intros b Hb Hb'. apply list_elem_of_singleton in Hb' as ->.
        by apply (Hnew this).
      * intros b Hb. apply elem_of_app in Hb as [Hb|Hb].
        -- rewrite Hrest; [by apply Hinv|]. intros ->. by apply (Hnew this).
        -- apply list_elem_of_singleton in Hb as ->. rewrite Hao. by split_and!.
    + apply Hkeep; [exact Hothers |].
      intros o b Ho Hb. apply Hrest. intros ->.
      rewrite Forall_forall in Hothers. by apply (Hnew o (Hothers o Ho)).
  - rewrite Ea in Hnd, Hinv. apply NoDup_cons in Hnd as [Hna Hnd].
    split.
    + split; [exact Hnd|]. intros b Hb. rewrite Hrest; [apply Hinv; by right|].
      intros ->. done.
    + apply Hkeep; [exact Hothers |].
      intros o b Ho Hb. apply Hrest. intros ->.
      rewrite Forall_forall in Hothers, Hids.
      destruct (Hothers o Ho) as [_ Hoinv]. destruct (Hoinv a Hb) as (_ & _ & H1).
      destruct (Hinv a) as (_ & _ & H2); [left|].
      apply (Hids o Ho). congruence.
Qed.

Lemma carried_ext w w' r :
  artifacts (gameState w') = artifacts (gameState w) ->
  (forall a, ArtifactObj.held (artifactObjs w' a) = ArtifactObj.held (artifactObjs w a) /\
             ArtifactObj.holder (artifactObjs w' a) = ArtifactObj.holder (artifactObjs w a)) ->
  carried w r -> carried w' r.
Proof.
  intros A F [Hnd Hinv]. split; [exact Hnd|].
  intros a Ha. destruct (Hinv a Ha) as (H1 & H2 & H3), (F a) as (F1 & F2).
  rewrite A, F1, F2. by split_and!.
Qed.

Lemma played_carried w w' r : played w w' -> carried w r -> carried w' r.
Proof.
  intros (R & A & N & _ & F & _). apply carried_ext; [exact A|].
  intros a. destruct (F a) as (F1 & F2 & _). by split.
Qed.

Lemma divide_step (a b : Z) : (5 | a)%Z -> (5 | b - a)%Z -> (5 | b)%Z.
Proof.
  intros Ha Hb. replace b with (a + (b - a))%Z by lia. by apply Z.divide_add_r.
Qed.

Lemma survivors_live ps :
  Forall (liveParticle 30) ps -> Forall (liveParticle 29) (survivors ps).
Proof.
  intros H. unfold survivors. apply Forall_forall. intros p Hp.
  apply list_elem_of_filter in Hp as [Hlife Hp].
  apply list_elem_of_fmap in Hp as (q & -> & Hq).
  rewrite Forall_forall in H. destruct (H q Hq) as [H1 H2].
  unfold liveParticle, aged in *. cbn in *. lia.
Qed.

Lemma fresh_live p : freshParticle p -> liveParticle 30 p.
Proof. intros [H1 H2]. unfold liveParticle. lia. Qed.

Lemma live_weaken p : liveParticle 29 p -> liveParticle 30 p.
Proof. unfold liveParticle. lia. Qed.

Lemma did_summary input this this' w w' :
  robotDid input this this' w w' ->
  (RobotObj.id this' = RobotObj.id this /\
   RobotObj.controls this' = RobotObj.controls this /\
   RobotObj.pos this' = RobotObj.pos this /\
   RobotObj.vel this' = RobotObj.vel this /\
   RobotObj.cooldown this' = nextCooldown input this) /\
  (vnext w <= vnext w')%nat /\
  anext w' = anext w /\
  dom w' = dom w /\
  (exists ps, Forall freshParticle ps /\
     gameState w' = g_particles (particles (gameState w) ++ ps) (gameState w)).
Proof.
  intros (ps & vs & n & ao & rc & ang & inv' & -> & -> & Hn & Hps & _). cbn.
  split_and!; try done. by exists ps.
Qed.

Lemma wp_update_tidy now input w Q :
  Safe w -> Tidy w ->
  (forall r w', Tidy w' -> frameOutcome now w r w' -> Q r w') ->
  wp (update now input) w Q.
Proof.
  intros Hsafe Htidy HQ. unfold update. wp_walk.
  destruct (running (gameState w)) eqn:Hrun; cbn [negb].
  - wp_step. unfold clock. wp_walk. wp_case.
    + wp_walk. rewrite identifier_gamestate. wp_walk.
      apply HQ.
      * destruct Htidy. split; cbn; auto; try lia.
      * unfold frameOutcome. rewrite Hrun, Heqb. cbn. split; [done|].
        intros _. split_and!; [done|lia|lia].
    + wp_walk.
      destruct Htidy as [(r0 & r1 & Hrs & Hid0 & Hid1 & Hc0 & Hc1) Hcool Hcar Hsc Hps Ht Hm].
      destruct Hsafe as [_ _ Hok _ _].
      rewrite Hrs in Hcool, Hcar, Hok |- *.
      apply Forall_cons in Hcool as [Hcool0 Hcool], Hcar as [Hcar0 Hcar], Hok as [Hok0 Hok].
      apply Forall_cons in Hcool as [Hcool1 _], Hok as [Hok1 _].
      destruct Hok0 as (_ & Hp0 & Hv0 & Hn0), Hok1 as (_ & Hp1 & Hv1 & Hn1).
      specialize (Hm Hrun). destruct Hm as (Hpat & H36 & Harts & Hrt & Hbt).
      unfold mapM. wp_step. apply wp_Robot_update_did; try done.
      intros r0' w1 Hdid0. cbv beta iota. wp_step.
      destruct (did_carried _ _ _ [r1] _ _ Hdid0 Hcar0 Hcar) as [Hcar0' Hcar1'].
      { constructor; [congruence|constructor]. }
      apply Forall_cons in Hcar1' as [Hcar1' _].
      destruct (did_summary _ _ _ _ _ Hdid0)
        as ((Ei0 & Ec0 & Ep0 & Ev0 & Ek0) & Hn01 & Ea1 & Ed1 & ps1 & Hps1 & Eg1).
      wp_step. apply wp_Robot_update_did; try lia; try done.
      intros r1' w2 Hdid1. cbv beta iota.
      destruct (did_carried _ _ _ [r0'] _ _ Hdid1 Hcar1') as [Hcar1'' Hcar0''].
      { by constructor. }
      { constructor; [congruence|constructor]. }
      apply Forall_cons in Hcar0'' as [Hcar0'' _].
      destruct (did_summary _ _ _ _ _ Hdid1)
        as ((Ei1 & Ec1 & Ep1 & Ev1 & Ek1) & Hn12 & Ea2 & Ed2 & ps2 & Hps2 & Eg2).
      clear Hdid0 Hdid1.
      wp_walk.
      apply (wp_forEach_ok played).
      { intros a w3 Q3 _ HQ3. by apply wp_artifactStep_played. }
      intros w3 H3. cbv beta iota. wp_walk.
      apply wp_particleLoop_exact; [done|].
      intros vs _ _. rewrite firstn_all, drop_all, app_nil_r.
      assert (Hg2 : gameState w2
                    = g_particles ((particles (gameState w) ++ ps1) ++ ps2) (gameState w))
        by (rewrite Eg2, Eg1; reflexivity).
      clear Eg1 Eg2.
      assert (Hc3 : forall r, carried w2 r -> carried w3 r).
      { intros r Hr. apply (played_carried _ _ _ H3). revert Hr.
        by apply carried_ext. }
      destruct H3 as (R & A & N & (C1 & C2 & C3) & F & (HR1 & HR2) & (HB1 & HB2)
                      & (ps3 & P3 & Hps3) & Hp3 & Hrt3 & Hbt3).
      cbn in R, A, N, C1, C2, C3, HR1, HR2, HB1, HB2, P3, Hp3, Hrt3, Hbt3.
      clear F. rewrite Hg2 in A, C1, C2, C3, HR1, HR2, HB1, HB2, P3, Hp3.
      cbn in A, C1, C2, C3, HR1, HR2, HB1, HB2, P3, Hp3.
      rewrite Ed2, Ed1, Hg2 in Hrt3, Hbt3. cbn in Hrt3, Hbt3.
      destruct Hsc as (S1 & S2 & S3 & S4).
      apply HQ.
      * split; cbn -[seq].
        -- exists r0', r1'. rewrite R. split_and!; congruence.
        -- rewrite R. apply Forall_cons_2; [|apply Forall_cons_2; [|apply Forall_nil_2]];
             rewrite ?Ek0, ?Ek1; by apply nextCooldown_range.
        -- rewrite R. apply Forall_cons_2; [|apply Forall_cons_2; [|apply Forall_nil_2]];
             apply (carried_ext w3); cbn; auto.
        -- split_and!; try lia;
             [exact (divide_step _ _ S2 HR2) | exact (divide_step _ _ S4 HB2)].
        -- apply survivors_live. rewrite P3.
           rewrite !Forall_app. split_and!.
           ++ eapply Forall_impl; [exact Hps|]. apply live_weaken.
           ++ eapply Forall_impl; [exact Hps1|]. apply fresh_live.
           ++ eapply Forall_impl; [exact Hps2|]. apply fresh_live.
           ++ eapply Forall_impl; [exact Hps3|]. apply fresh_live.
        -- lia.
        -- intros _. rewrite N, Ea2, Ea1, A. split_and!; auto.
      * unfold frameOutcome. rewrite Hrun, Heqb. cbn. split; [done|].
        intros _. split_and!; [congruence|lia|lia].
  - wp_case.
    + destruct Htidy as [(r0 & r1 & Hrs & Hid0 & Hid1 & Hc0 & Hc1) Hcool Hcar Hsc Hps Ht Hm].
      apply (wp_startGame now w r0 r1 []); [exact Hrs|].
      intros t0 t1 t2 vs n ao rc Hn Hvs Hao Hf.
      rewrite Hrs in Hcool.
      apply Forall_cons in Hcool as [Hcool0 Hcool].
      apply Forall_cons in Hcool as [Hcool1 _].
      apply HQ.
      * split; cbn -[seq].
        -- eexists _, _. split; [reflexivity|]. cbn. by split_and!.
        -- by apply Forall_cons_2; [|apply Forall_cons_2; [|apply Forall_nil_2]].
        -- apply Forall_cons_2; [|apply Forall_cons_2; [|apply Forall_nil_2]];
             (split; cbn; [apply NoDup_nil_2 | by intros a Ha%elem_of_nil]).
        -- split_and!; try lia; apply Z.divide_0_r.
        -- exact Hps.
        -- lia.
        -- intros _. split_and!; try done; try lia.
           ++ split; [done|].
              apply Forall_cons_2; [|apply Forall_cons_2; [|apply Forall_cons_2; [|apply Forall_nil_2]]].
              ** destruct t0; auto.
              ** destruct t1; auto.
              ** destruct t2; auto.
           ++ f_equal. lia.
      * unfold frameOutcome. rewrite Hrun. cbn. split; [done|]. done.
    + wp_walk. apply HQ.
      * exact Htidy.
      * unfold frameOutcome. rewrite Hrun. cbn. split; [done|]. done.
Qed.

Lemma Tidy_initial page source : Tidy (initialWorld page source).
Proof.
  rewrite initialWorld_eq. split; cbn -[seq].
  - eexists _, _. split; [reflexivity|]. cbn. by split_and!.
  - by apply Forall_cons_2; [|apply Forall_cons_2; [|apply Forall_nil_2]].
  - apply Forall_cons_2; [|apply Forall_cons_2; [|apply Forall_nil_2]];
      (split; cbn; [apply NoDup_nil_2 | by intros a Ha%elem_of_nil]).
  - split_and!; try lia; apply Z.divide_0_r.
  - apply Forall_nil_2.
  - lia.
  - done.
Qed.

Lemma wp_hideMessage_tidy w Q :
  Tidy w ->
  (forall w', Tidy w' -> Q (Ok tt) w') ->
  wp hideMessage w Q.
Proof.
  intros Htidy HQ. unfold hideMessage. wp_go.
  destruct Htidy as [? ? ? ? ? ? Hm].
  wp_case; wp_go; (apply HQ; split; cbn -[seq]; auto).
  all: first [exact Hm | congruence].
Qed.

Lemma reachable_tidy page source w : reachable page source w -> Tidy w.
Proof.
  induction 1 as [|w now input Hw IH|w _ IH _].
  - apply Tidy_initial.
  - unfold exec. pattern ((update now input w).1), ((update now input w).2).
    apply (wp_run (update now input) w), wp_update_tidy; eauto using reachable_safe.
  - unfold exec. pattern ((hideMessage w).1), ((hideMessage w).2).
    apply (wp_run hideMessage w), wp_hideMessage_tidy; auto.
Qed.

Lemma frame_outcome page source w now input :
  reachable page source w ->
  frameOutcome now w (result (update now input) w) (exec (update now input) w).
Proof.
  intros Hw. unfold exec, result.
  pattern ((update now input w).1), ((update now input w).2).
  apply (wp_run (update now input) w), wp_update_tidy;
    eauto using reachable_safe, reachable_tidy.
Qed.

(** X18.  A frame of a run throws only at a tick of a running match: the
    frame that finds a second elapsed stops at the undeclared identifier
    of line 302, and every other frame, whether it starts a match, idles
    before one or runs the robots, artifacts and particles, returns
    normally. *)
Theorem update_throws_only_at_tick (page : Dom) (source : nat -> Unit01) (w : World)
  (now : Z) (input : gmap string bool) :
  reachable page source w ->
  result (update now input) w
  = if running (gameState w) && (1000 <=? now - lastTime (gameState w))%Z
    then Throw (ReferenceError "gamestate") else Ok tt.
Proof.
  intros Hw. by destruct (frame_outcome page source w now input Hw) as [H _].
Qed.

Lemma update_throws_only_at_tick_witness :
  reachable samplePage zeros startedWorld /\
  result (update 999 ∅) startedWorld = Ok tt /\
  result (update 1000 ∅) startedWorld = Throw (ReferenceError "gamestate").
Proof.
  split; [exact startedWorld_reachable|].
  rewrite !(update_throws_only_at_tick samplePage zeros startedWorld _ _
              startedWorld_reachable).
  rewrite startedWorld_running, (proj2 startedWorld_clock). by split.
Defined.



(** X20.  In every world of a run there are exactly two robots, the red
    one first with the keys W, S, A, D and F and the blue one second with
    the arrow keys and M, and the action cooldown of each is between 0 and
    14. *)
Theorem robots_and_cooldowns (page : Dom) (source : nat -> Unit01) (w : World) :
  reachable page source w ->
  exists r0 r1,
    robots (gameState w) = [r0; r1] /\
    (RobotObj.id r0 = red /\ RobotObj.controls r0 = redControls) /\
    (RobotObj.id r1 = blue /\ RobotObj.controls r1 = blueControls) /\
    (0 <= RobotObj.cooldown r0 <= 14)%Z /\
    (0 <= RobotObj.cooldown r1 <= 14)%Z.
Proof.
  intros Hw.
  destruct (reachable_tidy _ _ _ Hw) as [(r0 & r1 & Hrs & ? & ? & ? & ?) Hcool _ _ _ _ _].
  rewrite Hrs in Hcool.
  apply Forall_cons in Hcool as [Hk0 Hcool]. apply Forall_cons in Hcool as [Hk1 _].
  exists r0, r1. split_and!; done || lia.
Qed.

Lemma robots_and_cooldowns_witness :
  reachable samplePage zeros startedWorld /\
  exists r0 r1,
    robots (gameState startedWorld) = [r0; r1] /\
    (RobotObj.id r0 = red /\ RobotObj.controls r0 = redControls) /\
    (RobotObj.id r1 = blue /\ RobotObj.controls r1 = blueControls) /\
    (0 <= RobotObj.cooldown r0 <= 14)%Z /\
    (0 <= RobotObj.cooldown r1 <= 14)%Z.
Proof.
  split; [exact startedWorld_reachable|].
  exact (robots_and_cooldowns samplePage zeros startedWorld startedWorld_reachable).
Defined.





(** X23.  While a match of a run is on, the target pattern has three
    entries, each a purple or a green artifact type, the artifact
    collection holds the 36 artifacts allocated last, each once, and the
    two score texts of the page show the two scores. *)
Theorem running_match_setup (page : Dom) (source : nat -> Unit01) (w : World) :
  reachable page source w ->
  running (gameState w) = true ->
  (length (targetPattern (gameState w)) = 3%nat /\
   forall e, e ∈ targetPattern (gameState w) -> e = Some purple \/ e = Some green) /\
  (length (artifacts (gameState w)) = 36%nat /\
   NoDup (artifacts (gameState w)) /\
   forall a, a ∈ artifacts (gameState w) <-> (anext w - 36 <= a < anext w)%nat) /\
  redScoreText (dom w) = redScore (gameState w) /\
  blueScoreText (dom w) = blueScore (gameState w).
Proof.
  intros Hw Hrun.
  destruct (reachable_tidy _ _ _ Hw) as [_ _ _ _ _ _ Hm].
  destruct (Hm Hrun) as ([Hlen Hall] & H36 & Harts & Hr & Hb).
  rewrite Forall_forall in Hall. split_and!; try done.
  - by rewrite Harts, length_seq.
  - rewrite Harts. apply NoDup_seq.
  - intros a. rewrite Harts, elem_of_seq. lia.
Qed.

Lemma running_match_setup_witness :
  (reachable samplePage zeros startedWorld /\
   running (gameState startedWorld) = true) /\
  length (artifacts (gameState startedWorld)) = 36%nat /\
  redScoreText (dom startedWorld) = redScore (gameState startedWorld).
Proof.
  split; [split; [exact startedWorld_reachable | exact startedWorld_running]|].
  destruct (running_match_setup samplePage zeros startedWorld
              startedWorld_reachable startedWorld_running)
    as (_ & (H1 & _) & H2 & _).
  by split.
Defined.

(** ** Key listeners and the view *)




Lemma scale_pos cw ch : (0 < cw)%R -> (0 < ch)%R -> (0 < View.scale cw ch)%R.
Proof.
  intros Hw Hh. unfold View.scale, FIELD_WIDTH, FIELD_HEIGHT.
  apply Rmin_glb_lt; apply Rdiv_lt_0_compat; lra.
Qed.

Lemma scale_fits cw ch :
  (FIELD_WIDTH * View.scale cw ch <= cw)%R /\
  (FIELD_HEIGHT * View.scale cw ch <= ch)%R /\
  (FIELD_WIDTH * View.scale cw ch = cw \/ FIELD_HEIGHT * View.scale cw ch = ch)%R.
Proof.
  unfold View.scale, FIELD_WIDTH, FIELD_HEIGHT.
  destruct (Rle_dec (cw / 2000) (ch / 1400)) as [H|H].
  - rewrite Rmin_left by exact H. split_and!; [lra|lra|left; lra].
  - rewrite Rmin_right by lra. split_and!; [lra|lra|right; lra].
Qed.

(** X25.  The view of [draw] on a canvas of positive width and height:
    the scale is positive, the offsets are not negative and one of them is
    0, every point of the field is drawn inside the canvas, the centre of
    the field at the centre of the canvas, and distances are scaled alike
    along both axes. *)
Theorem draw_view_fits (cw ch : R) :
  (0 < cw)%R -> (0 < ch)%R ->
  (0 < View.scale cw ch)%R /\
  (0 <= View.offsetX cw ch)%R /\ (0 <= View.offsetY cw ch)%R /\
  (View.offsetX cw ch = 0 \/ View.offsetY cw ch = 0)%R /\
  (forall p,
     (0 <= Vec.x p <= FIELD_WIDTH)%R -> (0 <= Vec.y p <= FIELD_HEIGHT)%R ->
     (0 <= Vec.x (View.toCanvas cw ch p) <= cw)%R /\
     (0 <= Vec.y (View.toCanvas cw ch p) <= ch)%R) /\
  View.toCanvas cw ch (Vec.mk (FIELD_WIDTH / 2) (FIELD_HEIGHT / 2))
  = Vec.mk (cw / 2) (ch / 2) /\
  (forall p q,
     magnitude (Vec.mk (Vec.x (View.toCanvas cw ch p) - Vec.x (View.toCanvas cw ch q))
                       (Vec.y (View.toCanvas cw ch p) - Vec.y (View.toCanvas cw ch q)))
     = (View.scale cw ch
        * magnitude (Vec.mk (Vec.x p - Vec.x q) (Vec.y p - Vec.y q)))%R).
Proof.
  intros Hw Hh.
  pose proof (scale_pos cw ch Hw Hh) as Hs.
  destruct (scale_fits cw ch) as (Hx & Hy & Hxy).
  unfold View.toCanvas, View.offsetX, View.offsetY. cbn [Vec.x Vec.y].
  split_and!; try lra.
  - intros p [Hp0 Hp1] [Hq0 Hq1].
    assert (Vec.x p * View.scale cw ch <= FIELD_WIDTH * View.scale cw ch)%R
      by (apply Rmult_le_compat_r; lra).
    assert (Vec.y p * View.scale cw ch <= FIELD_HEIGHT * View.scale cw ch)%R
      by (apply Rmult_le_compat_r; lra).
    assert (0 <= Vec.x p * View.scale cw ch)%R by (apply Rmult_le_pos; lra).
    assert (0 <= Vec.y p * View.scale cw ch)%R by (apply Rmult_le_pos; lra).
    split; lra.
  - f_equal; lra.
  - intros p q.
    replace (Vec.mk _ _)
      with (Vec.mk ((Vec.x p - Vec.x q) * View.scale cw ch)
                   ((Vec.y p - Vec.y q) * View.scale cw ch))
      by (f_equal; lra).
    rewrite magnitude_mult, Rabs_pos_eq by lra. reflexivity.
Qed.

Lemma draw_view_fits_witness :
  ((0 < 1000)%R /\ (0 < 1400)%R) /\
  View.toCanvas 1000 1400 (Vec.mk (FIELD_WIDTH / 2) (FIELD_HEIGHT / 2))
  = Vec.mk (1000 / 2) (1400 / 2).
Proof.
  assert (H1 : (0 < 1000)%R) by lra.
  assert (H2 : (0 < 1400)%R) by lra.
  split; [by split|].
  exact (proj1 (proj2 (proj2 (proj2 (proj2 (proj2 (draw_view_fits 1000 1400 H1 H2))))))).
Defined.

(** ** The properties on the sample matches *)

Lemma distance_level w p q :
  Vec.y (vectors w p) = Vec.y (vectors w q) ->
  distance w p q = Rabs (Vec.x (vectors w p) - Vec.x (vectors w q)).
Proof.
  intros Hy. unfold distance. rewrite Hy.
  replace ((Vec.x (vectors w p) - Vec.x (vectors w q)) ^ 2
           + (Vec.y (vectors w q) - Vec.y (vectors w q)) ^ 2)%R
    with (Rsqr (Vec.x (vectors w p) - Vec.x (vectors w q)))
    by (unfold Rsqr; ring).
  apply sqrt_Rsqr_abs.
Qed.

Lemma sampleWorld_vectors :
  vectors sampleWorld 0%nat = Vec.mk 100 (FIELD_HEIGHT / 2) /\
  vectors sampleWorld 2%nat = Vec.mk (FIELD_WIDTH - 100) (FIELD_HEIGHT / 2).
Proof. unfold sampleWorld. rewrite initialWorld_eq. by split. Qed.

Lemma Artifact_update_wall_trap_witness :
  (Vec.x (vectors (Nat.iter 3 (exec (Artifact.update 0%nat)) strayWorld) 4%nat)
   < ARTIFACT_RADIUS)%R.
Proof.
  apply (Artifact_update_wall_trap 0%nat strayWorld 2%nat);
    try reflexivity; cbn; unfold store_set, ARTIFACT_RADIUS; cbn; (lia || lra).
Defined.




Lemma scoringWorld_reach :
  distance scoringWorld 0%nat 4%nat = 40%R /\
  distance scoringWorld 2%nat 4%nat = 1840%R.
Proof.
  destruct sampleWorld_vectors as [H0 H2].
  assert (E0 : vectors scoringWorld 0%nat = Vec.mk 100 (FIELD_HEIGHT / 2))
    by (rewrite <- H0; reflexivity).
  assert (E2 : vectors scoringWorld 2%nat = Vec.mk (FIELD_WIDTH - 100) (FIELD_HEIGHT / 2))
    by (rewrite <- H2; reflexivity).
  assert (E4 : vectors scoringWorld 4%nat = Vec.mk 60 700) by reflexivity.
  split; rewrite distance_level; rewrite ?E0, ?E2, ?E4; cbn;
    unfold FIELD_WIDTH, FIELD_HEIGHT; try lra.
  - rewrite Rabs_pos_eq; lra.
  - rewrite Rabs_pos_eq; lra.
Qed.

Lemma action_captures_first_witness :
  result (Robot.action idleRed) scoringWorld
  = Ok (RobotObj.with_inventory idleRed [0%nat]).
Proof.
  apply (action_captures_first idleRed [] 0%nat [] scoringWorld).
  - cbn. unfold MAX_INVENTORY. lia.
  - reflexivity.
  - intros b Hb. by apply elem_of_nil in Hb.
  - reflexivity.
  - change (distance scoringWorld 0%nat 4%nat < ROBOT_SIZE + 20)%R.
    rewrite (proj1 scoringWorld_reach). unfold ROBOT_SIZE. lra.
Defined.

Lemma action_releases_oldest_witness :
  result (Robot.action sampleRed) holdingWorld
  = Ok (RobotObj.with_inventory sampleRed []).
Proof.
  apply (action_releases_oldest sampleRed 0%nat [] holdingWorld).
  - reflexivity.
  - cbn. lia.
  - cbn. lia.
  - intros _ b Hb. apply list_elem_of_singleton in Hb as ->. discriminate.
Defined.

Lemma checkPattern_banner_witness :
  gameMessage (dom (exec (checkPattern red) (historyWorld [purple; green; purple])))
  = "RED MATCHED PATTERN (+30)!" /\
  (scoreOf red (gameState (exec (checkPattern red) (historyWorld [purple; green; purple])))
   - scoreOf red (gameState (historyWorld [purple; green; purple])) = 20)%Z.
Proof.
  destruct (checkPattern_banner red (historyWorld [purple; green; purple]))
    as (H1 & _ & _ & H2 & _).
  - cbn. lia.
  - intros [|[|[|i]]] Hi; [reflexivity.. | lia].
  - split; [exact H1 | exact H2].
Defined.

Lemma goalWorld_distances :
  distance goalWorld 0%nat 4%nat = 40%R /\
  distance goalWorld 2%nat 4%nat = 1840%R /\
  distance goalWorld 4%nat 6%nat = 10%R.
Proof.
  destruct scoringWorld_reach as [H0 H2]. split_and!.
  - rewrite <- H0. by apply distance_ext.
  - rewrite <- H2. by apply distance_ext.
  - rewrite distance_level; cbn; unfold store_set, FIELD_HEIGHT; cbn; [|lra].
    rewrite Rabs_pos_eq; lra.
Qed.

Lemma artifactStep_scores_resting_witness :
  ArtifactObj.scored
    (artifactObjs (exec (artifactStep 6%nat 7%nat 0%nat) goalWorld) 0%nat) = true.
Proof.
  destruct (artifactStep_scores_resting 6%nat 7%nat 0%nat goalWorld)
    as (_ & H & _); try reflexivity; try (cbn; unfold store_set; cbn; lia).
  - intros r Hr.
    change (robots (gameState goalWorld)) with (robots (gameState sampleWorld)) in Hr.
    rewrite sampleWorld_robots in Hr.
    destruct goalWorld_distances as (H0 & H2 & _).
    apply elem_of_cons in Hr as [->|Hr];
      [|apply list_elem_of_singleton in Hr as ->].
    + split_and!; [cbn; unfold store_set; cbn; lia..|].
      change (~ (distance goalWorld 0%nat 4%nat < ROBOT_SIZE / 2 + ARTIFACT_RADIUS)%R).
      rewrite H0. unfold ROBOT_SIZE, ARTIFACT_RADIUS. lra.
    + split_and!; [cbn; unfold store_set; cbn; lia..|].
      change (~ (distance goalWorld 2%nat 4%nat < ROBOT_SIZE / 2 + ARTIFACT_RADIUS)%R).
      rewrite H2. unfold ROBOT_SIZE, ARTIFACT_RADIUS. lra.
  - apply H.
    change (distance goalWorld 4%nat 6%nat < GOAL_SIZE)%R.
    rewrite (proj2 (proj2 goalWorld_distances)). unfold GOAL_SIZE. lra.
Defined.
